(** * bGrease: component-entity manager and mode stack

    A shallow embedding of [grease/component/manager.py], of [World.pump]
    from [grease/grease_fife/world.py] and of [grease/mode.py]. Python
    objects become records, attribute mutation becomes explicit state
    passing, exceptions become a constructor of the result type that carries
    the state reached when the exception left the method, and calls into
    objects that live outside these files (systems, the hooks of component
    stores, the overridable [on_...] hooks) are recorded in a log of calls.
    Objects that are shared by reference (component stores, modes) live in
    a heap keyed by their identity. *)

From Stdlib Require Import ZArith List Lia Sorted.
From stdpp Require Import base option gmap sets list strings.

Open Scope Z_scope.

(** The built-in exceptions the two files can raise. *)
Inductive exn : Set :=
| KeyError
| IndexError
| ValueError
| AssertionError
| AttributeError.

#[global] Instance exn_eq_dec : EqDecision exn.
Proof. solve_decision. Defined.

(** ** Python list primitives used by both files *)

(** [l.pop()]: the list without its last element, and that element. *)
Fixpoint list_pop {A} (l : list A) : option (list A * A) :=
  match l with
  | [] => None
  | x :: l' =>
      match list_pop l' with
      | None => Some ([], x)
      | Some (r, y) => Some (x :: r, y)
      end
  end.

(** [l.remove(x)]: drops the first occurrence; [None] stands for ValueError. *)
Fixpoint list_remove_first {A} `{EqDecision A} (x : A) (l : list A)
  : option (list A) :=
  match l with
  | [] => None
  | y :: l' =>
      if decide (y = x) then Some l'
      else cons y <$> list_remove_first x l'
  end.

(** [l.index(x)]: position of the first occurrence; [None] is ValueError. *)
Fixpoint list_index {A} `{EqDecision A} (x : A) (l : list A) : option nat :=
  match l with
  | [] => None
  | y :: l' =>
      if decide (y = x) then Some 0%nat
      else S <$> list_index x l'
  end.

Lemma list_pop_snoc {A} (l : list A) (x : A) : list_pop (l ++ [x]) = Some (l, x).
Proof.
  induction l as [|y l IH]; simpl; [reflexivity|].
  now rewrite IH.
Qed.

Lemma list_pop_None {A} (l : list A) : list_pop l = None <-> l = [].
Proof.
  destruct l as [|x l]; simpl; [tauto|].
  split; [|discriminate].
  destruct (list_pop l) as [[r y]|]; discriminate.
Qed.

Lemma list_pop_Some {A} (l r : list A) (x : A) :
  list_pop l = Some (r, x) -> l = r ++ [x].
Proof.
  revert r; induction l as [|y l IH]; intros r; simpl; [discriminate|].
  destruct (list_pop l) as [[r' z]|] eqn:E.
  - intros [= <- <-]. simpl. f_equal. now apply IH.
  - intros [= <- <-]. apply list_pop_None in E. now subst.
Qed.

Lemma list_index_None {A} `{EqDecision A} (x : A) (l : list A) :
  list_index x l = None <-> x ∉ l.
Proof.
  induction l as [|y l IH]; simpl.
  - split; [intros _; apply not_elem_of_nil | reflexivity].
  - destruct (decide (y = x)) as [->|Hne].
    + split; [discriminate|]. intros H; exfalso; apply H; left.
    + rewrite not_elem_of_cons. destruct (list_index x l); simpl.
      * split; [discriminate|]. intros [_ H]. apply IH in H. discriminate.
      * split; [|reflexivity]. intros _. split; [congruence|]. now apply IH.
Qed.

Lemma list_index_lt {A} `{EqDecision A} (x : A) (l : list A) i :
  list_index x l = Some i -> (i < length l)%nat.
Proof.
  revert i; induction l as [|y l IH]; intros i; simpl; [discriminate|].
  destruct (decide (y = x)).
  - intros [= <-]. lia.
  - destruct (list_index x l) as [j|]; simpl; [|discriminate].
    intros [= <-]. specialize (IH j eq_refl). lia.
Qed.

Lemma list_index_lookup {A} `{EqDecision A} (x : A) (l : list A) i :
  list_index x l = Some i -> l !! i = Some x.
Proof.
  revert i; induction l as [|y l IH]; intros i; simpl; [discriminate|].
  destruct (decide (y = x)) as [->|].
  - now intros [= <-].
  - destruct (list_index x l) as [j|]; simpl; [|discriminate].
    intros [= <-]. simpl. now apply IH.
Qed.

(** What [l.remove(x)] does to a list: the first occurrence of [x] goes and
    everything else stays in order. *)
Lemma list_remove_first_Some {A} `{EqDecision A} (x : A) (l l' : list A) :
  list_remove_first x l = Some l' <->
  exists l1 l2, l = l1 ++ x :: l2 /\ (x ∉ l1) /\ l' = l1 ++ l2.
Proof.
  revert l'. induction l as [|y l IH]; intros l'; simpl.
  - split; [discriminate|]. intros (l1 & l2 & H & _). now destruct l1.
  - destruct (decide (y = x)) as [->|Hne].
    + split.
      * intros [= <-]. exists [], l. split; [reflexivity|].
        split; [apply not_elem_of_nil|reflexivity].
      * intros (l1 & l2 & H & Hn & ->). destruct l1 as [|z l1]; simpl in *.
        -- now inversion H.
        -- inversion H; subst. exfalso. apply Hn. left.
    + destruct (list_remove_first x l) as [r|] eqn:E; simpl.
      * split.
        -- intros [= <-]. destruct (proj1 (IH r) eq_refl)
             as (l1 & l2 & -> & Hn & ->).
           exists (y :: l1), l2. split; [reflexivity|].
           split; [|reflexivity]. rewrite not_elem_of_cons. auto.
        -- intros (l1 & l2 & H & Hn & ->). destruct l1 as [|z l1]; simpl in *.
           ++ inversion H; congruence.
           ++ inversion H; subst. apply not_elem_of_cons in Hn as [_ Hn].
              f_equal. f_equal. assert (Some r = Some (l1 ++ l2)) as [= ->];
                [|reflexivity].
              apply IH. eauto.
      * split; [discriminate|].
        intros (l1 & l2 & H & Hn & ->). destruct l1 as [|z l1]; simpl in *.
        -- inversion H; congruence.
        -- inversion H; subst. apply not_elem_of_cons in Hn as [_ Hn].
           assert (None = Some (l1 ++ l2)) by (apply IH; eauto).
           discriminate.
Qed.

Lemma list_remove_first_None {A} `{EqDecision A} (x : A) (l : list A) :
  list_remove_first x l = None <-> x ∉ l.
Proof.
  induction l as [|y l IH]; simpl.
  - split; [intros _; apply not_elem_of_nil|reflexivity].
  - rewrite not_elem_of_cons. destruct (decide (y = x)) as [->|Hne].
    + split; [discriminate|]. intros [H _]. congruence.
    + destruct (list_remove_first x l); simpl.
      * split; [discriminate|]. intros [_ H]. now apply IH in H.
      * split; [|reflexivity]. intros _. split; [congruence|]. now apply IH.
Qed.

Lemma list_remove_first_snoc {A} `{EqDecision A} (x : A) (l : list A) :
  x ∉ l -> list_remove_first x (l ++ [x]) = Some l.
Proof.
  intros Hn. apply list_remove_first_Some. exists l, [].
  split; [reflexivity|]. split; [exact Hn|]. now rewrite app_nil_r.
Qed.

(** * The component-entity manager ([grease/component/manager.py]) *)

Module Manager.

(** Result of a method call on a receiver of type [St]: a normal return with
    the receiver's new state, or an exception with the state it left behind. *)
Inductive result (St A : Type) : Type :=
| Ok (a : A) (s : St)
| Raise (e : exn) (s : St).
Arguments Ok {St A} a s.
Arguments Raise {St A} e s.

(** The interpreter. The package is written for Python 2 and ported to
    Python 3 with [six] and [future]; [manager.py] still calls a method
    that only Python 2 dictionaries have. *)
Inductive python : Set :=
| Python2
| Python3.

(** Identity of a manager object (what [self] denotes in the manager). *)
Definition manager_ref := nat.

(** Identity of a component store object. The component map binds names to
    store objects, not to copies: one object can be bound under several
    names, and what a method does to the object shows under all of them. *)
Definition store_ref := nat.

Section WithRecords.

(** [Rec] is the per-entity data record of a component; [Num] is the type of
    clock values and time steps. The constructor and [run] take its zero and
    its addition ([self.time = 0], [self.time += dt]) as arguments. *)
Context {Rec Num : Type}.

(** Modelled from the spec: the component store class (the [Component]
    objects registered in the component map) is not among the sources. The
    spec describes a store as a mapping from entity identity to a data
    record with deletion and lookup; the manager reads its [entity_id_set]
    (the set of identities the store holds), indexes it with [comp[id]] and
    deletes with [del comp[id]], expecting KeyError for a missing record.
    [entity_id_set] is kept as the set object the store hands out, next to
    the mapping, because the query below narrows that object with [&=].
    [has_set_manager] is [hasattr(component, 'set_manager')]. *)
Record Component : Type := mkComponent {
  entity_id_set : gset Z;
  records : gmap Z Rec;
  has_set_manager : bool
}.

#[global] Instance Component_inhabited : Inhabited Component :=
  populate {| entity_id_set := ∅; records := ∅; has_set_manager := false |}.

(** Modelled from the spec: [comp[id]]; [None] stands for KeyError. *)
Definition Component_getitem (id : Z) (c : Component) : option Rec :=
  records c !! id.

(** Modelled from the spec: [del comp[id]]; [None] stands for KeyError. *)
Definition Component_delitem (id : Z) (c : Component) : option Component :=
  match records c !! id with
  | Some _ =>
      Some {| entity_id_set := entity_id_set c ∖ {[id]};
              records := delete id (records c);
              has_set_manager := has_set_manager c |}
  | None => None
  end.

(** Modelled from the spec: the store's existence query. *)
Definition Component_contains (id : Z) (c : Component) : bool :=
  bool_decide (is_Some (records c !! id)).

(** A store whose [entity_id_set] is the key set of its mapping. *)
Definition Component_wf (c : Component) : Prop :=
  entity_id_set c = dom (records c).

(** A store that holds a record for every identity in its [entity_id_set]. *)
Definition Component_sound (c : Component) : Prop :=
  entity_id_set c ⊆ dom (records c).

(** The store objects, by identity. *)
Definition heap : Type := gmap store_ref Component.

Definition store_at (h : heap) (r : store_ref) : Component := h !!! r.

(** In-place change of the store object [r]. *)
Definition upd_store (r : store_ref) (f : Component -> Component) (h : heap)
  : heap :=
  <[r := f (store_at h r)]> h.

(** A system is an object outside these files; only its identity and
    whether it has a [set_manager] attribute matter to the manager. *)
Record System : Type := mkSystem {
  system_id : nat;
  system_has_set_manager : bool
}.

#[global] Instance System_eq_dec : EqDecision System.
Proof. solve_decision. Defined.

(** What [_entity_factory(self, entity_id)] builds. *)
Record Entity : Type := mkEntity {
  entity_manager : manager_ref;
  entity_id : Z
}.

(** [__contains__] and [__delitem__] accept an entity object or a bare id:
    [getattr(entity, "entity_id", entity)]. *)
Inductive entity_arg : Type :=
| ById (id : Z)
| ByEntity (e : Entity).

Definition get_entity_id (entity : entity_arg) : Z :=
  match entity with
  | ById id => id
  | ByEntity e => entity_id e
  end.

(** Calls the manager makes on stores and systems. *)
Inductive call : Type :=
| Component_set_manager (c : store_ref) (m : manager_ref)
| System_set_manager (s : System) (m : manager_ref)
| System_run (s : System) (dt : Num).

(** ** class ComponentMap(dict) *)

Record ComponentMap : Type := mkComponentMap {
  _manager : manager_ref;
  items : gmap string store_ref
}.

(** [ComponentMap.__setitem__]: [dict.__setitem__] binds or rebinds the
    name to the store object, then the store's hook is called when it has
    one. *)
Definition ComponentMap_setitem (h : heap) (name : string)
    (component : store_ref) (self : ComponentMap) : ComponentMap * list call :=
  let self' := {| _manager := _manager self;
                  items := <[name := component]> (items self) |} in
  (self', if has_set_manager (store_at h component)
          then [Component_set_manager component (_manager self)]
          else []).

(** [ComponentMap.__init__]: every keyword argument goes through
    [self[name] = comp], that is through [__setitem__]. *)
Definition ComponentMap_init (h : heap) (manager : manager_ref)
    (components : gmap string store_ref) : ComponentMap * list call :=
  foldl (fun acc nc =>
           let '(self', calls) := ComponentMap_setitem h nc.1 nc.2 acc.1 in
           (self', acc.2 ++ calls))
        ({| _manager := manager; items := ∅ |}, [])
        (map_to_list components).

(** [ComponentMap.__iter__] returns [self.itervalues()]. On Python 2 that
    is the dictionary's iterator over its values: iterating the map yields
    the store objects, one per name, not the names. A Python 3 dictionary
    has no [itervalues], so there the attribute lookup raises
    AttributeError, for which [None] stands. *)
Definition ComponentMap_iter (py : python) (self : ComponentMap)
  : option (list store_ref) :=
  match py with
  | Python2 => Some (map_to_list (items self)).*2
  | Python3 => None
  end.

(** ** class ComponentEntityManager *)

Record ComponentEntityManager : Type := mkCEM {
  this : manager_ref;
  _component_map : ComponentMap;
  _entities : gset Z;
  systems : list System;
  _entity_id : Z;
  time : Num
}.

Definition components (self : ComponentEntityManager) : ComponentMap :=
  _component_map self.

Definition set_entities (es : gset Z)
    (self : ComponentEntityManager) : ComponentEntityManager :=
  {| this := this self;
     _component_map := _component_map self;
     _entities := es;
     systems := systems self;
     _entity_id := _entity_id self;
     time := time self |}.

Definition set_systems (ss : list System)
    (self : ComponentEntityManager) : ComponentEntityManager :=
  {| this := this self;
     _component_map := _component_map self;
     _entities := _entities self;
     systems := ss;
     _entity_id := _entity_id self;
     time := time self |}.

(** The calls [set_manager(self)] made for the systems that have the hook. *)
Definition bind_systems (m : manager_ref) (ss : list System) : list call :=
  flat_map (fun s => if system_has_set_manager s
                     then [System_set_manager s m] else []) ss.

(** [ComponentEntityManager.__init__(self, systems=(), **components)] for
    the manager object with identity [self_ref]; [h] holds the store
    objects passed as keyword arguments. *)
Definition CEM_init (h : heap) (num_zero : Num) (self_ref : manager_ref)
    (systems0 : list System) (components0 : gmap string store_ref)
  : ComponentEntityManager * list call :=
  let '(cmap, calls) := ComponentMap_init h self_ref components0 in
  ({| this := self_ref;
      _component_map := cmap;
      _entities := ∅;
      systems := systems0;
      _entity_id := 0;
      time := num_zero |},
   calls ++ bind_systems self_ref systems0).

Definition add_system (system : System) (self : ComponentEntityManager)
  : ComponentEntityManager * list call :=
  (set_systems (systems self ++ [system]) self,
   if system_has_set_manager system
   then [System_set_manager system (this self)] else []).

Definition remove_system (system : System) (self : ComponentEntityManager)
  : result ComponentEntityManager unit :=
  match list_remove_first system (systems self) with
  | Some ss => Ok tt (set_systems ss self)
  | None => Raise ValueError self
  end.

(** [run(self, dt)]: the clock first, then one [system.run(dt)] per entry
    of [self.systems], in tuple order. *)
Definition run (num_add : Num -> Num -> Num) (dt : Num)
    (self : ComponentEntityManager)
  : ComponentEntityManager * list call :=
  let self' := {| this := this self;
                  _component_map := _component_map self;
                  _entities := _entities self;
                  systems := systems self;
                  _entity_id := _entity_id self;
                  time := num_add (time self) dt |} in
  (self', foldl (fun log system => log ++ [System_run system dt])
                [] (systems self')).

Definition CEM_contains (entity : entity_arg) (self : ComponentEntityManager)
  : bool :=
  let entity_id := get_entity_id entity in
  bool_decide (entity_id ∈ _entities self).

Definition CEM_len (self : ComponentEntityManager) : nat :=
  size (_entities self).

Definition CEM_getitem (entity_id : Z) (self : ComponentEntityManager)
  : result ComponentEntityManager Entity :=
  if decide (entity_id ∈ _entities self)
  then Ok (mkEntity (this self) entity_id) self
  else Raise KeyError self.

(** The body of the loop in [__delitem__]:
    [try: del com[entity_id] / except KeyError: pass]. *)
Definition try_delitem (entity_id : Z) (com : Component) : Component :=
  match Component_delitem entity_id com with
  | Some com' => com'
  | None => com
  end.

(** [__delitem__(self, entity)]. [for com in self.components] asks the
    component map for its iterator: on Python 3 that raises AttributeError
    before any store is touched and before the identity leaves the live
    set; on Python 2 the loop visits the store object bound under every
    name (an object bound twice is visited twice) and deletes from it in
    place. *)
Definition CEM_delitem (py : python) (entity : entity_arg)
    (self : ComponentEntityManager) (h : heap)
  : result (ComponentEntityManager * heap) unit :=
  let entity_id := get_entity_id entity in
  if decide (entity_id ∈ _entities self) then
    match ComponentMap_iter py (components self) with
    | Some coms =>
        let h' := foldl (fun h com => upd_store com (try_delitem entity_id) h)
                        h coms in
        Ok tt (set_entities (_entities self ∖ {[entity_id]}) self, h')
    | None => Raise AttributeError (self, h)
    end
  else Raise KeyError (self, h).

Definition new_entity (self : ComponentEntityManager)
  : Entity * ComponentEntityManager :=
  let self1 := {| this := this self;
                  _component_map := _component_map self;
                  _entities := _entities self;
                  systems := systems self;
                  _entity_id := _entity_id self + 1;
                  time := time self |} in
  let self2 := set_entities ({[_entity_id self1]} ∪ _entities self1) self1 in
  (mkEntity (this self2) (_entity_id self2), self2).

(** [[comp[id] for comp in components]]; [None] stands for KeyError. *)
Definition row_of (h : heap) (comps : list store_ref) (id : Z)
  : option (list Rec) :=
  mapM (fun comp => Component_getitem id (store_at h comp)) comps.

(** [entity_ids &= comp.entity_id_set], where [entity_ids] is the set
    object of the store [first]: that store's set is narrowed in place. *)
Definition narrow (first comp : store_ref) (h : heap) : heap :=
  upd_store first
    (fun c => {| entity_id_set :=
                   entity_id_set c ∩ entity_id_set (store_at h comp);
                 records := records c;
                 has_set_manager := has_set_manager c |}) h.

(** [iter_components(self, *component_names)], with the generator run to
    exhaustion: the list of the rows it yields. [entity_ids] is the set
    object of the first store and [&=] narrows that object in place, so the
    first store is left with the narrowed set, under every name it is
    bound to. The order of [for id in entity_ids] is the set's own;
    [elements] stands for it. *)
Definition iter_components (component_names : list string)
    (self : ComponentEntityManager) (h : heap)
  : result (ComponentEntityManager * heap) (list (list Rec)) :=
  match mapM (fun name => items (components self) !! name) component_names with
  | None => Raise KeyError (self, h)
  | Some [] => Raise IndexError (self, h)
  | Some (comp0 :: comps1) =>
      let h' := foldl (fun h comp => narrow comp0 comp h) h comps1 in
      let entity_ids := entity_id_set (store_at h' comp0) in
      match mapM (row_of h' (comp0 :: comps1)) (elements entity_ids) with
      | Some rows => Ok rows (self, h')
      | None => Raise KeyError (self, h')
      end
  end.

(** A client driving the manager: a sequence of [new_entity()] and
    [del manager[entity]] calls, the latter inside [try/except]. The last
    component collects the identities handed out, in order. *)
Inductive op : Type :=
| NewEntity
| Remove (entity : entity_arg).

Definition step_op (py : python)
    (st : ComponentEntityManager * heap * list Z) (o : op)
  : ComponentEntityManager * heap * list Z :=
  match o with
  | NewEntity =>
      let '(e, self') := new_entity st.1.1 in
      (self', st.1.2, st.2 ++ [entity_id e])
  | Remove entity =>
      match CEM_delitem py entity st.1.1 st.1.2 with
      | Ok _ s' => (s', st.2)
      | Raise _ s' => (s', st.2)
      end
  end.

Definition run_ops (py : python) (ops : list op)
    (self : ComponentEntityManager) (h : heap)
  : ComponentEntityManager * heap * list Z :=
  foldl (step_op py) (self, h, []) ops.

(** ** Facts about the manager *)

Lemma store_at_upd_store r f (h : heap) r' :
  store_at (upd_store r f h) r'
  = if decide (r = r') then f (store_at h r) else store_at h r'.
Proof.
  unfold store_at, upd_store. destruct (decide (r = r')) as [->|Hne].
  - apply lookup_total_insert_eq.
  - now apply lookup_total_insert_ne.
Qed.

Lemma try_delitem_lookup id j (c : Component) :
  records (try_delitem id c) !! j =
  if decide (j = id) then None else records c !! j.
Proof.
  unfold try_delitem, Component_delitem.
  destruct (records c !! id) eqn:E; simpl.
  - rewrite lookup_delete. destruct (decide (id = j)), (decide (j = id));
      congruence.
  - destruct (decide (j = id)); congruence.
Qed.

Lemma try_delitem_id_set id (c : Component) :
  Component_wf c -> Component_wf (try_delitem id c).
Proof.
  unfold Component_wf, try_delitem, Component_delitem. intros Hwf.
  destruct (records c !! id) eqn:E; simpl; [|exact Hwf].
  rewrite dom_delete_L. now rewrite Hwf.
Qed.

(** A store visited twice by the loop: the second [del] raises KeyError,
    which the loop swallows. *)
Lemma try_delitem_twice id (c : Component) :
  try_delitem id (try_delitem id c) = try_delitem id c.
Proof.
  unfold try_delitem at 1. unfold Component_delitem.
  now rewrite try_delitem_lookup, decide_True.
Qed.

(** The loop of [__delitem__] over the store objects [coms]. *)
Lemma delete_loop_store id (coms : list store_ref) (h : heap) r :
  store_at (foldl (fun h com => upd_store com (try_delitem id) h) h coms) r
  = if decide (r ∈ coms) then try_delitem id (store_at h r) else store_at h r.
Proof.
  revert h. induction coms as [|c coms IH]; intros h; cbn [foldl].
  - now rewrite decide_False by apply not_elem_of_nil.
  - rewrite IH, store_at_upd_store.
    destruct (decide (c = r)) as [->|Hne].
    + rewrite (decide_True (P := r ∈ r :: coms)) by left.
      destruct (decide (r ∈ coms)); [apply try_delitem_twice|reflexivity].
    + destruct (decide (r ∈ coms)) as [Hin|Hnin].
      * now rewrite decide_True by (now right).
      * rewrite decide_False; [reflexivity|].
        rewrite not_elem_of_cons. split; [congruence|exact Hnin].
Qed.

(** The store objects the map yields on Python 2 are those bound under
    some name. *)
Lemma ComponentMap_iter_bound (self : ComponentMap) r :
  r ∈ (map_to_list (items self)).*2
  <-> exists name, items self !! name = Some r.
Proof.
  rewrite list_elem_of_fmap. split.
  - intros ([name r'] & -> & Hin). exists name.
    now apply elem_of_map_to_list in Hin.
  - intros [name Hn]. exists (name, r). split; [reflexivity|].
    now apply elem_of_map_to_list.
Qed.

(** C1, where the code departs from it. On an identity that is not live
    [del manager[id]] raises KeyError and changes neither the manager nor
    any store, on either interpreter. On a live identity the claim holds on
    Python 2 only: there the call returns, no store object bound in the
    component map holds a record for [id] afterwards (a store without one
    is no error), every other record of every store is kept, the bindings
    are as before and [id] has left the live set. On Python 3 the same call
    raises AttributeError at [for com in self.components], with every store
    and the live set as they were: the identity is still live and its
    records are still there. *)
Theorem delitem_cascades_on_python2_only (entity : entity_arg)
    (self : ComponentEntityManager) (h : heap) :
  let id := get_entity_id entity in
  (id ∉ _entities self ->
   forall py, CEM_delitem py entity self h = Raise KeyError (self, h))
  /\ (id ∈ _entities self ->
      CEM_delitem Python3 entity self h = Raise AttributeError (self, h)
      /\ CEM_contains entity self = true)
  /\ (id ∈ _entities self ->
      exists self' h',
        CEM_delitem Python2 entity self h = Ok tt (self', h')
        /\ CEM_contains entity self' = false
        /\ _entities self' = _entities self ∖ {[id]}
        /\ components self' = components self
        /\ (forall name r, items (components self') !! name = Some r ->
              Component_contains id (store_at h' r) = false)
        /\ (forall r j, j <> id ->
              records (store_at h' r) !! j = records (store_at h r) !! j)
        /\ (forall r, (forall name, items (components self) !! name <> Some r) ->
              store_at h' r = store_at h r)).
Proof.
  intros id. unfold CEM_delitem. fold id. split; [|split]; intros Hin.
  - intros py. now rewrite decide_False.
  - rewrite decide_True by exact Hin. split; [reflexivity|].
    unfold CEM_contains. fold id. now apply bool_decide_eq_true.
  - rewrite decide_True by exact Hin. cbn [ComponentMap_iter].
    do 2 eexists. split; [reflexivity|].
    split; [|split; [reflexivity|split; [reflexivity|split; [|split]]]].
    + unfold CEM_contains. cbn [_entities set_entities]. fold id.
      apply bool_decide_eq_false.
      rewrite elem_of_difference, elem_of_singleton. tauto.
    + intros name r Hr. cbn [components _component_map set_entities] in Hr.
      rewrite delete_loop_store, decide_True
        by (apply ComponentMap_iter_bound; eauto).
      unfold Component_contains. apply bool_decide_eq_false.
      rewrite try_delitem_lookup, decide_True by reflexivity.
      intros [? ?]; discriminate.
    + intros r j Hj. rewrite delete_loop_store.
      destruct (decide (r ∈ _)); [|reflexivity].
      now rewrite try_delitem_lookup, decide_False.
    + intros r Hr. rewrite delete_loop_store, decide_False; [reflexivity|].
      intros Hb. apply ComponentMap_iter_bound in Hb as [name Hn].
      exact (Hr name Hn).
Qed.

(** The invariant behind identity allocation: the counter equals the
    number of identities handed out, these are 1, 2, ... in order, and every
    live identity is one of them. *)
Definition alloc_inv (st : ComponentEntityManager * heap * list Z) : Prop :=
  _entity_id st.1.1 = Z.of_nat (length st.2)
  /\ st.2 = Z.of_nat <$> seq 1 (length st.2)
  /\ forall id, id ∈ _entities st.1.1 -> id ∈ st.2.

Lemma issued_range (n : nat) (id : Z) :
  id ∈ (Z.of_nat <$> seq 1 n) <-> 1 <= id <= Z.of_nat n.
Proof.
  rewrite list_elem_of_fmap. split.
  - intros (k & -> & Hk). apply elem_of_seq in Hk. lia.
  - intros H. exists (Z.to_nat id). split; [lia|]. apply elem_of_seq. lia.
Qed.

(** What [del manager[entity]] can do to the manager: drop the identity
    from the live set, or nothing. *)
Lemma CEM_delitem_manager py entity (self : ComponentEntityManager) (h : heap) :
  match CEM_delitem py entity self h with
  | Ok _ s' =>
      get_entity_id entity ∈ _entities self
      /\ s'.1 = set_entities (_entities self ∖ {[get_entity_id entity]}) self
  | Raise _ s' => s' = (self, h)
  end.
Proof.
  unfold CEM_delitem.
  destruct (decide (get_entity_id entity ∈ _entities self)); [|reflexivity].
  destruct (ComponentMap_iter py (components self)); [|reflexivity].
  now split.
Qed.

Lemma alloc_inv_step py st o : alloc_inv st -> alloc_inv (step_op py st o).
Proof.
  destruct st as [[self h] issued]. intros (Hc & Hi & Hl). simpl in *.
  destruct o as [|entity]; simpl.
  - unfold alloc_inv; simpl. rewrite length_app; simpl.
    split; [lia|]. split.
    + rewrite Nat.add_1_r, seq_S, fmap_app. simpl.
      rewrite <- Hi. do 2 f_equal. lia.
    + intros id Hid. apply elem_of_app.
      apply elem_of_union in Hid as [Hid|Hid]; [right|left; auto].
      apply elem_of_singleton in Hid. subst id. left.
  - pose proof (CEM_delitem_manager py entity self h) as Hd.
    destruct (CEM_delitem py entity self h) as [[] s'|e s'].
    + destruct Hd as [_ Hd]. unfold alloc_inv; simpl. rewrite Hd. simpl.
      split; [exact Hc|]. split; [exact Hi|].
      intros id Hid. apply elem_of_difference in Hid as [Hid _]. auto.
    + subst s'. unfold alloc_inv; simpl. auto.
Qed.

Lemma alloc_inv_foldl py ops st :
  alloc_inv st -> alloc_inv (foldl (step_op py) st ops).
Proof.
  revert st. induction ops as [|o ops IH]; intros st Hst; simpl; [exact Hst|].
  apply IH. now apply alloc_inv_step.
Qed.

Lemma CEM_init_fields h num_zero self_ref systems0 components0 :
  _entity_id (CEM_init h num_zero self_ref systems0 components0).1 = 0
  /\ _entities (CEM_init h num_zero self_ref systems0 components0).1 = ∅
  /\ systems (CEM_init h num_zero self_ref systems0 components0).1 = systems0
  /\ time (CEM_init h num_zero self_ref systems0 components0).1 = num_zero
  /\ this (CEM_init h num_zero self_ref systems0 components0).1 = self_ref.
Proof.
  unfold CEM_init.
  destruct (ComponentMap_init h self_ref components0) as [cmap calls].
  simpl. auto.
Qed.

(** C2: whatever sequence of [new_entity] and removal calls a freshly
    constructed manager has served, on either interpreter and whether the
    removals succeeded or not, the identities it has handed out are
    exactly 1, 2, 3, ... in the order of the calls (so strictly increasing
    and pairwise distinct), every live identity is among them, and the next
    [new_entity] returns the successor of the last one: an identity that is
    not live, was never handed out before, and is live afterwards. *)
Theorem new_entity_identities py h num_zero self_ref systems0 components0
    (ops : list op) :
  let st := run_ops py ops
              (CEM_init h num_zero self_ref systems0 components0).1 h in
  let next := new_entity st.1.1 in
  st.2 = Z.of_nat <$> seq 1 (length st.2)
  /\ StronglySorted Z.lt st.2
  /\ NoDup st.2
  /\ (forall id, id ∈ _entities st.1.1 -> id ∈ st.2)
  /\ entity_id next.1 = Z.of_nat (length st.2) + 1
  /\ (forall id, id ∈ st.2 -> id < entity_id next.1)
  /\ (entity_id next.1 ∉ st.2)
  /\ (entity_id next.1 ∉ _entities st.1.1)
  /\ (entity_id next.1 ∈ _entities next.2).
Proof.
  intros st next.
  assert (Hinv : alloc_inv st).
  { apply alloc_inv_foldl. unfold alloc_inv. simpl.
    destruct (CEM_init_fields h num_zero self_ref systems0 components0)
      as (-> & -> & _).
    split; [reflexivity|]. split; [reflexivity|].
    intros id Hid. now apply not_elem_of_empty in Hid. }
  destruct Hinv as (Hc & Hi & Hl).
  assert (Hlt : forall id, id ∈ st.2 -> id < entity_id next.1).
  { intros id Hid. rewrite Hi in Hid. apply issued_range in Hid.
    subst next. simpl. lia. }
  assert (Hfresh : entity_id next.1 ∉ st.2).
  { intros Hin. apply Hlt in Hin. lia. }
  split; [exact Hi|]. split.
  { rewrite Hi. generalize (length st.2) as n. generalize 1%nat as a.
    intros a n; revert a. induction n as [|n IH]; intros a; simpl.
    - constructor.
    - constructor; [apply IH|]. apply Forall_forall. intros x Hx.
      apply list_elem_of_fmap in Hx as (k & -> & Hk).
      apply elem_of_seq in Hk. lia. }
  split.
  { rewrite Hi. apply NoDup_fmap_2; [|apply NoDup_seq].
    intros x y Hxy. lia. }
  split; [exact Hl|]. split; [subst next; simpl; lia|].
  split; [exact Hlt|]. split; [exact Hfresh|]. split.
  - intros Hin. apply Hfresh. now apply Hl.
  - subst next. simpl. apply elem_of_union. left. now apply elem_of_singleton.
Qed.


Lemma store_at_narrow first comp (h : heap) r :
  store_at (narrow first comp h) r
  = if decide (first = r)
    then {| entity_id_set :=
              entity_id_set (store_at h first)
              ∩ entity_id_set (store_at h comp);
            records := records (store_at h first);
            has_set_manager := has_set_manager (store_at h first) |}
    else store_at h r.
Proof. unfold narrow. now rewrite store_at_upd_store. Qed.

(** The narrowing loop of the query: only the first store object changes,
    and only its [entity_id_set], which ends as the intersection. *)
Lemma narrow_loop (comp0 : store_ref) (comps1 : list store_ref) (h : heap) :
  let h' := foldl (fun h comp => narrow comp0 comp h) h comps1 in
  (forall r, r <> comp0 -> store_at h' r = store_at h r)
  /\ records (store_at h' comp0) = records (store_at h comp0)
  /\ has_set_manager (store_at h' comp0) = has_set_manager (store_at h comp0)
  /\ (forall id, id ∈ entity_id_set (store_at h' comp0) <->
        id ∈ entity_id_set (store_at h comp0)
        /\ forall c, c ∈ comps1 -> id ∈ entity_id_set (store_at h c)).
Proof.
  revert h. induction comps1 as [|c comps1 IH]; intros h; cbn [foldl].
  - split; [reflexivity|]. split; [reflexivity|]. split; [reflexivity|].
    intros id. split; [intros H; split; [exact H|]|tauto].
    intros c Hc. now apply not_elem_of_nil in Hc.
  - destruct (IH (narrow comp0 c h)) as (Hother & Hrec & Hhook & Hids).
    split; [|split; [|split]].
    + intros r Hr. rewrite (Hother r Hr), store_at_narrow.
      now rewrite decide_False by congruence.
    + rewrite Hrec, store_at_narrow. now rewrite decide_True.
    + rewrite Hhook, store_at_narrow. now rewrite decide_True.
    + intros id. rewrite Hids. rewrite store_at_narrow, decide_True
        by reflexivity. cbn [entity_id_set].
      rewrite elem_of_intersection. split.
      * intros [[H0 Hc] Hrest]. split; [exact H0|].
        intros c' Hc'. apply elem_of_cons in Hc' as [->|Hc']; [exact Hc|].
        specialize (Hrest c' Hc'). rewrite store_at_narrow in Hrest.
        destruct (decide (comp0 = c')) as [<-|]; [exact H0|exact Hrest].
      * intros [H0 Hall]. split; [split; [exact H0|apply Hall; left]|].
        intros c' Hc'. rewrite store_at_narrow.
        destruct (decide (comp0 = c')) as [<-|].
        -- cbn [entity_id_set]. apply elem_of_intersection.
           split; [exact H0|apply Hall; left].
        -- apply Hall. now right.
Qed.

(** Narrowing changes no store's records. *)
Lemma narrow_loop_records comp0 comps1 (h : heap) r :
  records (store_at (foldl (fun h comp => narrow comp0 comp h) h comps1) r)
  = records (store_at h r).
Proof.
  destruct (narrow_loop comp0 comps1 h) as (Hother & Hrec & _).
  destruct (decide (r = comp0)) as [->|Hne]; [exact Hrec|].
  now rewrite Hother.
Qed.

(** The query on names bound to the store objects [comp0 :: comps1]. *)
Lemma iter_components_bound (names : list string) comp0 comps1
    (self : ComponentEntityManager) (h : heap) :
  Forall2 (fun n r => items (components self) !! n = Some r)
          names (comp0 :: comps1) ->
  iter_components names self h
  = let h' := foldl (fun h comp => narrow comp0 comp h) h comps1 in
    match mapM (row_of h' (comp0 :: comps1))
               (elements (entity_id_set (store_at h' comp0))) with
    | Some rows => Ok rows (self, h')
    | None => Raise KeyError (self, h')
    end.
Proof.
  intros Hb. unfold iter_components.
  now rewrite (mapM_Some_2 _ _ _ Hb).
Qed.



(** Every operation of the manager keeps the stores sound, so the query
    can be repeated. *)
Lemma iter_components_keeps_sound (names : list string)
    (self : ComponentEntityManager) (h : heap) rows s' :
  iter_components names self h = Ok rows s' ->
  (forall r, Component_sound (store_at h r)) ->
  forall r, Component_sound (store_at s'.2 r).
Proof.
  unfold iter_components. intros Hq Hsound r.
  destruct (mapM _ names) as [[|comp0 comps1]|]; [discriminate| |discriminate].
  destruct (mapM _ (elements _)); [|discriminate].
  inversion Hq; subst; clear Hq. cbn [snd].
  destruct (narrow_loop comp0 comps1 h) as (Hother & Hrec & _ & Hnarrow).
  destruct (decide (r = comp0)) as [->|Hne].
  - unfold Component_sound. rewrite Hrec. intros id Hid.
    apply Hnarrow in Hid as [Hid _]. now apply Hsound.
  - rewrite Hother by exact Hne. apply Hsound.
Qed.

Lemma try_delitem_keeps_sound id (c : Component) :
  Component_sound c -> Component_sound (try_delitem id c).
Proof.
  unfold Component_sound, try_delitem, Component_delitem. intros Hs.
  destruct (records c !! id) eqn:E; simpl; [|exact Hs].
  rewrite dom_delete_L. intros j Hj.
  apply elem_of_difference in Hj as [Hj Hne].
  apply elem_of_difference. split; [now apply Hs|exact Hne].
Qed.

Lemma foldl_snoc_log {A B} (f : A -> B) (l : list A) (acc : list B) :
  foldl (fun log a => log ++ [f a]) acc l = acc ++ map f l.
Proof.
  revert acc. induction l as [|a l IH]; intros acc; simpl.
  - now rewrite app_nil_r.
  - rewrite IH. now rewrite <- app_assoc.
Qed.

(** C8: one [run(dt)] leaves the clock at [time + dt] and makes exactly the
    calls [system.run(dt)], one per entry of the system tuple, in tuple
    order, every one with the [dt] it was given; nothing else of the manager
    changes. The tuple is in registration order: the constructor keeps the
    order of its argument and [add_system] appends at the end. *)
Theorem run_steps_systems_in_order (num_add : Num -> Num -> Num) (dt : Num)
    (self : ComponentEntityManager) :
  let r := run num_add dt self in
  time r.1 = num_add (time self) dt
  /\ r.2 = map (fun system => System_run system dt) (systems self)
  /\ systems r.1 = systems self
  /\ _entities r.1 = _entities self
  /\ _entity_id r.1 = _entity_id self
  /\ _component_map r.1 = _component_map self
  /\ (forall system, systems (add_system system self).1
                      = systems self ++ [system])
  /\ (forall h num_zero self_ref systems0 components0,
        systems (CEM_init h num_zero self_ref systems0 components0).1
        = systems0).
Proof.
  unfold run; simpl. split; [reflexivity|]. split.
  { now rewrite foldl_snoc_log. }
  do 4 (split; [reflexivity|]). split; [reflexivity|].
  intros h num_zero self_ref systems0 components0.
  now destruct (CEM_init_fields h num_zero self_ref systems0 components0)
    as (_ & _ & H & _).
Qed.

(** The loop of [ComponentMap.__init__] from an arbitrary starting map. *)
Lemma ComponentMap_init_loop (h : heap) (l : list (string * store_ref))
    (cm : ComponentMap) (calls : list call) :
  let r := foldl (fun acc nc =>
                    let '(self', cs) :=
                      ComponentMap_setitem h nc.1 nc.2 acc.1 in
                    (self', acc.2 ++ cs)) (cm, calls) l in
  _manager r.1 = _manager cm
  /\ items r.1 = foldl (fun m nc => <[nc.1 := nc.2]> m) (items cm) l
  /\ r.2 = calls ++ flat_map (fun nc =>
               if has_set_manager (store_at h nc.2)
               then [Component_set_manager nc.2 (_manager cm)] else []) l.
Proof.
  revert cm calls. induction l as [|[n c] l IH]; intros cm calls; simpl.
  - now rewrite app_nil_r.
  - specialize (IH {| _manager := _manager cm;
                      items := <[n := c]> (items cm) |}
                   (calls ++ (if has_set_manager (store_at h c)
                              then [Component_set_manager c (_manager cm)]
                              else []))).
    simpl in IH. destruct IH as (IH1 & IH2 & IH3).
    split; [exact IH1|]. split; [exact IH2|].
    rewrite IH3. now rewrite <- app_assoc.
Qed.

Lemma foldl_insert_lookup {V} (l : list (string * V)) (m : gmap string V)
    (k : string) :
  NoDup l.*1 ->
  foldl (fun m nc => <[nc.1 := nc.2]> m) m l !! k =
  match list_to_map (M := gmap string V) l !! k with
  | Some v => Some v
  | None => m !! k
  end.
Proof.
  revert m. induction l as [|[n v] l IH]; intros m Hnd.
  - simpl. now rewrite lookup_empty.
  - rewrite fmap_cons in Hnd. apply NoDup_cons in Hnd as [Hn Hnd].
    cbn [foldl]. rewrite IH by exact Hnd. rewrite list_to_map_cons.
    cbn [fst snd] in *.
    destruct (decide (n = k)) as [->|Hne].
    + rewrite (not_elem_of_list_to_map_1 l k Hn).
      now rewrite !lookup_insert_eq.
    + rewrite (lookup_insert_ne (list_to_map l) n k) by exact Hne.
      destruct (list_to_map l !! k); [reflexivity|].
      now rewrite lookup_insert_ne.
Qed.

(** C10: [ComponentMap.__setitem__] never raises: bound or not, the name is
    afterwards bound to the store given (the previous store is dropped
    without notice), other names keep their stores, and the store's
    [set_manager] is called once with the map's manager exactly when the
    store has that attribute. The constructor registers every keyword
    argument this way: the map it builds holds exactly the stores passed,
    its manager is the one passed, and the calls it makes are one
    [set_manager(manager)] per passed store that has the hook; the manager
    constructor passes itself. *)
Theorem ComponentMap_setitem_rebinds (h : heap) (name : string)
    (component : store_ref) (self : ComponentMap) :
  let r := ComponentMap_setitem h name component self in
  items r.1 !! name = Some component
  /\ (forall other, other <> name -> items r.1 !! other = items self !! other)
  /\ _manager r.1 = _manager self
  /\ r.2 = (if has_set_manager (store_at h component)
            then [Component_set_manager component (_manager self)] else [])
  /\ (forall manager components0,
        let r0 := ComponentMap_init h manager components0 in
        items r0.1 = components0
        /\ _manager r0.1 = manager
        /\ r0.2 = flat_map (fun nc =>
                     if has_set_manager (store_at h nc.2)
                     then [Component_set_manager nc.2 manager] else [])
                   (map_to_list components0))
  /\ (forall num_zero self_ref systems0 components0,
        let r1 := CEM_init h num_zero self_ref systems0 components0 in
        _manager (components r1.1) = self_ref
        /\ this r1.1 = self_ref
        /\ items (components r1.1) = components0
        /\ r1.2 = (ComponentMap_init h self_ref components0).2
                  ++ bind_systems self_ref systems0).
Proof.
  assert (Hinit : forall manager components0,
        let r0 := ComponentMap_init h manager components0 in
        items r0.1 = components0
        /\ _manager r0.1 = manager
        /\ r0.2 = flat_map (fun nc =>
                     if has_set_manager (store_at h nc.2)
                     then [Component_set_manager nc.2 manager] else [])
                   (map_to_list components0)).
  { intros manager components0 r0. subst r0. unfold ComponentMap_init.
    destruct (ComponentMap_init_loop h (map_to_list components0)
                {| _manager := manager; items := ∅ |} []) as (H1 & H2 & H3).
    simpl in *. split; [|split; [exact H1|exact H3]].
    rewrite H2. apply map_eq. intros k.
    rewrite foldl_insert_lookup by apply NoDup_fst_map_to_list.
    rewrite list_to_map_to_list, lookup_empty.
    now destruct (components0 !! k). }
  simpl. split; [apply lookup_insert_eq|].
  split; [intros other Hne; now apply lookup_insert_ne|].
  split; [reflexivity|]. split; [reflexivity|]. split; [exact Hinit|].
  intros num_zero self_ref systems0 components0.
  unfold CEM_init, components.
  destruct (Hinit self_ref components0) as (H1 & H2 & _).
  destruct (ComponentMap_init h self_ref components0) as [cmap calls].
  simpl in *. auto.
Qed.

End WithRecords.

(** ** A small world: stores A = {1,2,3} and B = {2,3,4}, three systems *)

Definition store_of (l : list (Z * string)) (hook : bool)
  : Component (Rec := string) :=
  {| entity_id_set := list_to_set l.*1;
     records := list_to_map l;
     has_set_manager := hook |}.

Definition store_A : Component :=
  store_of [(1, "a1"); (2, "a2"); (3, "a3")]%string true.
Definition store_B : Component :=
  store_of [(2, "b2"); (3, "b3"); (4, "b4")]%string false.

(** The two store objects. *)
Definition rA : store_ref := 1%nat.
Definition rB : store_ref := 2%nat.

Definition small_heap : heap (Rec := string) :=
  <[rA := store_A]> (<[rB := store_B]> ∅).

Definition S1 : System := mkSystem 1 true.
Definition S2 : System := mkSystem 2 false.
Definition S3 : System := mkSystem 3 true.

Definition fresh_world : ComponentEntityManager (Num := Z) :=
  (CEM_init small_heap 0 7%nat [S1; S2; S3]
     (<["A"%string := rA]> (<["B"%string := rB]> ∅))).1.

(** The world after four [new_entity()] calls: live ids 1, 2, 3, 4. *)
Definition small_world : ComponentEntityManager (Num := Z) :=
  (run_ops Python2 [NewEntity; NewEntity; NewEntity; NewEntity]
           fresh_world small_heap).1.1.

(** The same world with the store object of A registered a second time,
    under the name C. *)
Definition aliased_world : ComponentEntityManager (Num := Z) :=
  (run_ops Python2 [NewEntity; NewEntity; NewEntity; NewEntity]
     (CEM_init small_heap 0 7%nat [S1; S2; S3]
        (<["A"%string := rA]> (<["B"%string := rB]>
           (<["C"%string := rA]> ∅)))).1 small_heap).1.1.

Definition six_calls : list op :=
  [NewEntity; NewEntity; Remove (ById 1); NewEntity; Remove (ById 5);
   NewEntity].

Example small_world_issued :
  (run_ops Python2 six_calls fresh_world small_heap).2 = [1; 2; 3; 4]
  /\ _entities (run_ops Python2 six_calls fresh_world small_heap).1.1
     = list_to_set [2; 3; 4]
  /\ (run_ops Python3 six_calls fresh_world small_heap).2 = [1; 2; 3; 4]
  /\ _entities (run_ops Python3 six_calls fresh_world small_heap).1.1
     = list_to_set [1; 2; 3; 4].
Proof. repeat split; vm_compute; reflexivity. Qed.

Example small_world_query :
  exists h',
    iter_components ["A"; "B"]%string small_world small_heap
    = Ok [["a3"; "b3"]; ["a2"; "b2"]]%string (small_world, h').
Proof. eexists. vm_compute. reflexivity. Qed.

(** The query narrows the first named store's own set: asked for A alone
    after A and B together, the manager yields A's records for 2 and 3
    only, although A still holds a record for 1. *)
Example query_narrows_first_store :
  exists h1,
    iter_components ["A"; "B"]%string small_world small_heap
    = Ok [["a3"; "b3"]; ["a2"; "b2"]]%string (small_world, h1)
    /\ iter_components ["A"]%string small_world h1
       = Ok [["a3"]; ["a2"]]%string (small_world, h1)
    /\ records (store_at h1 rA) !! 1 = Some "a1"%string
    /\ iter_components ["A"]%string small_world small_heap
       = Ok [["a3"]; ["a2"]; ["a1"]]%string (small_world, small_heap).
Proof.
  eexists. split; [vm_compute; reflexivity|].
  repeat split; vm_compute; reflexivity.
Qed.

(** The narrowing is done on the store object: it shows under every name
    the object is bound to. *)
Example query_narrows_aliased_store :
  exists h1,
    iter_components ["A"; "B"]%string aliased_world small_heap
    = Ok [["a3"; "b3"]; ["a2"; "b2"]]%string (aliased_world, h1)
    /\ iter_components ["C"]%string aliased_world h1
       = Ok [["a3"]; ["a2"]]%string (aliased_world, h1).
Proof.
  eexists. split; vm_compute; reflexivity.
Qed.

Example small_world_run :
  (run Z.add 5 small_world).2 = [System_run S1 5; System_run S2 5; System_run S3 5]
  /\ time (run Z.add 5 small_world).1 = 5.
Proof. split; vm_compute; reflexivity. Qed.

Lemma new_entity_identities_witness :
  let st := run_ops Python2 six_calls fresh_world small_heap in
  NoDup st.2
  /\ 2 ∈ st.2
  /\ entity_id (new_entity st.1.1).1 = 5
  /\ 4 < entity_id (new_entity st.1.1).1.
Proof.
  unfold fresh_world. cbv zeta.
  destruct (new_entity_identities Python2 small_heap 0 7%nat [S1; S2; S3]
              (<["A"%string := rA]> (<["B"%string := rB]> ∅))
              six_calls)
    as (_ & _ & Hnd & Hlive & Hnext & Hlt & _).
  split; [exact Hnd|]. split; [|split].
  - apply Hlive. refine (bool_decide_unpack _ _). vm_compute. exact I.
  - rewrite Hnext. vm_compute. reflexivity.
  - apply Hlt. refine (bool_decide_unpack _ _). vm_compute. exact I.
Defined.

Lemma ComponentMap_setitem_rebinds_witness :
  let r := ComponentMap_setitem (Num := Z) small_heap "A" rB
             (components small_world) in
  items r.1 !! "A"%string = Some rB
  /\ items r.1 !! "B"%string = items (components small_world) !! "B"%string
  /\ r.2 = [].
Proof.
  destruct (ComponentMap_setitem_rebinds (Num := Z) small_heap "A" rB
              (components small_world))
    as (Hnew & Hother & _ & Hcalls & _).
  split; [exact Hnew|]. split; [|exact Hcalls].
  apply Hother. discriminate.
Defined.

Example rebinding_calls_the_hook :
  (ComponentMap_setitem (Num := Z) small_heap "B" rA
     (components small_world)).2
  = [Component_set_manager rA 7%nat]
  /\ (CEM_init (Num := Z) small_heap 0 7%nat [S1; S2; S3]
        (<["A"%string := rA]> (<["B"%string := rB]> ∅))).2
     = [Component_set_manager rA 7%nat;
        System_set_manager S1 7%nat; System_set_manager S3 7%nat].
Proof. split; vm_compute; reflexivity. Qed.

Lemma delitem_cascades_on_python2_only_witness :
  (CEM_delitem Python3 (ById 2) small_world small_heap
   = Raise AttributeError (small_world, small_heap)
   /\ CEM_contains (ById 2) small_world = true)
  /\ CEM_delitem Python2 (ById 9) small_world small_heap
     = Raise KeyError (small_world, small_heap)
  /\ exists self' h',
       CEM_delitem Python2 (ById 2) small_world small_heap = Ok tt (self', h')
       /\ CEM_contains (ById 2) self' = false
       /\ Component_contains 2 (store_at h' rA) = false
       /\ Component_contains 2 (store_at h' rB) = false
       /\ records (store_at h' rA) !! 3 = records (store_at small_heap rA) !! 3.
Proof.
  destruct (delitem_cascades_on_python2_only (ById 2) small_world small_heap)
    as (_ & Hpy3 & Hpy2).
  destruct (delitem_cascades_on_python2_only (ById 9) small_world small_heap)
    as (Hout & _).
  assert (Hlive : 2 ∈ _entities small_world)
    by (refine (bool_decide_unpack _ _); vm_compute; exact I).
  split; [exact (Hpy3 Hlive)|]. split.
  - apply Hout. refine (bool_decide_unpack _ _). vm_compute. exact I.
  - destruct (Hpy2 Hlive)
      as (self' & h' & Hdel & Hgone & _ & Hmap & Hstores & Hkeep & _).
    exists self', h'. split; [exact Hdel|]. split; [exact Hgone|].
    split; [|split].
    + apply (Hstores "A"%string). rewrite Hmap. vm_compute. reflexivity.
    + apply (Hstores "B"%string). rewrite Hmap. vm_compute. reflexivity.
    + apply Hkeep. discriminate.
Defined.


(** ** Further facts about the manager *)

Section MoreManager.

Context {Rec Num : Type}.

Implicit Types self : ComponentEntityManager (Num := Num).
Implicit Types h : heap (Rec := Rec).

Lemma set_systems_same self : set_systems (systems self) self = self.
Proof. now destruct self as [? [? ?] ? ? ? ?]. Qed.

(** X1: [manager[id]] and the live set: the entity [new_entity()] returns is
    the one [manager[id]] gives back for its id, a lookup never changes the
    manager, and an id that is not live raises KeyError. Deleting a live
    entity depends on the interpreter. On Python 2 the deletion returns,
    and afterwards both [manager[id]] and a second deletion raise KeyError.
    On Python 3 the deletion raises AttributeError and changes nothing, so
    the entity is still there. *)
Theorem getitem_tracks_liveness self h (id : Z) :
  (let r := new_entity self in
   CEM_getitem (entity_id r.1) r.2 = Ok r.1 r.2
   /\ CEM_contains (ByEntity r.1) r.2 = true)
  /\ (id ∉ _entities self -> CEM_getitem id self = Raise KeyError self)
  /\ (id ∈ _entities self ->
      CEM_getitem id self = Ok (mkEntity (this self) id) self
      /\ (exists self' h',
            CEM_delitem Python2 (ById id) self h = Ok tt (self', h')
            /\ CEM_getitem id self' = Raise KeyError self'
            /\ CEM_delitem Python2 (ById id) self' h'
               = Raise KeyError (self', h'))
      /\ CEM_delitem Python3 (ById id) self h
         = Raise AttributeError (self, h)).
Proof.
  split; [|split].
  - simpl. unfold CEM_getitem, CEM_contains. simpl.
    assert (H : _entity_id self + 1 ∈ {[_entity_id self + 1]} ∪ _entities self)
      by (apply elem_of_union; left; now apply elem_of_singleton).
    rewrite decide_True by exact H. split; [reflexivity|].
    now apply bool_decide_eq_true.
  - intros Hn. unfold CEM_getitem. now rewrite decide_False.
  - intros Hin. unfold CEM_getitem at 1. rewrite decide_True by exact Hin.
    split; [reflexivity|]. split.
    + unfold CEM_delitem at 1. cbn [get_entity_id ComponentMap_iter].
      rewrite decide_True by exact Hin. do 2 eexists.
      split; [reflexivity|].
      assert (Hn : id ∉ _entities self ∖ {[id]}).
      { rewrite elem_of_difference, elem_of_singleton. tauto. }
      unfold CEM_getitem, CEM_delitem. cbn [get_entity_id _entities set_entities].
      now rewrite !decide_False by exact Hn.
    + unfold CEM_delitem. cbn [get_entity_id ComponentMap_iter].
      now rewrite decide_True by exact Hin.
Qed.

(** On Python 3 no deletion ever succeeds, so every identity handed out
    stays live. *)
Lemma python3_keeps_all (ops : list op)
    (st : ComponentEntityManager (Num := Num) * heap (Rec := Rec) * list Z) :
  (forall id, id ∈ st.2 -> id ∈ _entities st.1.1) ->
  forall id, id ∈ (foldl (step_op Python3) st ops).2 ->
             id ∈ _entities (foldl (step_op Python3) st ops).1.1.
Proof.
  revert st. induction ops as [|o ops IH]; intros st Hst; [exact Hst|].
  cbn [foldl]. apply IH. destruct st as [[self h] issued].
  destruct o as [|entity]; cbn [step_op fst snd] in *.
  - intros id Hid. simpl. apply elem_of_app in Hid as [Hid|Hid].
    + apply elem_of_union. right. now apply Hst.
    + apply list_elem_of_singleton in Hid. subst id.
      apply elem_of_union. left. now apply elem_of_singleton.
  - unfold CEM_delitem. cbn [ComponentMap_iter].
    destruct (decide (get_entity_id entity ∈ _entities self)); exact Hst.
Qed.

(** X2: [len(manager)] over the life of a manager: after any sequence of
    [new_entity] and deletion calls, on either interpreter, it is at most
    the number of identities handed out and the next [new_entity] raises it
    by exactly one; a deletion that succeeds lowers it by exactly one and
    one that raises leaves the manager and the stores as they were. On
    Python 3, where every deletion raises, it is exactly the number of
    identities handed out. *)
Theorem len_counts_live_entities py h (num_zero : Num) self_ref systems0
    components0 (ops : list op) :
  let st := run_ops py ops
              (CEM_init h num_zero self_ref systems0 components0).1 h in
  (CEM_len st.1.1 <= length st.2)%nat
  /\ CEM_len (new_entity st.1.1).2 = S (CEM_len st.1.1)
  /\ (forall entity s',
        CEM_delitem py entity st.1.1 st.1.2 = Ok tt s' ->
        S (CEM_len s'.1) = CEM_len st.1.1)
  /\ (forall entity e s',
        CEM_delitem py entity st.1.1 st.1.2 = Raise e s' -> s' = st.1)
  /\ (py = Python3 ->
      CEM_len st.1.1 = length st.2
      /\ forall entity, exists e,
           CEM_delitem py entity st.1.1 st.1.2 = Raise e st.1).
Proof.
  intros st.
  assert (Hinit : _entities (CEM_init h num_zero self_ref systems0
                               components0).1 = ∅)
    by (now destruct (CEM_init_fields h num_zero self_ref systems0
                        components0) as (_ & -> & _)).
  assert (Hinv : alloc_inv st).
  { apply alloc_inv_foldl. unfold alloc_inv. simpl.
    destruct (CEM_init_fields h num_zero self_ref systems0 components0)
      as (-> & -> & _).
    split; [reflexivity|]. split; [reflexivity|].
    intros id Hid. now apply not_elem_of_empty in Hid. }
  destruct Hinv as (Hc & Hi & Hl). unfold CEM_len.
  assert (Hnd : NoDup st.2).
  { rewrite Hi. apply NoDup_fmap_2; [|apply NoDup_seq].
    intros x y Hxy. lia. }
  split; [|split; [|split; [|split]]].
  - assert (Hsub : _entities st.1.1 ⊆ list_to_set st.2).
    { intros id Hid. apply elem_of_list_to_set. now apply Hl. }
    apply subseteq_size in Hsub. etransitivity; [exact Hsub|].
    now rewrite size_list_to_set.
  - simpl. rewrite size_union.
    + now rewrite size_singleton.
    + intros id Hid1 Hid2. apply elem_of_singleton in Hid1. subst id.
      apply Hl in Hid2. rewrite Hi in Hid2. apply issued_range in Hid2. lia.
  - intros entity s' Hdel.
    pose proof (CEM_delitem_manager py entity st.1.1 st.1.2) as Hd.
    rewrite Hdel in Hd. destruct Hd as [Hin ->]. simpl.
    rewrite size_difference by (now apply singleton_subseteq_l).
    rewrite size_singleton.
    assert (size (_entities st.1.1) <> 0%nat).
    { intros E. apply size_empty_inv in E. apply E in Hin.
      now apply not_elem_of_empty in Hin. }
    lia.
  - intros entity e s' Hdel.
    pose proof (CEM_delitem_manager py entity st.1.1 st.1.2) as Hd.
    rewrite Hdel in Hd. rewrite Hd. now destruct st.1.
  - intros ->. split.
    + assert (Hall : forall id, id ∈ st.2 -> id ∈ _entities st.1.1).
      { apply python3_keeps_all. simpl. intros id Hid.
        now apply not_elem_of_nil in Hid. }
      assert (E : _entities st.1.1 = list_to_set st.2).
      { apply set_eq. intros id. rewrite elem_of_list_to_set.
        split; [apply Hl|apply Hall]. }
      rewrite E. now apply size_list_to_set.
    + intros entity. unfold CEM_delitem. cbn [ComponentMap_iter].
      destruct (decide (get_entity_id entity ∈ _entities st.1.1));
        eexists; destruct st.1; reflexivity.
Qed.

(** X3: [remove_system] undoes [add_system]: removing a system that was just
    added to a manager not holding it gives back the manager as it was;
    removing a system the manager does not hold raises ValueError and
    changes nothing; and a removal that succeeds drops the first occurrence
    only, the other systems keeping their order. *)
Theorem remove_system_undoes_add_system (system : System) self :
  (system ∉ systems self ->
   remove_system system (add_system system self).1 = Ok tt self
   /\ remove_system system self = Raise ValueError self)
  /\ (forall self',
        remove_system system self = Ok tt self' ->
        exists before after,
          systems self = before ++ system :: after
          /\ (system ∉ before)
          /\ systems self' = before ++ after
          /\ set_systems (systems self) self' = self).
Proof.
  split.
  - intros Hn. unfold remove_system, add_system. simpl.
    rewrite list_remove_first_snoc by exact Hn.
    apply list_remove_first_None in Hn. rewrite Hn.
    split; [|reflexivity]. f_equal. now destruct self as [? [? ?] ? ? ? ?].
  - intros self'. unfold remove_system.
    destruct (list_remove_first system (systems self)) as [ss|] eqn:E;
      [|discriminate].
    intros [= <-]. apply list_remove_first_Some in E
      as (before & after & H1 & H2 & ->).
    exists before, after. split; [exact H1|]. split; [exact H2|].
    split; [reflexivity|]. now destruct self as [? [? ?] ? ? ? ?].
Qed.

(** One tick, keeping the log of the calls made so far. *)
Definition tick (num_add : Num -> Num -> Num)
    (acc : ComponentEntityManager (Num := Num) * list call)
    (dt : Num) : ComponentEntityManager * list call :=
  ((run num_add dt acc.1).1, acc.2 ++ (run num_add dt acc.1).2).

(** Several ticks in a row. *)
Definition run_all (num_add : Num -> Num -> Num) (dts : list Num) self
  : ComponentEntityManager * list call :=
  foldl (tick num_add) (self, []) dts.

Lemma run_all_from (num_add : Num -> Num -> Num) (dts : list Num)
    (acc : ComponentEntityManager (Num := Num) * list call) :
  time (foldl (tick num_add) acc dts).1 = foldl num_add (time acc.1) dts
  /\ (foldl (tick num_add) acc dts).2
     = acc.2 ++ flat_map (fun dt => map (fun system => System_run system dt)
                                       (systems acc.1)) dts
  /\ systems (foldl (tick num_add) acc dts).1 = systems acc.1
  /\ _entities (foldl (tick num_add) acc dts).1 = _entities acc.1
  /\ _entity_id (foldl (tick num_add) acc dts).1 = _entity_id acc.1
  /\ _component_map (foldl (tick num_add) acc dts).1 = _component_map acc.1.
Proof.
  revert acc. induction dts as [|dt dts IH]; intros acc.
  - simpl. now rewrite app_nil_r.
  - cbn [foldl flat_map].
    destruct (IH (tick num_add acc dt)) as (H1 & H2 & H3 & H4 & H5 & H6).
    split; [exact H1|]. split.
    + rewrite H2. unfold tick, run. cbn [fst snd systems].
      rewrite foldl_snoc_log. cbn [app]. now rewrite <- app_assoc.
    + auto.
Qed.

(** X4: a run of ticks [dt1, ..., dtn]: the clock ends at
    [((time + dt1) + ...) + dtn], the calls are those of the first tick for
    every system in order, then those of the second tick, and so on, and
    neither the systems nor the entities nor the stores change. *)
Theorem run_all_accumulates (num_add : Num -> Num -> Num) (dts : list Num)
    self :
  let r := run_all num_add dts self in
  time r.1 = foldl num_add (time self) dts
  /\ r.2 = flat_map (fun dt => map (fun system => System_run system dt)
                                   (systems self)) dts
  /\ length r.2 = (length dts * length (systems self))%nat
  /\ systems r.1 = systems self
  /\ _entities r.1 = _entities self
  /\ _entity_id r.1 = _entity_id self
  /\ _component_map r.1 = _component_map self.
Proof.
  intros r. destruct (run_all_from num_add dts (self, [])) as (H1 & H2 & H3).
  fold (run_all num_add dts self) in H1, H2, H3. fold r in H1, H2, H3.
  split; [exact H1|]. split; [exact H2|]. split; [|exact H3].
  rewrite H2. simpl. clear. induction dts as [|dt dts IH]; [reflexivity|].
  simpl. rewrite length_app, length_map, IH. reflexivity.
Qed.


Lemma row_of_length h (comps : list store_ref) id row :
  row_of h comps id = Some row -> length row = length comps.
Proof. intros H. symmetry. exact (length_mapM _ _ _ H). Qed.

(** X5: how the query fails and what it yields when it does not: without names
    it raises IndexError, with a name bound to no store it raises KeyError,
    in both cases leaving the manager and the stores as they were; and when
    it returns, every name was bound and every row holds one record per
    name. *)
Theorem iter_components_failures_and_shape (names : list string) self h :
  (names = [] -> iter_components names self h = Raise IndexError (self, h))
  /\ (forall name, name ∈ names -> items (components self) !! name = None ->
      iter_components names self h = Raise KeyError (self, h))
  /\ (forall rows s',
        iter_components names self h = Ok rows s' ->
        names <> []
        /\ (forall name, name ∈ names ->
              is_Some (items (components self) !! name))
        /\ Forall (fun row => length row = length names) rows).
Proof.
  split; [|split].
  - intros ->. reflexivity.
  - intros name Hin Hnone. unfold iter_components.
    rewrite (mapM_None_2 (fun n => items (components self) !! n) names);
      [reflexivity|].
    apply Exists_exists. eauto.
  - intros rows s'. unfold iter_components.
    destruct (mapM _ names) as [comps|] eqn:Hm; [|discriminate].
    apply mapM_Some_1 in Hm as HF.
    destruct HF as [|name0 comp0 names1 comps1 H0 Hrest]; [discriminate|].
    destruct (mapM (row_of _ (comp0 :: comps1)) _) as [rows'|] eqn:Hr;
      [|discriminate].
    intros [= <- <-]. split; [discriminate|]. split.
    + intros name Hin. apply elem_of_cons in Hin as [->|Hin]; [eauto|].
      apply list_elem_of_lookup in Hin as [i Hi].
      destruct (Forall2_lookup_l _ _ _ _ _ Hrest Hi) as (c & _ & Hc). eauto.
    + apply mapM_Some_1 in Hr. apply Forall2_Forall_r with (1 := Hr).
      apply Forall_forall. intros id _ row Hrow.
      apply row_of_length in Hrow. rewrite Hrow. simpl. f_equal.
      symmetry. exact (Forall2_length _ _ _ Hrest).
Qed.

(** A store whose set already lies within the other's is left as it is,
    object and all. *)
Lemma narrow_fixed (comp0 comp : store_ref) h (c : Component) :
  h !! comp0 = Some c ->
  entity_id_set c ⊆ entity_id_set (store_at h comp) ->
  narrow comp0 comp h = h.
Proof.
  intros Hc Hsub. unfold narrow, upd_store.
  assert (E : store_at h comp0 = c)
    by (unfold store_at, heap in *; rewrite lookup_total_alt; now rewrite Hc).
  rewrite E. unfold heap in *. apply insert_id. rewrite Hc. f_equal.
  destruct c as [ids recs hook]. cbn [entity_id_set records has_set_manager] in *.
  f_equal. apply set_eq. intros x. rewrite elem_of_intersection.
  split; [|intros [Hx _]; exact Hx]. intros Hx. split; [exact Hx|now apply Hsub].
Qed.

Lemma narrow_bound (comp0 comp : store_ref) h :
  is_Some (narrow comp0 comp h !! comp0).
Proof. unfold narrow, upd_store, heap in *. rewrite lookup_insert_eq. eauto. Qed.

Lemma narrow_loop_bound (comp0 : store_ref) (comps1 : list store_ref) h :
  is_Some (h !! comp0) ->
  is_Some (foldl (fun h comp => narrow comp0 comp h) h comps1 !! comp0).
Proof.
  revert h. induction comps1 as [|c comps1 IH]; intros h Hh; cbn [foldl];
    [exact Hh|].
  apply IH, narrow_bound.
Qed.

(** Narrowing a second time against the same stores changes nothing. *)
Lemma narrow_loop_twice (comp0 : store_ref) (comps1 : list store_ref) h :
  let h' := foldl (fun h comp => narrow comp0 comp h) h comps1 in
  foldl (fun h comp => narrow comp0 comp h) h' comps1 = h'.
Proof.
  intros h'.
  destruct comps1 as [|c1 comps1]; [reflexivity|].
  assert (Hb : is_Some (h' !! comp0))
    by (unfold h'; cbn [foldl]; apply narrow_loop_bound, narrow_bound).
  destruct (narrow_loop comp0 (c1 :: comps1) h) as (Hother & _ & _ & Hids).
  fold h' in Hother, Hids.
  assert (G : forall l, (forall c, c ∈ l -> c ∈ c1 :: comps1) ->
            foldl (fun h comp => narrow comp0 comp h) h' l = h').
  { induction l as [|c l IH]; intros Hl; cbn [foldl]; [reflexivity|].
    destruct Hb as [s0 Hs0].
    rewrite (narrow_fixed comp0 c h' s0 Hs0).
    - apply IH. intros c' Hc'. apply Hl. now right.
    - assert (E : store_at h' comp0 = s0)
        by (unfold store_at, heap in *; rewrite lookup_total_alt; now rewrite Hs0).
      rewrite <- E. intros x Hx.
      destruct (decide (c = comp0)) as [->|Hne]; [exact Hx|].
      rewrite Hother by exact Hne. apply Hids in Hx as [_ Hx].
      apply Hx, Hl. left. }
  apply G. auto.
Qed.

(** X6: the narrowing happens once. After a query has returned, asking again
    for the same names returns the same rows and changes nothing further.
    The manager itself is as the first query found it; of the store
    objects, the one bound under the first name holds a subset of its
    former [entity_id_set] (under every name it is bound to), every store
    keeps its records, and every other store object is untouched. *)
Theorem iter_components_repeatable (names : list string) self h
    (rows : list (list Rec))
    (s' : ComponentEntityManager (Num := Num) * heap (Rec := Rec)) :
  iter_components names self h = Ok rows s' ->
  iter_components names s'.1 s'.2 = Ok rows s'
  /\ s'.1 = self
  /\ exists name0 names1 comp0,
       names = name0 :: names1
       /\ items (components self) !! name0 = Some comp0
       /\ (forall r, records (store_at s'.2 r) = records (store_at h r))
       /\ entity_id_set (store_at s'.2 comp0)
          ⊆ entity_id_set (store_at h comp0)
       /\ (forall r, r <> comp0 -> store_at s'.2 r = store_at h r).
Proof.
  intros Hq. unfold iter_components in Hq.
  destruct (mapM _ names) as [comps|] eqn:Hm; [|discriminate].
  apply mapM_Some_1 in Hm.
  destruct Hm as [|name0 comp0 names1 comps1 H0 Hrest]; [discriminate|].
  assert (Hb : Forall2 (fun n r => items (components self) !! n = Some r)
                       (name0 :: names1) (comp0 :: comps1))
    by (constructor; assumption).
  set (h' := foldl (fun h comp => narrow comp0 comp h) h comps1) in *.
  destruct (mapM (row_of h' (comp0 :: comps1)) _) as [rows'|] eqn:Hr;
    [|discriminate].
  inversion Hq; subst; clear Hq. cbn [fst snd].
  destruct (narrow_loop comp0 comps1 h) as (Hother & _ & _ & Hids).
  fold h' in Hother, Hids.
  split; [|split; [reflexivity|]].
  - rewrite (iter_components_bound _ _ _ _ _ Hb). cbv zeta.
    pose proof (narrow_loop_twice comp0 comps1 h) as Htw. cbv zeta in Htw.
    fold h' in Htw. rewrite Htw. now rewrite Hr.
  - exists name0, names1, comp0. split; [reflexivity|]. split; [exact H0|].
    split; [intros r; apply narrow_loop_records|].
    split; [|exact Hother].
    intros x Hx. now apply Hids in Hx as [Hx _].
Qed.

End MoreManager.

Definition S4 : System := mkSystem 4 false.

Lemma getitem_tracks_liveness_witness :
  CEM_getitem 9 small_world = Raise KeyError small_world
  /\ CEM_getitem 2 small_world = Ok (mkEntity (this small_world) 2) small_world
  /\ (exists self' h',
        CEM_delitem Python2 (ById 2) small_world small_heap = Ok tt (self', h')
        /\ CEM_getitem 2 self' = Raise KeyError self'
        /\ CEM_delitem Python2 (ById 2) self' h' = Raise KeyError (self', h'))
  /\ CEM_delitem Python3 (ById 2) small_world small_heap
     = Raise AttributeError (small_world, small_heap).
Proof.
  destruct (getitem_tracks_liveness small_world small_heap 9)
    as (_ & Hout & _).
  destruct (getitem_tracks_liveness small_world small_heap 2)
    as (_ & _ & Hin).
  split.
  - apply Hout. refine (bool_decide_unpack _ _). vm_compute. exact I.
  - apply Hin. refine (bool_decide_unpack _ _). vm_compute. exact I.
Defined.

Lemma len_counts_live_entities_witness :
  (let st := run_ops Python2 six_calls fresh_world small_heap in
   (CEM_len st.1.1 <= length st.2)%nat
   /\ CEM_len (new_entity st.1.1).2 = S (CEM_len st.1.1)
   /\ exists s',
        CEM_delitem Python2 (ById 2) st.1.1 st.1.2 = Ok tt s'
        /\ S (CEM_len s'.1) = CEM_len st.1.1)
  /\ (let st := run_ops Python3 six_calls fresh_world small_heap in
      CEM_len st.1.1 = length st.2
      /\ exists e, CEM_delitem Python3 (ById 2) st.1.1 st.1.2 = Raise e st.1).
Proof.
  unfold fresh_world. cbv zeta.
  destruct (len_counts_live_entities Python2 small_heap 0 7%nat [S1; S2; S3]
              (<["A"%string := rA]> (<["B"%string := rB]> ∅))
              six_calls)
    as (Hle & Hnew & Hdel & _).
  destruct (len_counts_live_entities Python3 small_heap 0 7%nat [S1; S2; S3]
              (<["A"%string := rA]> (<["B"%string := rB]> ∅))
              six_calls)
    as (_ & _ & _ & _ & Hpy3).
  split.
  - split; [exact Hle|]. split; [exact Hnew|].
    eexists. split; [vm_compute; reflexivity|].
    apply (Hdel (ById 2)). vm_compute. reflexivity.
  - destruct (Hpy3 eq_refl) as [Hlen Hraise]. split; [exact Hlen|].
    exact (Hraise (ById 2)).
Defined.

Lemma remove_system_undoes_add_system_witness :
  (remove_system S4 (add_system S4 small_world).1 = Ok tt small_world
   /\ remove_system S4 small_world = Raise ValueError small_world)
  /\ exists before after,
       systems small_world = before ++ S2 :: after
       /\ (S2 ∉ before)
       /\ systems (set_systems [S1; S3] small_world) = before ++ after
       /\ set_systems (systems small_world) (set_systems [S1; S3] small_world)
          = small_world.
Proof.
  split.
  - apply (proj1 (remove_system_undoes_add_system S4 small_world)).
    refine (bool_decide_unpack _ _). vm_compute. exact I.
  - apply (proj2 (remove_system_undoes_add_system S2 small_world)).
    vm_compute. reflexivity.
Defined.

Lemma iter_components_failures_and_shape_witness :
  iter_components [] small_world small_heap
  = Raise IndexError (small_world, small_heap)
  /\ iter_components ["A"; "C"]%string small_world small_heap
     = Raise KeyError (small_world, small_heap)
  /\ (forall rows s',
        iter_components ["A"; "B"]%string small_world small_heap = Ok rows s' ->
        Forall (fun row => length row = 2%nat) rows).
Proof.
  split; [|split].
  - apply (proj1 (iter_components_failures_and_shape [] small_world
                    small_heap)).
    reflexivity.
  - apply (proj1 (proj2 (iter_components_failures_and_shape
                           ["A"; "C"]%string small_world small_heap))
             "C"%string).
    + refine (bool_decide_unpack _ _). vm_compute. exact I.
    + vm_compute. reflexivity.
  - intros rows s' Hq.
    exact (proj2 (proj2 (proj2 (proj2 (iter_components_failures_and_shape
                    ["A"; "B"]%string small_world small_heap)) rows s' Hq))).
Defined.

Lemma iter_components_repeatable_witness :
  exists s',
    iter_components ["A"; "C"]%string aliased_world small_heap
    = Ok [["a3"; "a3"]; ["a2"; "a2"]; ["a1"; "a1"]]%string s'
    /\ iter_components ["A"; "C"]%string s'.1 s'.2
       = Ok [["a3"; "a3"]; ["a2"; "a2"]; ["a1"; "a1"]]%string s'
    /\ exists s'',
         iter_components ["B"; "C"]%string aliased_world small_heap
         = Ok [["b3"; "a3"]; ["b2"; "a2"]]%string s''
         /\ iter_components ["B"; "C"]%string s''.1 s''.2
            = Ok [["b3"; "a3"]; ["b2"; "a2"]]%string s''
         /\ store_at s''.2 rA = store_at small_heap rA.
Proof.
  eexists. split; [vm_compute; reflexivity|]. split.
  - apply (iter_components_repeatable ["A"; "C"]%string aliased_world
             small_heap).
    vm_compute. reflexivity.
  - eexists. split; [vm_compute; reflexivity|].
    destruct (iter_components_repeatable ["B"; "C"]%string aliased_world
                small_heap _ _ eq_refl)
      as (Hagain & _ & n0 & n1 & c0 & Hn & Hc0 & _ & _ & Hother).
    split; [exact Hagain|].
    injection Hn as <- <-. vm_compute in Hc0. injection Hc0 as <-.
    apply Hother. discriminate.
Defined.

End Manager.

(** * The per-frame pump of the FIFE world ([grease/grease_fife/world.py]) *)

Module FifeWorld.

Section WithNum.

Context {Num : Type}.

(** Modelled from the spec: [BaseWorld], from which [World] inherits
    [components] and [systems], is not among the sources. [pump] only
    iterates the two collections and looks at [hasattr(x, "step")], so a
    member is its identity and that flag. *)
Record part : Type := mkPart {
  part_id : nat;
  has_step : bool
}.

Inductive call : Type :=
| Component_step (component : part) (dt : Num)
| System_step (system : part) (dt : Num).

(** [World.pump(self, dt)]: components first, then systems; no clock. *)
Definition pump (dt : Num) (components systems : list part) : list call :=
  let log1 :=
    foldl (fun log component =>
             if has_step component then log ++ [Component_step component dt]
             else log) [] components in
  foldl (fun log system =>
           if has_step system then log ++ [System_step system dt] else log)
        log1 systems.

Lemma foldl_step_log {A} (f : part -> A) (l : list part) (acc : list A) :
  foldl (fun log x => if has_step x then log ++ [f x] else log) acc l
  = acc ++ map f (filter (fun x => has_step x = true) l).
Proof.
  revert acc. induction l as [|x l IH]; intros acc; simpl.
  - now rewrite app_nil_r.
  - rewrite IH. rewrite filter_cons. destruct (has_step x) eqn:E.
    + rewrite decide_True by reflexivity. simpl. now rewrite <- app_assoc.
    + rewrite decide_False by discriminate. reflexivity.
Qed.

(** [pump] steps every component that has a [step], in order, and then every
    system that has one, in order, each once and with the same [dt]. *)
Lemma pump_calls (dt : Num) (components systems : list part) :
  pump dt components systems
  = map (fun c => Component_step c dt)
        (filter (fun x => has_step x = true) components)
    ++ map (fun s => System_step s dt)
           (filter (fun x => has_step x = true) systems).
Proof.
  unfold pump. rewrite foldl_step_log. now rewrite foldl_step_log.
Qed.

End WithNum.
End FifeWorld.

(** * Modes, the mode stack and composite modes ([grease/mode.py]) *)

Module Mode.

(** Object identities: Python compares modes with [is], and a mode can sit
    on a manager's stack and in a composite's submode list at once. *)
Definition mode_ref := nat.
Definition manager_ref := nat.

(** The class whose [activate] and [deactivate] an object dispatches to. *)
Inductive cls : Set :=
| BaseMode
| BaseMulti.

(** The attributes of a mode object. [step_rate] is [None] when the object
    has no such attribute (reading it is an AttributeError), [Some None]
    when it holds Python's [None]. [submodes] and [active_submode] are those
    of [BaseMulti]; a [BaseMode] never reads them. *)
Record mode_obj : Set := mkMode {
  class : cls;
  active : bool;
  manager : option manager_ref;
  step_rate : option (option Z);
  submodes : list mode_ref;
  active_submode : option mode_ref
}.

(** [BaseMode.__init__] (with the class attribute [manager = None]); a
    concrete mode class may define [step_rate]. *)
Definition BaseMode_init (rate : option (option Z)) : mode_obj :=
  {| class := BaseMode; active := false; manager := None;
     step_rate := rate; submodes := []; active_submode := None |}.

(** [BaseMulti.__init__(self, *submodes)] (with the class attributes
    [manager = None] and [active_submode = None]). *)
Definition BaseMulti_init (subs : list mode_ref) : mode_obj :=
  {| class := BaseMulti; active := false; manager := None;
     step_rate := None; submodes := subs; active_submode := None |}.

#[global] Instance mode_obj_inhabited : Inhabited mode_obj :=
  populate (BaseMode_init None).

(** Calls of the overridable hooks, whose default bodies are empty. *)
Inductive event : Set :=
| OnActivate (mode : mode_ref)
| OnDeactivate (mode : mode_ref)
| OnLastModePop (mgr : manager_ref) (mode : mode_ref).

#[global] Instance event_eq_dec : EqDecision event.
Proof. solve_decision. Defined.

(** The heap of mode objects, the [modes] list of every manager (the last
    element is the top of the stack; a manager starts with [modes = []] as
    [FifeManager.__init__] sets it), and the log of hook calls. *)
Record state : Type := mkState {
  objs : gmap mode_ref mode_obj;
  stacks : gmap manager_ref (list mode_ref);
  log : list event
}.

Definition deref (s : state) (r : mode_ref) : mode_obj := objs s !!! r.
Definition modes_of (s : state) (m : manager_ref) : list mode_ref :=
  stacks s !!! m.

Definition upd_obj (r : mode_ref) (f : mode_obj -> mode_obj) (s : state)
  : state :=
  {| objs := <[r := f (deref s r)]> (objs s);
     stacks := stacks s;
     log := log s |}.

Definition upd_modes (m : manager_ref) (l : list mode_ref) (s : state)
  : state :=
  {| objs := objs s; stacks := <[m := l]> (stacks s); log := log s |}.

Definition upd_log (e : event) (s : state) : state :=
  {| objs := objs s; stacks := stacks s; log := log s ++ [e] |}.

Definition with_active (b : bool) (o : mode_obj) : mode_obj :=
  {| class := class o; active := b; manager := manager o;
     step_rate := step_rate o; submodes := submodes o;
     active_submode := active_submode o |}.

Definition with_manager (m : option manager_ref) (o : mode_obj) : mode_obj :=
  {| class := class o; active := active o; manager := m;
     step_rate := step_rate o; submodes := submodes o;
     active_submode := active_submode o |}.

Definition with_step_rate (r : option (option Z)) (o : mode_obj) : mode_obj :=
  {| class := class o; active := active o; manager := manager o;
     step_rate := r; submodes := submodes o;
     active_submode := active_submode o |}.

Definition with_submodes (l : list mode_ref) (o : mode_obj) : mode_obj :=
  {| class := class o; active := active o; manager := manager o;
     step_rate := step_rate o; submodes := l;
     active_submode := active_submode o |}.

Definition with_active_submode (a : option mode_ref) (o : mode_obj)
  : mode_obj :=
  {| class := class o; active := active o; manager := manager o;
     step_rate := step_rate o; submodes := submodes o;
     active_submode := a |}.

(** ** The monad of method bodies *)

(** A call returns a value, raises an exception (both with the state
    reached), or exhausts the bound on the depth of dynamic dispatch. *)
Inductive result (A : Type) : Type :=
| Ok (a : A) (s : state)
| Raise (e : exn) (s : state)
| OutOfFuel.
Arguments Ok {A} a s.
Arguments Raise {A} e s.
Arguments OutOfFuel {A}.

Definition M (A : Type) : Type := state -> result A.

Definition ret {A} (a : A) : M A := fun s => Ok a s.

Definition bind {A B} (c : M A) (k : A -> M B) : M B :=
  fun s =>
    match c s with
    | Ok a s' => k a s'
    | Raise e s' => Raise e s'
    | OutOfFuel => OutOfFuel
    end.

Notation "'let!' x ':=' c 'in' k" := (bind c (fun x => k))
  (at level 10, x name, c at level 100, k at level 200).
Notation "'do!' c 'in' k" := (bind c (fun _ => k))
  (at level 10, c at level 100, k at level 200).

Definition raise {A} (e : exn) : M A := fun s => Raise e s.
Definition out_of_fuel {A} : M A := fun _ => OutOfFuel.
Definition get_obj (r : mode_ref) : M mode_obj := fun s => Ok (deref s r) s.
Definition modify_obj (r : mode_ref) (f : mode_obj -> mode_obj) : M unit :=
  fun s => Ok tt (upd_obj r f s).
Definition get_modes (m : manager_ref) : M (list mode_ref) :=
  fun s => Ok (modes_of s m) s.
Definition set_modes (m : manager_ref) (l : list mode_ref) : M unit :=
  fun s => Ok tt (upd_modes m l s).
Definition emit (e : event) : M unit := fun s => Ok tt (upd_log e s).

(** [l[0]]: IndexError on an empty list. *)
Definition first_of {A} (l : list A) : M A :=
  match l with
  | x :: _ => ret x
  | [] => raise IndexError
  end.

Section WithDebug.

(** Python's [__debug__]: [assert] statements are executed when it is true
    (the default) and compiled away under [-O]. *)
Variable debug : bool.

Definition assert_ (b : bool) : M unit :=
  if debug then (if b then ret tt else raise AssertionError) else ret tt.

(** ** class BaseMode *)

Definition on_activate (self : mode_ref) : M unit := emit (OnActivate self).
Definition on_deactivate (self : mode_ref) : M unit :=
  emit (OnDeactivate self).

Definition BaseMode_activate (self : mode_ref) (mode_manager : manager_ref)
  : M unit :=
  let! o := get_obj self in
  if negb (active o) then
    do! on_activate self in
    do! modify_obj self (with_manager (Some mode_manager)) in
    modify_obj self (with_active true)
  else ret tt.

Definition BaseMode_deactivate (self : mode_ref) (mode_manager : manager_ref)
  : M unit :=
  do! on_deactivate self in
  modify_obj self (with_active false).

(** ** class BaseMulti: the methods [activate] and [deactivate] reach *)

Definition _set_active_submode (self : mode_ref) (submode : option mode_ref)
  : M unit :=
  do! modify_obj self (with_active_submode submode) in
  match submode with
  | None => raise AttributeError
  | Some sub =>
      let! so := get_obj sub in
      match step_rate so with
      | None => raise AttributeError
      | Some rate => modify_obj self (with_step_rate (Some rate))
      end
  end.

Definition clear_subnode (self : mode_ref) : M unit :=
  do! modify_obj self (with_active_submode None) in
  modify_obj self (with_step_rate (Some None)).

(** [_deactivate_submode], with [manager.deactivate_mode] passed in:
    [deactivate_mode m sub] is the call [m.deactivate_mode(sub)]. *)
Definition _deactivate_submode_with
    (deactivate_mode : manager_ref -> mode_ref -> M unit)
    (self : mode_ref) (clear : bool) : M unit :=
  let! o := get_obj self in
  match active_submode o with
  | Some sub =>
      do! (if active o then
             match manager o with
             | Some m => deactivate_mode m sub
             | None => raise AttributeError
             end
           else ret tt) in
      if clear then clear_subnode self else ret tt
  | None => ret tt
  end.

Definition BaseMulti_activate_with
    (activate_mode : manager_ref -> mode_ref -> M unit)
    (self : mode_ref) (mode_manager : manager_ref) : M unit :=
  let! o := get_obj self in
  do! assert_ (negb (bool_decide (submodes o = []))) in
  do! modify_obj self (with_manager (Some mode_manager)) in
  do! (match active_submode o with
       | None =>
           let! sub0 := first_of (submodes o) in
           _set_active_submode self (Some sub0)
       | Some sub => _set_active_submode self (Some sub)
       end) in
  let! o' := get_obj self in
  do! (match manager o', active_submode o' with
       | Some m, Some sub => activate_mode m sub
       | _, _ => raise AttributeError
       end) in
  BaseMode_activate self mode_manager.

Definition BaseMulti_deactivate_with
    (deactivate_mode : manager_ref -> mode_ref -> M unit)
    (self : mode_ref) (mode_manager : manager_ref) : M unit :=
  do! _deactivate_submode_with deactivate_mode self false in
  BaseMode_deactivate self mode_manager.

(** ** Dynamic dispatch of [mode.activate(manager)], [mode.deactivate(manager)]

    A composite activates its submode through the manager, which calls the
    submode's own [activate]; [fuel] bounds the depth of that nesting. *)
Fixpoint activate (fuel : nat) (self : mode_ref) (mode_manager : manager_ref)
  : M unit :=
  match fuel with
  | O => out_of_fuel
  | S fuel' =>
      let! o := get_obj self in
      match class o with
      | BaseMode => BaseMode_activate self mode_manager
      | BaseMulti =>
          BaseMulti_activate_with
            (fun m sub => activate fuel' sub m) self mode_manager
      end
  end.

Fixpoint deactivate (fuel : nat) (self : mode_ref) (mode_manager : manager_ref)
  : M unit :=
  match fuel with
  | O => out_of_fuel
  | S fuel' =>
      let! o := get_obj self in
      match class o with
      | BaseMode => BaseMode_deactivate self mode_manager
      | BaseMulti =>
          BaseMulti_deactivate_with
            (fun m sub => deactivate fuel' sub m) self mode_manager
      end
  end.

(** ** class BaseManager *)

Definition current_mode (self : manager_ref) : M (option mode_ref) :=
  let! modes := get_modes self in
  ret (last modes).

Definition on_last_mode_pop (self : manager_ref) (mode : mode_ref) : M unit :=
  emit (OnLastModePop self mode).

Definition activate_mode (fuel : nat) (self : manager_ref) (mode : mode_ref)
  : M unit :=
  activate fuel mode self.

Definition deactivate_mode (fuel : nat) (self : manager_ref) (mode : mode_ref)
  : M unit :=
  deactivate fuel mode self.

Definition push_mode (fuel : nat) (self : manager_ref) (mode : mode_ref)
  : M unit :=
  let! current := current_mode self in
  do! (match current with
       | Some cur => deactivate_mode fuel self cur
       | None => ret tt
       end) in
  let! modes := get_modes self in
  do! set_modes self (modes ++ [mode]) in
  activate_mode fuel self mode.

Definition pop_mode (fuel : nat) (self : manager_ref) : M mode_ref :=
  let! modes := get_modes self in
  match list_pop modes with
  | None => raise IndexError
  | Some (rest, mode) =>
      do! set_modes self rest in
      do! deactivate fuel mode self in
      let! current := current_mode self in
      do! (match current with
           | Some cur => activate_mode fuel self cur
           | None => on_last_mode_pop self mode
           end) in
      ret mode
  end.

Definition swap_modes (fuel : nat) (self : manager_ref) (mode : mode_ref)
  : M mode_ref :=
  let! modes := get_modes self in
  match list_pop modes with
  | None => raise IndexError
  | Some (rest, old_mode) =>
      do! set_modes self rest in
      do! deactivate_mode fuel self old_mode in
      let! modes' := get_modes self in
      do! set_modes self (modes' ++ [mode]) in
      do! activate_mode fuel self mode in
      ret old_mode
  end.

Definition remove_mode (fuel : nat) (self : manager_ref) (mode : mode_ref)
  : M unit :=
  let! current := current_mode self in
  if decide (current = Some mode) then
    do! pop_mode fuel self in ret tt
  else
    let! modes := get_modes self in
    match list_remove_first mode modes with
    | Some modes' => set_modes self modes'
    | None => ret tt
    end.

(** ** class BaseMulti: switching and removing submodes *)

Definition _deactivate_submode (fuel : nat) (self : mode_ref) (clear : bool)
  : M unit :=
  _deactivate_submode_with (deactivate_mode fuel) self clear.

Definition _activate_submode (fuel : nat) (self : mode_ref)
    (submode : option mode_ref) : M unit :=
  let! o := get_obj self in
  if decide (active_submode o = submode) then ret tt
  else
    do! assert_ (match submode with
                 | Some sub => bool_decide (sub ∈ submodes o)
                 | None => false
                 end) in
    do! _deactivate_submode fuel self true in
    do! _set_active_submode self submode in
    let! o' := get_obj self in
    match submode with
    | Some sub =>
        if active o' then
          match manager o' with
          | Some m => activate_mode fuel m sub
          | None => raise AttributeError
          end
        else ret tt
    | None =>
        match manager o' with
        | Some m => remove_mode fuel m self
        | None => ret tt
        end
    end.

Definition activate_next (fuel : nat) (self : mode_ref) (loop : bool)
  : M (option mode_ref) :=
  let! o := get_obj self in
  do! assert_ (negb (bool_decide (submodes o = []))) in
  let! next_mode :=
    match active_submode o with
    | None => let! sub0 := first_of (submodes o) in ret (Some sub0)
    | Some last_mode =>
        match list_index last_mode (submodes o) with
        | None => raise ValueError
        | Some i =>
            let index := S i in
            if decide (index < length (submodes o))%nat then
              ret (submodes o !! index)
            else if loop then
              let! sub0 := first_of (submodes o) in ret (Some sub0)
            else ret None
        end
    end in
  do! _activate_submode fuel self next_mode in
  ret next_mode.

Definition remove_submode (fuel : nat) (self : mode_ref)
    (mode : option mode_ref) : M unit :=
  let! o := get_obj self in
  let target :=
    match mode with
    | None => Some (active_submode o)
    | Some m => if decide (m ∈ submodes o) then Some (Some m) else None
    end in
  match target with
  | None => ret tt
  | Some mode' =>
      let! next_mode := activate_next fuel self true in
      let! o1 := get_obj self in
      do! (match mode' with
           | Some m =>
               match list_remove_first m (submodes o1) with
               | Some l => modify_obj self (with_submodes l)
               | None => raise ValueError
               end
           | None => raise ValueError
           end) in
      if decide (next_mode = mode') then
        let! o2 := get_obj self in
        do! (match manager o2 with
             | Some m => remove_mode fuel m self
             | None => ret tt
             end) in
        _deactivate_submode fuel self true
      else ret tt
  end.

(** ** Reading the state after an update *)

Lemma deref_upd_obj r f s r' :
  deref (upd_obj r f s) r' = if decide (r = r') then f (deref s r) else deref s r'.
Proof.
  unfold deref, upd_obj; simpl. destruct (decide (r = r')) as [->|Hne].
  - apply lookup_total_insert_eq.
  - now apply lookup_total_insert_ne.
Qed.

Lemma deref_upd_obj_eq r f s : deref (upd_obj r f s) r = f (deref s r).
Proof. rewrite deref_upd_obj. now rewrite decide_True. Qed.

Lemma deref_upd_obj_ne r f s r' :
  r <> r' -> deref (upd_obj r f s) r' = deref s r'.
Proof. intros H. rewrite deref_upd_obj. now rewrite decide_False. Qed.

Lemma deref_upd_modes m l s r : deref (upd_modes m l s) r = deref s r.
Proof. reflexivity. Qed.

Lemma deref_upd_log e s r : deref (upd_log e s) r = deref s r.
Proof. reflexivity. Qed.

Lemma modes_of_upd_modes m l s m' :
  modes_of (upd_modes m l s) m' = if decide (m = m') then l else modes_of s m'.
Proof.
  unfold modes_of, upd_modes; simpl. destruct (decide (m = m')) as [->|Hne].
  - apply lookup_total_insert_eq.
  - now apply lookup_total_insert_ne.
Qed.

Lemma modes_of_upd_modes_eq m l s : modes_of (upd_modes m l s) m = l.
Proof. rewrite modes_of_upd_modes. now rewrite decide_True. Qed.

Lemma modes_of_upd_obj r f s m : modes_of (upd_obj r f s) m = modes_of s m.
Proof. reflexivity. Qed.

Lemma modes_of_upd_log e s m : modes_of (upd_log e s) m = modes_of s m.
Proof. reflexivity. Qed.

(** ** [BaseMode.activate] *)

(** C9: on a mode whose [active] flag is set, [BaseMode.activate] returns
    with the state it was given (no hook call, same manager, same flag); on
    a mode whose flag is clear it calls [on_activate] once, stores the
    manager it was given and sets the flag, touching no other attribute, no
    other mode and no stack. Hence a second activation, for any manager,
    adds nothing to the first. *)
Theorem BaseMode_activate_idempotent (self : mode_ref)
    (mode_manager : manager_ref) (s : state) :
  (active (deref s self) = true ->
   BaseMode_activate self mode_manager s = Ok tt s)
  /\ (active (deref s self) = false ->
      exists s',
        BaseMode_activate self mode_manager s = Ok tt s'
        /\ log s' = log s ++ [OnActivate self]
        /\ deref s' self
           = with_active true (with_manager (Some mode_manager) (deref s self))
        /\ (forall r, r <> self -> deref s' r = deref s r)
        /\ stacks s' = stacks s)
  /\ (forall other_manager,
        (do! BaseMode_activate self mode_manager in
         BaseMode_activate self other_manager) s
        = BaseMode_activate self mode_manager s).
Proof.
  unfold BaseMode_activate, bind, get_obj, on_activate, emit, modify_obj, ret.
  split; [|split].
  - intros ->. reflexivity.
  - intros ->. simpl. eexists. split; [reflexivity|]. simpl.
    split; [reflexivity|]. split.
    + rewrite deref_upd_obj_eq, deref_upd_obj_eq. reflexivity.
    + split; [|reflexivity]. intros r Hr.
      rewrite !deref_upd_obj_ne by congruence. reflexivity.
  - intros other_manager. destruct (active (deref s self)) eqn:E; simpl.
    + now rewrite E.
    + rewrite deref_upd_obj_eq. reflexivity.
Qed.

(** ** Plain modes: objects of class [BaseMode] *)

Definition is_BaseMode (s : state) (r : mode_ref) : Prop :=
  class (deref s r) = BaseMode.

(** The state [BaseMode.deactivate] leaves. *)
Definition deactivated (self : mode_ref) (s : state) : state :=
  upd_obj self (with_active false) (upd_log (OnDeactivate self) s).

(** The state [BaseMode.activate] leaves. *)
Definition activated (self : mode_ref) (m : manager_ref) (s : state) : state :=
  if active (deref s self) then s
  else upd_obj self (with_active true)
         (upd_obj self (with_manager (Some m)) (upd_log (OnActivate self) s)).

Lemma deactivate_plain fuel self m s :
  is_BaseMode s self ->
  deactivate (S fuel) self m s = Ok tt (deactivated self s).
Proof.
  intros H. cbn [deactivate]. unfold bind, get_obj. rewrite H. reflexivity.
Qed.

Lemma activate_plain fuel self m s :
  is_BaseMode s self ->
  activate (S fuel) self m s = Ok tt (activated self m s).
Proof.
  intros H. cbn [activate]. unfold bind at 1. unfold get_obj. rewrite H.
  unfold BaseMode_activate, activated, bind, get_obj.
  destruct (active (deref s self)); reflexivity.
Qed.

Lemma is_BaseMode_deactivated r self s :
  is_BaseMode (deactivated self s) r <-> is_BaseMode s r.
Proof.
  unfold is_BaseMode, deactivated. rewrite deref_upd_obj.
  destruct (decide (self = r)) as [->|]; reflexivity.
Qed.

Lemma is_BaseMode_activated r self m s :
  is_BaseMode (activated self m s) r <-> is_BaseMode s r.
Proof.
  unfold is_BaseMode, activated. destruct (active (deref s self)); [reflexivity|].
  destruct (decide (self = r)) as [->|Hne].
  - now rewrite !deref_upd_obj_eq.
  - now rewrite !deref_upd_obj_ne by exact Hne.
Qed.

Lemma deref_deactivated self s r :
  deref (deactivated self s) r =
  if decide (self = r) then with_active false (deref s self) else deref s r.
Proof. unfold deactivated. now rewrite deref_upd_obj. Qed.

Lemma deref_activated self m s r :
  deref (activated self m s) r =
  if decide (self = r) then
    (if active (deref s self) then deref s self
     else with_active true (with_manager (Some m) (deref s self)))
  else deref s r.
Proof.
  unfold activated. destruct (active (deref s self)).
  - now destruct (decide (self = r)) as [->|].
  - destruct (decide (self = r)) as [->|Hne].
    + now rewrite !deref_upd_obj_eq.
    + now rewrite !deref_upd_obj_ne by exact Hne.
Qed.

Lemma active_activated self m s : active (deref (activated self m s) self) = true.
Proof.
  rewrite deref_activated, decide_True by reflexivity.
  now destruct (active (deref s self)) eqn:E.
Qed.

Lemma log_activated self m s :
  log (activated self m s) =
  log s ++ (if active (deref s self) then [] else [OnActivate self]).
Proof.
  unfold activated. destruct (active (deref s self)); simpl.
  - now rewrite app_nil_r.
  - reflexivity.
Qed.

Lemma stacks_activated self m s : stacks (activated self m s) = stacks s.
Proof. unfold activated. now destruct (active (deref s self)). Qed.

Lemma modes_of_activated self m s m' :
  modes_of (activated self m s) m' = modes_of s m'.
Proof. unfold modes_of. now rewrite stacks_activated. Qed.

(** ** What [activate] and [deactivate] can touch, for every class

    [hooks_only P s s']: from [s] to [s'] no manager's stack changed and
    the hook calls added to the log all satisfy [P]. *)
Definition hooks_only (P : event -> Prop) (s s' : state) : Prop :=
  stacks s' = stacks s
  /\ exists evs, log s' = log s ++ evs /\ Forall P evs.

(** A computation all of whose outcomes are related to its start by [R]. *)
Definition preserves {A} (R : state -> state -> Prop) (c : M A) : Prop :=
  forall s, match c s with
            | Ok _ s' => R s s'
            | Raise _ s' => R s s'
            | OutOfFuel => True
            end.

Lemma hooks_only_refl P s : hooks_only P s s.
Proof.
  split; [reflexivity|]. exists []. split; [now rewrite app_nil_r|constructor].
Qed.

Lemma hooks_only_trans P s1 s2 s3 :
  hooks_only P s1 s2 -> hooks_only P s2 s3 -> hooks_only P s1 s3.
Proof.
  intros [H1 (e1 & L1 & F1)] [H2 (e2 & L2 & F2)]. split; [congruence|].
  exists (e1 ++ e2). split.
  - rewrite L2, L1. now rewrite app_assoc.
  - now apply Forall_app.
Qed.

Lemma preserves_ret {A} P (a : A) : preserves (hooks_only P) (ret a).
Proof. intros s. apply hooks_only_refl. Qed.

Lemma preserves_raise {A} P e : preserves (hooks_only P) (@raise A e).
Proof. intros s. apply hooks_only_refl. Qed.

Lemma preserves_out_of_fuel {A} P : preserves (hooks_only P) (@out_of_fuel A).
Proof. intros s. exact I. Qed.

Lemma preserves_get_obj P r : preserves (hooks_only P) (get_obj r).
Proof. intros s. apply hooks_only_refl. Qed.

Lemma preserves_modify_obj P r f : preserves (hooks_only P) (modify_obj r f).
Proof.
  intros s. split; [reflexivity|]. exists [].
  split; [now rewrite app_nil_r|constructor].
Qed.

Lemma preserves_emit (P : event -> Prop) e : P e -> preserves (hooks_only P) (emit e).
Proof.
  intros He s. split; [reflexivity|]. exists [e]. split; [reflexivity|].
  now repeat constructor.
Qed.

Lemma preserves_bind {A B} P (c : M A) (k : A -> M B) :
  preserves (hooks_only P) c ->
  (forall a, preserves (hooks_only P) (k a)) ->
  preserves (hooks_only P) (bind c k).
Proof.
  intros Hc Hk s. unfold bind. specialize (Hc s).
  destruct (c s) as [a s'|e s'|]; [|exact Hc|exact I].
  specialize (Hk a s'). destruct (k a s') as [b s''|e s''|]; [| |exact I];
    eapply hooks_only_trans; eauto.
Qed.

Lemma preserves_assert P b : preserves (hooks_only P) (assert_ b).
Proof.
  unfold assert_. destruct debug; [destruct b|];
    [apply preserves_ret|apply preserves_raise|apply preserves_ret].
Qed.

Lemma preserves_first_of {A} P (l : list A) : preserves (hooks_only P) (first_of l).
Proof. destruct l; [apply preserves_raise|apply preserves_ret]. Qed.

Ltac preserves_step :=
  first
    [ apply preserves_ret | apply preserves_raise | apply preserves_out_of_fuel
    | apply preserves_get_obj | apply preserves_modify_obj
    | apply preserves_assert | apply preserves_first_of
    | apply preserves_emit; solve [eauto]
    | apply preserves_bind; [|intros ?]
    | match goal with
      | H : forall r m, preserves _ (_ r m) |- _ => apply H
      | |- preserves _ (match ?x with _ => _ end) => destruct x
      end ].

Definition is_OnActivate (e : event) : Prop := exists r, e = OnActivate r.
Definition is_OnDeactivate (e : event) : Prop := exists r, e = OnDeactivate r.

Lemma preserves_set_active_submode P self submode :
  preserves (hooks_only P) (_set_active_submode self submode).
Proof. unfold _set_active_submode. repeat preserves_step. Qed.

Lemma deactivate_preserves fuel :
  forall self m, preserves (hooks_only is_OnDeactivate) (deactivate fuel self m).
Proof.
  induction fuel as [|fuel IH]; intros self m; cbn [deactivate].
  - apply preserves_out_of_fuel.
  - unfold BaseMulti_deactivate_with, _deactivate_submode_with,
      BaseMode_deactivate, clear_subnode, on_deactivate.
    assert (He : forall r, is_OnDeactivate (OnDeactivate r))
      by (intros r; now exists r).
    repeat preserves_step.
Qed.

Lemma activate_preserves fuel :
  forall self m, preserves (hooks_only is_OnActivate) (activate fuel self m).
Proof.
  induction fuel as [|fuel IH]; intros self m; cbn [activate].
  - apply preserves_out_of_fuel.
  - unfold BaseMulti_activate_with, BaseMode_activate, on_activate.
    assert (He : forall r, is_OnActivate (OnActivate r))
      by (intros r; now exists r).
    repeat first [apply preserves_set_active_submode | preserves_step].
Qed.

(** ** The mode stack over plain modes *)

Lemma pop_mode_empty fuel self s :
  modes_of s self = [] -> pop_mode fuel self s = Raise IndexError s.
Proof.
  intros H. unfold pop_mode, bind, get_modes. now rewrite H.
Qed.

Lemma pop_mode_plain fuel self s rest mode :
  modes_of s self = rest ++ [mode] ->
  is_BaseMode s mode ->
  (forall cur, last rest = Some cur -> is_BaseMode s cur) ->
  pop_mode (S fuel) self s =
  Ok mode (let s1 := deactivated mode (upd_modes self rest s) in
           match last rest with
           | Some cur => activated cur self s1
           | None => upd_log (OnLastModePop self mode) s1
           end).
Proof.
  intros Hm Hmode Hcur. unfold pop_mode, bind at 1, get_modes.
  rewrite Hm, list_pop_snoc. unfold bind at 1, set_modes.
  unfold bind at 1. rewrite deactivate_plain by exact Hmode.
  unfold bind at 1, current_mode, bind at 1, get_modes, ret.
  change (modes_of (deactivated mode (upd_modes self rest s)) self)
    with (modes_of (upd_modes self rest s) self).
  rewrite modes_of_upd_modes_eq.
  destruct (last rest) as [cur|] eqn:El.
  - unfold bind, activate_mode. rewrite activate_plain; [reflexivity|].
    apply is_BaseMode_deactivated. now apply Hcur.
  - reflexivity.
Qed.

Lemma push_mode_plain fuel self s mode :
  is_BaseMode s mode ->
  (forall cur, last (modes_of s self) = Some cur -> is_BaseMode s cur) ->
  push_mode (S fuel) self mode s =
  Ok tt (let s1 := match last (modes_of s self) with
                   | Some cur => deactivated cur s
                   | None => s
                   end in
         activated mode self (upd_modes self (modes_of s self ++ [mode]) s1)).
Proof.
  intros Hmode Hcur. unfold push_mode, bind at 1, current_mode, bind at 1.
  unfold get_modes at 1, ret.
  destruct (last (modes_of s self)) as [cur|] eqn:El.
  - unfold bind at 1, deactivate_mode.
    rewrite deactivate_plain by now apply Hcur.
    unfold bind, get_modes, set_modes, activate_mode.
    rewrite activate_plain; [reflexivity|].
    change (is_BaseMode (deactivated cur s) mode).
    now apply is_BaseMode_deactivated.
  - unfold bind, get_modes, set_modes, activate_mode.
    rewrite activate_plain; [reflexivity|]. exact Hmode.
Qed.

Lemma swap_modes_empty fuel self mode s :
  modes_of s self = [] -> swap_modes fuel self mode s = Raise IndexError s.
Proof.
  intros H. unfold swap_modes, bind, get_modes. now rewrite H.
Qed.

Lemma swap_modes_plain fuel self s rest old_mode mode :
  modes_of s self = rest ++ [old_mode] ->
  is_BaseMode s old_mode ->
  is_BaseMode s mode ->
  swap_modes (S fuel) self mode s =
  Ok old_mode
     (activated mode self
        (upd_modes self (rest ++ [mode])
           (deactivated old_mode (upd_modes self rest s)))).
Proof.
  intros Hm Hold Hmode. unfold swap_modes, bind at 1, get_modes at 1.
  rewrite Hm, list_pop_snoc. unfold bind at 1, set_modes at 1.
  unfold bind at 1, deactivate_mode. rewrite deactivate_plain by exact Hold.
  unfold bind at 1, get_modes.
  change (modes_of (deactivated old_mode (upd_modes self rest s)) self)
    with (modes_of (upd_modes self rest s) self).
  rewrite modes_of_upd_modes_eq.
  unfold bind, set_modes, activate_mode.
  rewrite activate_plain; [reflexivity|].
  change (is_BaseMode (deactivated old_mode (upd_modes self rest s)) mode).
  now apply is_BaseMode_deactivated.
Qed.

(** ** The mode stack over modes of every class *)

Lemma modes_of_hooks_only P s s' m :
  hooks_only P s s' -> modes_of s' m = modes_of s m.
Proof. intros [H _]. unfold modes_of. now rewrite H. Qed.

(** [pop_mode] on a stack [rest ++ [mode]]: the stack becomes [rest], then
    [mode.deactivate(self)] runs, then either the activation of the new top
    or the [on_last_mode_pop] hook; the mode deactivated cannot change which
    of the two, since deactivation leaves the stacks alone. *)
Lemma pop_mode_unfold fuel self s rest mode :
  modes_of s self = rest ++ [mode] ->
  pop_mode fuel self s =
  (do! deactivate fuel mode self in
   do! (match last rest with
        | Some cur => activate fuel cur self
        | None => on_last_mode_pop self mode
        end) in
   ret mode) (upd_modes self rest s).
Proof.
  intros Hm. unfold pop_mode, bind at 1, get_modes.
  rewrite Hm, list_pop_snoc. unfold bind at 1, set_modes.
  unfold bind at 1. unfold bind at 3.
  pose proof (deactivate_preserves fuel mode self (upd_modes self rest s)) as Hd.
  destruct (deactivate fuel mode self (upd_modes self rest s))
    as [[] s2|e s2|]; try reflexivity.
  unfold bind at 1, current_mode, bind at 1, get_modes, ret.
  rewrite (modes_of_hooks_only _ _ _ self Hd), modes_of_upd_modes_eq.
  reflexivity.
Qed.

Lemma swap_modes_unfold fuel self s rest old_mode mode :
  modes_of s self = rest ++ [old_mode] ->
  swap_modes fuel self mode s =
  (do! deactivate fuel old_mode self in
   do! set_modes self (rest ++ [mode]) in
   do! activate fuel mode self in
   ret old_mode) (upd_modes self rest s).
Proof.
  intros Hm. unfold swap_modes, bind at 1, get_modes at 1.
  rewrite Hm, list_pop_snoc. unfold bind at 1, set_modes at 1.
  unfold bind at 1, deactivate_mode. unfold bind at 4.
  pose proof (deactivate_preserves fuel old_mode self (upd_modes self rest s))
    as Hd.
  destruct (deactivate fuel old_mode self (upd_modes self rest s))
    as [[] s2|e s2|]; try reflexivity.
  unfold bind at 1, get_modes.
  rewrite (modes_of_hooks_only _ _ _ self Hd), modes_of_upd_modes_eq.
  reflexivity.
Qed.

Definition is_OnLastModePop (e : event) : Prop :=
  exists m r, e = OnLastModePop m r.

(** The hook calls a step from [s] to [s'] added to the log. *)
Definition logged (s s' : state) (evs : list event) : Prop :=
  log s' = log s ++ evs.

Lemma not_pop_OnActivate e : is_OnActivate e -> ~ is_OnLastModePop e.
Proof. intros [r ->] (m & r' & H). discriminate. Qed.

Lemma not_pop_OnDeactivate e : is_OnDeactivate e -> ~ is_OnLastModePop e.
Proof. intros [r ->] (m & r' & H). discriminate. Qed.

Lemma modes_of_upd_modes_ne m l s m' :
  m' <> m -> modes_of (upd_modes m l s) m' = modes_of s m'.
Proof. intros H. rewrite modes_of_upd_modes. now rewrite decide_False. Qed.

(** Outcome of [swap_modes] for modes of every class. *)
Lemma swap_modes_outcome fuel self mode s rest old_mode r s' :
  modes_of s self = rest ++ [old_mode] ->
  swap_modes fuel self mode s = Ok r s' ->
  r = old_mode
  /\ modes_of s' self = rest ++ [mode]
  /\ (forall m, m <> self -> modes_of s' m = modes_of s m)
  /\ exists evs, logged s s' evs /\ Forall (fun e => ~ is_OnLastModePop e) evs.
Proof.
  intros Hm. rewrite (swap_modes_unfold _ _ _ _ _ _ Hm).
  unfold bind at 1.
  pose proof (deactivate_preserves fuel old_mode self (upd_modes self rest s))
    as Hd.
  destruct (deactivate fuel old_mode self (upd_modes self rest s))
    as [[] s2|e s2|]; [|discriminate|discriminate].
  unfold bind at 1, set_modes. unfold bind.
  pose proof (activate_preserves fuel mode self
                (upd_modes self (rest ++ [mode]) s2)) as Ha.
  destruct (activate fuel mode self (upd_modes self (rest ++ [mode]) s2))
    as [[] s4|e s4|]; [|discriminate|discriminate].
  unfold ret. intros [= <- <-]. split; [reflexivity|].
  split; [|split].
  - rewrite (modes_of_hooks_only _ _ _ self Ha). apply modes_of_upd_modes_eq.
  - intros m Hne. rewrite (modes_of_hooks_only _ _ _ m Ha).
    rewrite modes_of_upd_modes_ne by exact Hne.
    rewrite (modes_of_hooks_only _ _ _ m Hd).
    now apply modes_of_upd_modes_ne.
  - destruct Hd as [_ (e1 & L1 & F1)], Ha as [_ (e2 & L2 & F2)].
    exists (e1 ++ e2). split.
    + unfold logged. rewrite L2. simpl. rewrite L1. simpl.
      now rewrite app_assoc.
    + apply Forall_app. split.
      * eapply Forall_impl; [exact F1|]. apply not_pop_OnDeactivate.
      * eapply Forall_impl; [exact F2|]. apply not_pop_OnActivate.
Qed.

(** ** What a returning [activate] or [deactivate] has done, for every class *)

Lemma bind_Ok {A B} (c : M A) (k : A -> M B) s b s' :
  bind c k s = Ok b s' -> exists a s1, c s = Ok a s1 /\ k a s1 = Ok b s'.
Proof. unfold bind. destruct (c s) as [a s1|e s1|]; [eauto|discriminate..]. Qed.

Lemma preserves_Ok {A} (R : state -> state -> Prop) (c : M A) s a s' :
  preserves R c -> c s = Ok a s' -> R s s'.
Proof. intros Hp Hc. specialize (Hp s). now rewrite Hc in Hp. Qed.

Lemma BaseMode_activate_eq self m s :
  BaseMode_activate self m s = Ok tt (activated self m s).
Proof.
  unfold BaseMode_activate, activated, bind, get_obj.
  destruct (active (deref s self)); reflexivity.
Qed.

Lemma BaseMode_deactivate_eq self m s :
  BaseMode_deactivate self m s = Ok tt (deactivated self s).
Proof. reflexivity. Qed.

(** A [mode.deactivate(manager)] that returns, whatever the class of the
    mode: what it did to its submodes comes first and calls only
    [on_deactivate] hooks; its last step is [BaseMode.deactivate] on the
    mode itself, which calls the mode's own [on_deactivate] and clears its
    flag. *)
Lemma deactivate_returns fuel self m s s' :
  deactivate fuel self m s = Ok tt s' ->
  exists s1 evs,
    logged s s1 evs /\ Forall is_OnDeactivate evs
    /\ stacks s1 = stacks s
    /\ s' = deactivated self s1.
Proof.
  destruct fuel as [|fuel]; [discriminate|]. cbn [deactivate].
  intros H. apply bind_Ok in H as (o & s0 & Ho & H).
  unfold get_obj in Ho. inversion Ho; subst o s0. clear Ho.
  destruct (class (deref s self)).
  - rewrite BaseMode_deactivate_eq in H. inversion H.
    exists s, []. split; [unfold logged; now rewrite app_nil_r|].
    split; [constructor|]. split; reflexivity.
  - unfold BaseMulti_deactivate_with in H.
    apply bind_Ok in H as ([] & s1 & H1 & H2).
    assert (Hp : preserves (hooks_only is_OnDeactivate)
                   (_deactivate_submode_with
                      (fun m0 sub => deactivate fuel sub m0) self false)).
    { unfold _deactivate_submode_with, clear_subnode.
      repeat first [preserves_step | apply deactivate_preserves]. }
    destruct (preserves_Ok _ _ _ _ _ Hp H1) as [Hst (evs & Hlog & Hall)].
    rewrite BaseMode_deactivate_eq in H2. inversion H2.
    exists s1, evs. split; [exact Hlog|]. split; [exact Hall|].
    split; [exact Hst|reflexivity].
Qed.

(** A [mode.activate(manager)] that returns, whatever the class of the
    mode: what it did to its submodes comes first and calls only
    [on_activate] hooks; its last step is [BaseMode.activate] on the mode
    itself, which leaves the mode's flag set. *)
Lemma activate_returns fuel self m s s' :
  activate fuel self m s = Ok tt s' ->
  exists s1 evs,
    logged s s1 evs /\ Forall is_OnActivate evs
    /\ stacks s1 = stacks s
    /\ s' = activated self m s1.
Proof.
  destruct fuel as [|fuel]; [discriminate|]. cbn [activate].
  intros H. apply bind_Ok in H as (o & s0 & Ho & H).
  unfold get_obj in Ho. inversion Ho; subst o s0. clear Ho.
  destruct (class (deref s self)).
  - rewrite BaseMode_activate_eq in H. inversion H.
    exists s, []. split; [unfold logged; now rewrite app_nil_r|].
    split; [constructor|]. split; reflexivity.
  - unfold BaseMulti_activate_with in H.
    apply bind_Ok in H as (o & s0 & Ho & H).
    unfold get_obj in Ho. inversion Ho; subst o s0. clear Ho.
    apply bind_Ok in H as ([] & s1 & H1 & H).
    apply bind_Ok in H as ([] & s2 & H2 & H).
    apply bind_Ok in H as ([] & s3 & H3 & H).
    apply bind_Ok in H as (o' & s4 & Ho' & H).
    unfold get_obj in Ho'. inversion Ho'; subst o' s4. clear Ho'.
    apply bind_Ok in H as ([] & s5 & H5 & H).
    rewrite BaseMode_activate_eq in H. inversion H.
    assert (He : forall r, is_OnActivate (OnActivate r))
      by (intros r; now exists r).
    assert (R1 : hooks_only is_OnActivate s s1)
      by (exact (preserves_Ok _ _ _ _ _ (preserves_assert _ _) H1)).
    assert (R2 : hooks_only is_OnActivate s1 s2)
      by (exact (preserves_Ok _ _ _ _ _ (preserves_modify_obj _ _ _) H2)).
    assert (R3 : hooks_only is_OnActivate s2 s3).
    { refine (preserves_Ok _ _ _ _ _ _ H3).
      repeat first [apply preserves_set_active_submode | preserves_step]. }
    assert (R5 : hooks_only is_OnActivate s3 s5).
    { refine (preserves_Ok _ _ _ _ _ _ H5).
      repeat first [apply activate_preserves | preserves_step]. }
    pose proof (hooks_only_trans _ _ _ _
                  (hooks_only_trans _ _ _ _
                     (hooks_only_trans _ _ _ _ R1 R2) R3) R5)
      as [Hst (evs & Hlog & Hall)].
    exists s5, evs. split; [exact Hlog|]. split; [exact Hall|].
    split; [exact Hst|reflexivity].
Qed.

(** [pop_mode] on a stack [rest ++ [mode]], for modes of every class: the
    calls that return are exactly those in which [mode.deactivate(self)],
    run after [mode] has left the stack, returns and then the activation of
    the new top returns; on an emptied stack the second step is the hook
    [on_last_mode_pop(mode)]. *)
Lemma pop_mode_returns fuel self s rest mode r s' :
  modes_of s self = rest ++ [mode] ->
  (pop_mode fuel self s = Ok r s' <->
   r = mode
   /\ exists s1,
        deactivate fuel mode self (upd_modes self rest s) = Ok tt s1
        /\ match last rest with
           | Some cur => activate fuel cur self s1 = Ok tt s'
           | None => s' = upd_log (OnLastModePop self mode) s1
           end).
Proof.
  intros Hm. rewrite (pop_mode_unfold _ _ _ _ _ Hm). split.
  - intros H. apply bind_Ok in H as ([] & s1 & H1 & H).
    apply bind_Ok in H as ([] & s2 & H2 & H).
    unfold ret in H. inversion H; subst. split; [reflexivity|].
    exists s1. split; [exact H1|].
    destruct (last rest); [exact H2|].
    unfold on_last_mode_pop, emit in H2. now inversion H2.
  - intros [-> (s1 & H1 & H2)]. unfold bind at 1. rewrite H1.
    unfold bind. destruct (last rest).
    + now rewrite H2.
    + subst s'. reflexivity.
Qed.

(** [swap_modes] on a stack [rest ++ [old_mode]], for modes of every
    class: the calls that return are exactly those in which
    [old_mode.deactivate(self)] returns and then, with [mode] on the stack
    in its place, [mode.activate(self)] returns. No other mode's [activate]
    is called, and no hook of the manager. *)
Lemma swap_modes_returns fuel self mode s rest old_mode r s' :
  modes_of s self = rest ++ [old_mode] ->
  (swap_modes fuel self mode s = Ok r s' <->
   r = old_mode
   /\ exists s1,
        deactivate fuel old_mode self (upd_modes self rest s) = Ok tt s1
        /\ activate fuel mode self (upd_modes self (rest ++ [mode]) s1)
           = Ok tt s').
Proof.
  intros Hm. rewrite (swap_modes_unfold _ _ _ _ _ _ Hm). split.
  - intros H. apply bind_Ok in H as ([] & s1 & H1 & H).
    apply bind_Ok in H as ([] & s2 & H2 & H).
    apply bind_Ok in H as ([] & s3 & H3 & H).
    unfold ret in H. inversion H; subst. split; [reflexivity|].
    exists s1. split; [exact H1|].
    unfold set_modes in H2. now inversion H2; subst.
  - intros [-> (s1 & H1 & H2)]. unfold bind at 1. rewrite H1.
    unfold bind at 1, set_modes. unfold bind. now rewrite H2.
Qed.

(** What the two steps of a returning [pop_mode] have done. *)
Lemma pop_mode_effect fuel self s rest mode r s' :
  modes_of s self = rest ++ [mode] ->
  pop_mode fuel self s = Ok r s' ->
  exists s1 evd tail,
    deactivate fuel mode self (upd_modes self rest s) = Ok tt s1
    /\ logged s s1 (evd ++ [OnDeactivate mode])
    /\ Forall is_OnDeactivate evd
    /\ active (deref s1 mode) = false
    /\ logged s1 s' tail
    /\ match last rest with
       | Some cur =>
           activate fuel cur self s1 = Ok tt s'
           /\ Forall is_OnActivate tail
           /\ active (deref s' cur) = true
       | None =>
           s' = upd_log (OnLastModePop self mode) s1
           /\ tail = [OnLastModePop self mode]
           /\ active (deref s' mode) = false
       end.
Proof.
  intros Hm Hpop.
  apply (pop_mode_returns _ _ _ _ _ _ _ Hm) in Hpop as [_ (s1 & Hd & Hnext)].
  destruct (deactivate_returns _ _ _ _ _ Hd) as (s0 & evd & L0 & F0 & _ & E1).
  assert (Hoff : active (deref s1 mode) = false).
  { subst s1. now rewrite deref_deactivated, decide_True. }
  assert (Hlog : logged s s1 (evd ++ [OnDeactivate mode])).
  { subst s1. unfold logged in *. unfold deactivated. simpl.
    rewrite L0. simpl. now rewrite app_assoc. }
  destruct (last rest) as [cur|].
  - destruct (activate_returns _ _ _ _ _ Hnext)
      as (s2 & eva & L2 & F2 & _ & E2).
    exists s1, evd,
      (eva ++ if active (deref s2 cur) then [] else [OnActivate cur]).
    split; [exact Hd|]. split; [exact Hlog|]. split; [exact F0|].
    split; [exact Hoff|]. split; [|split; [exact Hnext|split]].
    + subst s'. unfold logged in *. rewrite log_activated, L2.
      now rewrite app_assoc.
    + apply Forall_app. split; [exact F2|].
      destruct (active (deref s2 cur)); [constructor|].
      constructor; [now exists cur|constructor].
    + subst s'. apply active_activated.
  - exists s1, evd, [OnLastModePop self mode].
    split; [exact Hd|]. split; [exact Hlog|]. split; [exact F0|].
    split; [exact Hoff|]. subst s'. split; [reflexivity|].
    split; [reflexivity|]. split; [reflexivity|exact Hoff].
Qed.

(** What the two steps of a returning [swap_modes] have done. *)
Lemma swap_modes_effect fuel self mode s rest old_mode r s' :
  modes_of s self = rest ++ [old_mode] ->
  swap_modes fuel self mode s = Ok r s' ->
  exists s1 evd eva,
    deactivate fuel old_mode self (upd_modes self rest s) = Ok tt s1
    /\ logged s s1 (evd ++ [OnDeactivate old_mode])
    /\ Forall is_OnDeactivate evd
    /\ active (deref s1 old_mode) = false
    /\ activate fuel mode self (upd_modes self (rest ++ [mode]) s1) = Ok tt s'
    /\ logged s1 s' eva
    /\ Forall is_OnActivate eva
    /\ active (deref s' mode) = true.
Proof.
  intros Hm Hswap.
  apply (swap_modes_returns _ _ _ _ _ _ _ _ Hm) in Hswap
    as [_ (s1 & Hd & Ha)].
  destruct (deactivate_returns _ _ _ _ _ Hd) as (s0 & evd & L0 & F0 & _ & E1).
  destruct (activate_returns _ _ _ _ _ Ha) as (s2 & eva & L2 & F2 & _ & E2).
  exists s1, evd,
    (eva ++ if active (deref s2 mode) then [] else [OnActivate mode]).
  split; [exact Hd|]. split; [|split; [exact F0|split; [|split; [exact Ha|]]]].
  - subst s1. unfold logged in *. unfold deactivated. simpl.
    rewrite L0. simpl. now rewrite app_assoc.
  - subst s1. now rewrite deref_deactivated, decide_True.
  - split; [|split].
    + subst s'. unfold logged in *. rewrite log_activated, L2. simpl.
      now rewrite app_assoc.
    + apply Forall_app. split; [exact F2|].
      destruct (active (deref s2 mode)); [constructor|].
      constructor; [now exists mode|constructor].
    + subst s'. apply active_activated.
Qed.

(** C7: [swap_modes] on an empty stack raises IndexError and changes
    nothing. On a stack [rest ++ [old_mode]], for modes of every class, a
    call that returns hands back [old_mode], leaves the stack as
    [rest ++ [mode]] and the other managers' stacks alone; it has run
    [old_mode.deactivate(self)], whose hook calls are deactivations ending
    with [on_deactivate] of [old_mode] itself and which leaves [old_mode]
    inactive, and then, with [mode] on the stack, [mode.activate(self)],
    whose hook calls are activations and which leaves [mode] active; these
    are all its hook calls, so there is no [on_last_mode_pop] and no
    [activate] of the mode beneath. Conversely the call returns whenever
    these two steps do. For plain modes the call does return: it logs
    [on_deactivate] of the old top, then [on_activate] of the new mode
    (unless that mode's flag was already set), the old top ends inactive and
    the new mode active and bound to this manager, and every other mode, the
    one beneath the old top among them, is exactly as before. From an empty
    stack, [push_mode(A); swap_modes(B)] returns [A], deactivated, with [B]
    on top and no [on_last_mode_pop] call although [A] was the only mode. *)
Theorem swap_modes_spec (fuel : nat) (self : manager_ref) (mode : mode_ref)
    (s : state) :
  (modes_of s self = [] -> swap_modes fuel self mode s = Raise IndexError s)
  /\ (forall rest old_mode r s',
        modes_of s self = rest ++ [old_mode] ->
        swap_modes fuel self mode s = Ok r s' ->
        r = old_mode
        /\ modes_of s' self = rest ++ [mode]
        /\ (forall m, m <> self -> modes_of s' m = modes_of s m)
        /\ exists s1 evd eva,
             deactivate fuel old_mode self (upd_modes self rest s) = Ok tt s1
             /\ logged s s1 (evd ++ [OnDeactivate old_mode])
             /\ Forall is_OnDeactivate evd
             /\ active (deref s1 old_mode) = false
             /\ activate fuel mode self (upd_modes self (rest ++ [mode]) s1)
                = Ok tt s'
             /\ logged s1 s' eva
             /\ Forall is_OnActivate eva
             /\ active (deref s' mode) = true
             /\ logged s s' (evd ++ OnDeactivate old_mode :: eva)
             /\ Forall (fun e => ~ is_OnLastModePop e)
                       (evd ++ OnDeactivate old_mode :: eva))
  /\ (forall rest old_mode s1 s',
        modes_of s self = rest ++ [old_mode] ->
        deactivate fuel old_mode self (upd_modes self rest s) = Ok tt s1 ->
        activate fuel mode self (upd_modes self (rest ++ [mode]) s1)
        = Ok tt s' ->
        swap_modes fuel self mode s = Ok old_mode s')
  /\ (forall rest old_mode,
        modes_of s self = rest ++ [old_mode] ->
        is_BaseMode s old_mode -> is_BaseMode s mode ->
        exists s',
          swap_modes (S fuel) self mode s = Ok old_mode s'
          /\ modes_of s' self = rest ++ [mode]
          /\ logged s s'
               (OnDeactivate old_mode ::
                if decide (mode = old_mode) then [OnActivate mode]
                else if active (deref s mode) then [] else [OnActivate mode])
          /\ active (deref s' mode) = true
          /\ (mode <> old_mode ->
              deref s' old_mode = with_active false (deref s old_mode))
          /\ (mode = old_mode \/ active (deref s mode) = false ->
              manager (deref s' mode) = Some self)
          /\ (forall r, r <> old_mode -> r <> mode -> deref s' r = deref s r))
  /\ (forall A,
        modes_of s self = [] ->
        is_BaseMode s A -> is_BaseMode s mode -> A <> mode ->
        active (deref s A) = false -> active (deref s mode) = false ->
        exists s1 s2,
          push_mode (S fuel) self A s = Ok tt s1
          /\ swap_modes (S fuel) self mode s1 = Ok A s2
          /\ modes_of s2 self = [mode]
          /\ active (deref s2 A) = false
          /\ active (deref s2 mode) = true
          /\ logged s s2 [OnActivate A; OnDeactivate A; OnActivate mode]).
Proof.
  split; [apply swap_modes_empty|].
  split.
  { intros rest old_mode r s' Hm Hswap.
    destruct (swap_modes_outcome _ _ _ _ _ _ _ _ Hm Hswap)
      as (Hr & Hst & Hoth & _).
    split; [exact Hr|]. split; [exact Hst|]. split; [exact Hoth|].
    destruct (swap_modes_effect _ _ _ _ _ _ _ _ Hm Hswap)
      as (s1 & evd & eva & Hd & L1 & F1 & Hoff & Ha & L2 & F2 & Hon).
    exists s1, evd, eva. split; [exact Hd|]. split; [exact L1|].
    split; [exact F1|]. split; [exact Hoff|]. split; [exact Ha|].
    split; [exact L2|]. split; [exact F2|]. split; [exact Hon|]. split.
    - unfold logged in *. rewrite L2. simpl. rewrite L1.
      rewrite <- !app_assoc. reflexivity.
    - apply Forall_app. split.
      + eapply Forall_impl; [exact F1|]. apply not_pop_OnDeactivate.
      + constructor.
        * apply not_pop_OnDeactivate. now exists old_mode.
        * eapply Forall_impl; [exact F2|]. apply not_pop_OnActivate. }
  split.
  { intros rest old_mode s1 s' Hm Hd Ha.
    apply (swap_modes_returns _ _ _ _ _ _ _ _ Hm).
    split; [reflexivity|]. exists s1. split; assumption. }
  assert (Hplain : forall s0 rest old_mode,
        modes_of s0 self = rest ++ [old_mode] ->
        is_BaseMode s0 old_mode -> is_BaseMode s0 mode ->
        exists s',
          swap_modes (S fuel) self mode s0 = Ok old_mode s'
          /\ modes_of s' self = rest ++ [mode]
          /\ logged s0 s'
               (OnDeactivate old_mode ::
                if decide (mode = old_mode) then [OnActivate mode]
                else if active (deref s0 mode) then [] else [OnActivate mode])
          /\ active (deref s' mode) = true
          /\ (mode <> old_mode ->
              deref s' old_mode = with_active false (deref s0 old_mode))
          /\ (mode = old_mode \/ active (deref s0 mode) = false ->
              manager (deref s' mode) = Some self)
          /\ (forall r, r <> old_mode -> r <> mode -> deref s' r = deref s0 r)).
  { intros s0 rest old_mode Hm Hold Hmode.
    rewrite (swap_modes_plain _ _ _ _ _ _ Hm Hold Hmode).
    eexists. split; [reflexivity|].
    set (s1 := deactivated old_mode (upd_modes self rest s0)).
    assert (Hact : active (deref (upd_modes self (rest ++ [mode]) s1) mode)
                   = if decide (mode = old_mode) then false
                     else active (deref s0 mode)).
    { rewrite deref_upd_modes. unfold s1. rewrite deref_deactivated.
      destruct (decide (old_mode = mode)) as [->|Hne].
      - now rewrite decide_True.
      - now rewrite decide_False by congruence. }
    split; [|split; [|split; [|split; [|split]]]].
    - rewrite modes_of_activated. apply modes_of_upd_modes_eq.
    - unfold logged. rewrite log_activated, Hact. simpl.
      rewrite <- app_assoc. simpl.
      destruct (decide (mode = old_mode)); [reflexivity|].
      now destruct (active (deref s0 mode)).
    - apply active_activated.
    - intros Hne. rewrite deref_activated, decide_False by exact Hne.
      rewrite deref_upd_modes. unfold s1.
      now rewrite deref_deactivated, decide_True.
    - intros Hcase. rewrite deref_activated, decide_True by reflexivity.
      rewrite Hact. destruct (decide (mode = old_mode)); [reflexivity|].
      destruct Hcase as [Heq | ->]; [contradiction|reflexivity].
    - intros r Hr1 Hr2. rewrite deref_activated, decide_False by congruence.
      rewrite deref_upd_modes. unfold s1.
      now rewrite deref_deactivated, decide_False by congruence. }
  split; [apply Hplain|].
  intros A Hm HA Hmode Hne HAi Hmi.
  rewrite (push_mode_plain _ _ _ _ HA) by (rewrite Hm; discriminate).
  rewrite Hm. simpl.
  set (s1 := activated A self (upd_modes self [A] s)).
  assert (Hm1 : modes_of s1 self = [] ++ [A]).
  { unfold s1. rewrite modes_of_activated. apply modes_of_upd_modes_eq. }
  assert (HA1 : is_BaseMode s1 A) by now apply is_BaseMode_activated.
  assert (Hmode1 : is_BaseMode s1 mode) by now apply is_BaseMode_activated.
  destruct (Hplain s1 [] A Hm1 HA1 Hmode1)
    as (s2 & Hswap & Hst & Hlog & Hact & Hold & _ & Hframe).
  exists s1, s2. split; [reflexivity|]. split; [exact Hswap|].
  split; [exact Hst|]. split; [|split; [exact Hact|]].
  - rewrite Hold by congruence. reflexivity.
  - unfold logged in *. rewrite Hlog.
    rewrite decide_False by congruence.
    assert (Hmi1 : active (deref s1 mode) = false).
    { unfold s1. rewrite deref_activated, decide_False by exact Hne.
      exact Hmi. }
    rewrite Hmi1. unfold s1. rewrite log_activated.
    rewrite deref_upd_modes, HAi. simpl. now rewrite <- app_assoc.
Qed.

(** Outcome of [pop_mode] for modes of every class. *)
Lemma pop_mode_outcome fuel self s rest mode r s' :
  modes_of s self = rest ++ [mode] ->
  pop_mode fuel self s = Ok r s' ->
  r = mode
  /\ modes_of s' self = rest
  /\ (forall m, m <> self -> modes_of s' m = modes_of s m)
  /\ exists evd eva,
       logged s s' (evd ++ eva)
       /\ Forall is_OnDeactivate evd
       /\ match last rest with
          | Some _ => Forall is_OnActivate eva
          | None => eva = [OnLastModePop self mode]
          end.
Proof.
  intros Hm. rewrite (pop_mode_unfold _ _ _ _ _ Hm). unfold bind at 1.
  pose proof (deactivate_preserves fuel mode self (upd_modes self rest s))
    as Hd.
  destruct (deactivate fuel mode self (upd_modes self rest s))
    as [[] s2|e s2|]; [|discriminate|discriminate].
  destruct Hd as [Hd1 (e1 & L1 & F1)].
  assert (Hst2 : forall m, modes_of s2 m = modes_of (upd_modes self rest s) m).
  { intros m. unfold modes_of. now rewrite Hd1. }
  unfold bind. destruct (last rest) as [cur|].
  - pose proof (activate_preserves fuel cur self s2) as Ha.
    destruct (activate fuel cur self s2) as [[] s3|e s3|];
      [|discriminate|discriminate].
    destruct Ha as [Ha1 (e2 & L2 & F2)].
    assert (Hst3 : forall m, modes_of s3 m = modes_of s2 m).
    { intros m. unfold modes_of. now rewrite Ha1. }
    unfold ret. intros [= <- <-]. split; [reflexivity|].
    split; [|split].
    + rewrite Hst3, Hst2. apply modes_of_upd_modes_eq.
    + intros m Hne. rewrite Hst3, Hst2. now apply modes_of_upd_modes_ne.
    + exists e1, e2. split; [|split; assumption].
      unfold logged. rewrite L2, L1. simpl. now rewrite app_assoc.
  - unfold on_last_mode_pop, emit, ret. intros [= <- <-].
    split; [reflexivity|]. split; [|split].
    + change (modes_of s2 self = rest). rewrite Hst2.
      apply modes_of_upd_modes_eq.
    + intros m Hne. change (modes_of s2 m = modes_of s m).
      rewrite Hst2. now apply modes_of_upd_modes_ne.
    + exists e1, [OnLastModePop self mode]. split; [|split; [assumption|]].
      * unfold logged. simpl. rewrite L1. simpl. now rewrite app_assoc.
      * reflexivity.
Qed.

(** [pop_mode] over plain modes, from any state. *)
Lemma pop_mode_plain_effect fuel self s rest mode :
  modes_of s self = rest ++ [mode] ->
  is_BaseMode s mode ->
  (forall cur, last rest = Some cur -> is_BaseMode s cur) ->
  exists s',
    pop_mode (S fuel) self s = Ok mode s'
    /\ modes_of s' self = rest
    /\ logged s s'
         (OnDeactivate mode ::
          match last rest with
          | None => [OnLastModePop self mode]
          | Some cur =>
              if decide (cur = mode) then [OnActivate cur]
              else if active (deref s cur) then [] else [OnActivate cur]
          end)
    /\ match last rest with
       | Some cur =>
           active (deref s' cur) = true
           /\ (cur <> mode ->
               deref s' mode = with_active false (deref s mode))
           /\ (cur = mode \/ active (deref s cur) = false ->
               manager (deref s' cur) = Some self)
       | None => deref s' mode = with_active false (deref s mode)
       end
    /\ (forall r, r <> mode -> last rest <> Some r -> deref s' r = deref s r).
Proof.
  intros Hm Hmode Hcur.
  rewrite (pop_mode_plain _ _ _ _ _ Hm Hmode Hcur).
  eexists. split; [reflexivity|]. cbv zeta.
  set (s1 := deactivated mode (upd_modes self rest s)).
  destruct (last rest) as [cur|] eqn:El.
  - assert (Hact : active (deref s1 cur)
                   = if decide (cur = mode) then false
                     else active (deref s cur)).
    { unfold s1. rewrite deref_deactivated.
      destruct (decide (mode = cur)) as [->|Hne].
      - now rewrite decide_True.
      - now rewrite decide_False by congruence. }
    split; [|split; [|split]].
    + rewrite modes_of_activated. apply modes_of_upd_modes_eq.
    + unfold logged. rewrite log_activated, Hact. simpl.
      rewrite <- app_assoc. simpl.
      destruct (decide (cur = mode)); [reflexivity|].
      now destruct (active (deref s cur)).
    + split; [apply active_activated|]. split.
      * intros Hne. rewrite deref_activated, decide_False by exact Hne.
        unfold s1. now rewrite deref_deactivated, decide_True.
      * intros Hcase. rewrite deref_activated, decide_True by reflexivity.
        rewrite Hact. destruct (decide (cur = mode)); [reflexivity|].
        destruct Hcase as [Heq | ->]; [contradiction|reflexivity].
    + intros r Hr1 Hr2. rewrite deref_activated, decide_False by congruence.
      unfold s1. now rewrite deref_deactivated, decide_False by congruence.
  - split; [|split; [|split]].
    + apply modes_of_upd_modes_eq.
    + unfold logged. simpl. now rewrite <- app_assoc.
    + rewrite deref_upd_log. unfold s1.
      now rewrite deref_deactivated, decide_True.
    + intros r Hr1 _. rewrite deref_upd_log. unfold s1.
      now rewrite deref_deactivated, decide_False by congruence.
Qed.

(** C4: [pop_mode] on an empty stack raises IndexError and changes
    nothing. On a stack [rest ++ [mode]], for modes of every class, a call
    that returns hands back [mode] and leaves the stack as [rest] and the
    other managers' stacks alone; it has run [mode.deactivate(self)], whose
    hook calls are deactivations ending with [on_deactivate] of [mode]
    itself and which leaves [mode] inactive; then, when a mode remains, it
    has run the [activate(self)] of the new top, whose hook calls are
    activations and which leaves the new top active, and when none remains
    it has made the single call [on_last_mode_pop(mode)], [mode] staying
    inactive. Conversely the call returns whenever these two steps do:
    [pop_mode] adds no failure of its own. For plain modes the call does
    return: it logs [on_deactivate] of the popped mode and leaves it
    inactive, then activates the new top (its [on_activate] is logged unless
    its flag was already set; it ends active) or, on an emptied stack, logs
    [on_last_mode_pop(mode)]; no other mode changes. From an empty stack,
    after [push_mode(A); push_mode(B)] the current mode is [B] with [A]
    inactive and [B] active, and [pop_mode()] returns [B], deactivates it
    and reactivates [A], which is then the current mode. *)
Theorem pop_mode_spec (fuel : nat) (self : manager_ref) (s : state) :
  (modes_of s self = [] -> pop_mode fuel self s = Raise IndexError s)
  /\ (forall rest mode r s',
        modes_of s self = rest ++ [mode] ->
        pop_mode fuel self s = Ok r s' ->
        r = mode
        /\ modes_of s' self = rest
        /\ (forall m, m <> self -> modes_of s' m = modes_of s m)
        /\ exists s1 evd tail,
             deactivate fuel mode self (upd_modes self rest s) = Ok tt s1
             /\ logged s s1 (evd ++ [OnDeactivate mode])
             /\ Forall is_OnDeactivate evd
             /\ active (deref s1 mode) = false
             /\ logged s1 s' tail
             /\ logged s s' (evd ++ OnDeactivate mode :: tail)
             /\ match last rest with
                | Some cur =>
                    activate fuel cur self s1 = Ok tt s'
                    /\ Forall is_OnActivate tail
                    /\ active (deref s' cur) = true
                | None =>
                    s' = upd_log (OnLastModePop self mode) s1
                    /\ tail = [OnLastModePop self mode]
                    /\ active (deref s' mode) = false
                end)
  /\ (forall rest mode s1,
        modes_of s self = rest ++ [mode] ->
        deactivate fuel mode self (upd_modes self rest s) = Ok tt s1 ->
        match last rest with
        | Some cur =>
            forall s', activate fuel cur self s1 = Ok tt s' ->
                       pop_mode fuel self s = Ok mode s'
        | None =>
            pop_mode fuel self s
            = Ok mode (upd_log (OnLastModePop self mode) s1)
        end)
  /\ (forall rest mode,
        modes_of s self = rest ++ [mode] ->
        is_BaseMode s mode ->
        (forall cur, last rest = Some cur -> is_BaseMode s cur) ->
        exists s',
          pop_mode (S fuel) self s = Ok mode s'
          /\ modes_of s' self = rest
          /\ logged s s'
               (OnDeactivate mode ::
                match last rest with
                | None => [OnLastModePop self mode]
                | Some cur =>
                    if decide (cur = mode) then [OnActivate cur]
                    else if active (deref s cur) then [] else [OnActivate cur]
                end)
          /\ match last rest with
             | Some cur =>
                 active (deref s' cur) = true
                 /\ (cur <> mode ->
                     deref s' mode = with_active false (deref s mode))
                 /\ (cur = mode \/ active (deref s cur) = false ->
                     manager (deref s' cur) = Some self)
             | None => deref s' mode = with_active false (deref s mode)
             end
          /\ (forall r, r <> mode -> last rest <> Some r ->
                        deref s' r = deref s r))
  /\ (forall A B,
        modes_of s self = [] ->
        is_BaseMode s A -> is_BaseMode s B -> A <> B ->
        active (deref s A) = false -> active (deref s B) = false ->
        exists s1 s2 s3,
          push_mode (S fuel) self A s = Ok tt s1
          /\ push_mode (S fuel) self B s1 = Ok tt s2
          /\ current_mode self s2 = Ok (Some B) s2
          /\ active (deref s2 A) = false
          /\ active (deref s2 B) = true
          /\ pop_mode (S fuel) self s2 = Ok B s3
          /\ logged s2 s3 [OnDeactivate B; OnActivate A]
          /\ current_mode self s3 = Ok (Some A) s3
          /\ active (deref s3 B) = false
          /\ active (deref s3 A) = true
          /\ manager (deref s3 A) = Some self).
Proof.
  split; [apply pop_mode_empty|].
  split.
  { intros rest mode r s' Hm Hpop.
    destruct (pop_mode_outcome _ _ _ _ _ _ _ Hm Hpop) as (Hr & Hst & Hoth & _).
    split; [exact Hr|]. split; [exact Hst|]. split; [exact Hoth|].
    destruct (pop_mode_effect _ _ _ _ _ _ _ Hm Hpop)
      as (s1 & evd & tail & Hd & L1 & F1 & Hoff & L2 & Hnext).
    exists s1, evd, tail. split; [exact Hd|]. split; [exact L1|].
    split; [exact F1|]. split; [exact Hoff|]. split; [exact L2|].
    split; [|exact Hnext].
    unfold logged in *. rewrite L2, L1. rewrite <- !app_assoc. reflexivity. }
  split.
  { intros rest mode s1 Hm Hd. destruct (last rest) as [cur|] eqn:El.
    - intros s' Ha. apply (pop_mode_returns _ _ _ _ _ _ _ Hm).
      split; [reflexivity|]. exists s1. split; [exact Hd|]. now rewrite El.
    - apply (pop_mode_returns _ _ _ _ _ _ _ Hm).
      split; [reflexivity|]. exists s1. split; [exact Hd|]. now rewrite El. }
  split; [intros rest mode; apply pop_mode_plain_effect|].
  intros A B Hm HA HB Hne HAi HBi.
  rewrite (push_mode_plain _ _ _ _ HA) by (rewrite Hm; discriminate).
  rewrite Hm. cbv zeta. cbn [last app].
  set (s1 := activated A self (upd_modes self [A] s)).
  assert (Hm1 : modes_of s1 self = [A]).
  { unfold s1. rewrite modes_of_activated. apply modes_of_upd_modes_eq. }
  assert (HA1 : is_BaseMode s1 A) by now apply is_BaseMode_activated.
  assert (HB1 : is_BaseMode s1 B) by now apply is_BaseMode_activated.
  assert (HBi1 : active (deref s1 B) = false).
  { unfold s1. rewrite deref_activated, decide_False by exact Hne.
    exact HBi. }
  exists s1.
  rewrite (push_mode_plain _ _ _ _ HB1)
    by (rewrite Hm1; cbn [last]; now intros cur [= <-]).
  rewrite Hm1. cbv zeta. cbn [last app].
  set (s2 := activated B self (upd_modes self [A; B] (deactivated A s1))).
  assert (Hm2 : modes_of s2 self = [A] ++ [B]).
  { unfold s2. rewrite modes_of_activated. apply modes_of_upd_modes_eq. }
  assert (HA2i : deref s2 A = with_active false (deref s1 A)).
  { unfold s2. rewrite deref_activated, decide_False by congruence.
    rewrite deref_upd_modes. now rewrite deref_deactivated, decide_True. }
  assert (HA2 : is_BaseMode s2 A).
  { apply is_BaseMode_activated. change (is_BaseMode (deactivated A s1) A).
    now apply is_BaseMode_deactivated. }
  assert (HB2 : is_BaseMode s2 B).
  { apply is_BaseMode_activated. change (is_BaseMode (deactivated A s1) B).
    now apply is_BaseMode_deactivated. }
  destruct (pop_mode_plain_effect fuel self s2 [A] B Hm2 HB2)
    as (s3 & Hpop & Hst3 & Hlog & Hcur & _).
  { cbn [last]. now intros cur [= <-]. }
  cbn [last] in Hlog, Hcur. destruct Hcur as (HA3 & HB3 & HA3m).
  exists s2, s3. split; [reflexivity|]. split; [reflexivity|].
  split; [unfold current_mode, bind, get_modes, ret; now rewrite Hm2|].
  split; [now rewrite HA2i|]. split; [apply active_activated|].
  split; [exact Hpop|]. split.
  { rewrite decide_False in Hlog by exact Hne.
    rewrite HA2i in Hlog. exact Hlog. }
  split; [unfold current_mode, bind, get_modes, ret; now rewrite Hst3|].
  split; [now rewrite HB3 by exact Hne|]. split; [exact HA3|].
  apply HA3m. right. now rewrite HA2i.
Qed.

(** ** Composite modes: [activate_next] and [remove_submode] *)

Lemma assert_true b s : b = true -> assert_ b s = Ok tt s.
Proof. intros ->. unfold assert_. now destruct debug. Qed.

Lemma activate_next_at_end fuel self s lm i :
  active_submode (deref s self) = Some lm ->
  list_index lm (submodes (deref s self)) = Some i ->
  S i = length (submodes (deref s self)) ->
  activate_next fuel self false s =
  (do! _activate_submode fuel self None in ret None) s.
Proof.
  intros Hsub Hidx Hlen. unfold activate_next, bind at 1, get_obj.
  assert (Hne : submodes (deref s self) <> []).
  { intros E. rewrite E in Hidx. discriminate. }
  unfold bind at 1. unfold assert_.
  rewrite bool_decide_eq_false_2 by exact Hne. simpl negb.
  rewrite Hsub, Hidx.
  rewrite decide_False by lia.
  destruct debug; reflexivity.
Qed.

Lemma preserves_weaken {A} (P Q : event -> Prop) (c : M A) :
  (forall e, P e -> Q e) ->
  preserves (hooks_only P) c -> preserves (hooks_only Q) c.
Proof.
  intros HPQ Hc s0. specialize (Hc s0).
  destruct (c s0) as [a s'|e s'|]; try exact I;
    destruct Hc as [H1 (evs & H2 & H3)]; (split; [exact H1|]);
    exists evs; (split; [exact H2|]);
    (eapply Forall_impl; [exact H3|exact HPQ]).
Qed.

Lemma preserves_deactivate_submode P fuel self clear :
  (forall e, is_OnDeactivate e -> P e) ->
  preserves (hooks_only P) (_deactivate_submode fuel self clear).
Proof.
  intros HP. unfold _deactivate_submode, _deactivate_submode_with,
    clear_subnode, deactivate_mode.
  repeat first
    [ preserves_step
    | eapply preserves_weaken; [exact HP|apply deactivate_preserves] ].
Qed.

(** C5, where the code departs from it: [activate_next(loop=False)] with
    the active submode in last position never returns. With assertions on,
    [_activate_submode(None)] stops at [assert submode in self.submodes]
    and raises AssertionError before anything has changed, so the active
    submode is not deactivated; with assertions off the call cannot return
    either (it ends at [None.step_rate]). In both cases every manager's
    stack is as before: the composite has not been removed. *)
Theorem activate_next_no_loop_never_returns fuel self s lm i :
  active_submode (deref s self) = Some lm ->
  list_index lm (submodes (deref s self)) = Some i ->
  S i = length (submodes (deref s self)) ->
  match activate_next fuel self false s with
  | Ok _ _ => False
  | Raise e s' =>
      stacks s' = stacks s
      /\ (debug = true -> e = AssertionError /\ s' = s)
  | OutOfFuel => debug = false
  end.
Proof.
  intros Hsub Hidx Hlen.
  rewrite (activate_next_at_end _ _ _ _ _ Hsub Hidx Hlen).
  unfold bind at 1, _activate_submode, bind at 1, get_obj.
  rewrite decide_False by (rewrite Hsub; discriminate).
  unfold bind at 1, assert_. destruct debug.
  - unfold raise. split; [reflexivity|]. intros _. split; reflexivity.
  - unfold ret at 1. unfold bind at 1.
    pose proof (preserves_deactivate_submode is_OnDeactivate fuel self true
                  (fun e H => H) s) as Hd.
    destruct (_deactivate_submode fuel self true s) as [[] s1|e s1|].
    + unfold bind, _set_active_submode, modify_obj, raise.
      destruct Hd as [Hd _]. split; [exact Hd|]. discriminate.
    + destruct Hd as [Hd _]. split; [exact Hd|]. discriminate.
    + reflexivity.
Qed.

(** The state in which [self] has [x] as its active submode, with [x]'s
    step rate copied: what [_set_active_submode(x)] leaves. *)
Definition submode_set (self x : mode_ref) (rate : option Z) (s : state)
  : state :=
  upd_obj self (with_step_rate (Some rate))
    (upd_obj self (with_active_submode (Some x)) s).

(** The state [clear_subnode] leaves. *)
Definition submode_cleared (self : mode_ref) (s : state) : state :=
  upd_obj self (with_step_rate (Some None))
    (upd_obj self (with_active_submode None) s).

Lemma step_rate_after_set self x f s :
  (forall o, step_rate (f o) = step_rate o) ->
  step_rate (deref (upd_obj self f s) x) = step_rate (deref s x).
Proof.
  intros Hf. rewrite deref_upd_obj. destruct (decide (self = x)) as [->|];
    [apply Hf|reflexivity].
Qed.

Lemma set_active_submode_Some self x rate s :
  step_rate (deref s x) = Some rate ->
  _set_active_submode self (Some x) s = Ok tt (submode_set self x rate s).
Proof.
  intros Hr. unfold _set_active_submode, bind, modify_obj, get_obj.
  rewrite step_rate_after_set by reflexivity. now rewrite Hr.
Qed.

(** [activate_next] on a composite with no active submode selects the first
    submode and returns it, for either value of [loop]. While the composite
    is inactive the submode's own activation is deferred. *)
Lemma activate_next_first_deferred fuel self loop s x rest rate :
  active_submode (deref s self) = None ->
  submodes (deref s self) = x :: rest ->
  step_rate (deref s x) = Some rate ->
  active (deref s self) = false ->
  activate_next fuel self loop s = Ok (Some x) (submode_set self x rate s).
Proof.
  intros Hsub Hl Hr Hina. unfold activate_next, bind at 1, get_obj.
  rewrite Hsub, Hl. unfold bind at 1.
  assert (Hass : forall b, b = true -> assert_ b s = Ok tt s).
  { intros b ->. unfold assert_. now destruct debug. }
  rewrite Hass by reflexivity.
  unfold bind at 1. unfold first_of, bind at 1, ret at 1. unfold ret at 1.
  unfold bind at 1, _activate_submode, bind at 1, get_obj.
  rewrite Hsub. rewrite decide_False by discriminate.
  unfold bind at 1. rewrite Hass
    by (rewrite Hl; apply bool_decide_eq_true; left).
  unfold bind at 1, _deactivate_submode, _deactivate_submode_with,
    bind at 1, get_obj. rewrite Hsub. unfold ret at 1.
  unfold bind at 1. rewrite (set_active_submode_Some _ _ _ _ Hr).
  unfold bind at 1, get_obj.
  assert (Hina' : active (deref (submode_set self x rate s) self) = false).
  { unfold submode_set. now rewrite !deref_upd_obj_eq. }
  rewrite Hina'. reflexivity.
Qed.


(** [activate_next(loop=True)] with the active submode in last position
    selects the first submode and returns it. When that is the active
    submode itself nothing happens; otherwise the active submode is
    cleared and replaced (and, the composite being inactive, no mode's
    [activate] or [deactivate] runs yet). *)
Lemma activate_next_loop_wraps fuel self s lm i x rest :
  active_submode (deref s self) = Some lm ->
  list_index lm (submodes (deref s self)) = Some i ->
  S i = length (submodes (deref s self)) ->
  submodes (deref s self) = x :: rest ->
  (x = lm -> activate_next fuel self true s = Ok (Some x) s)
  /\ (forall rate,
        x <> lm -> x <> self ->
        step_rate (deref s x) = Some rate ->
        active (deref s self) = false ->
        activate_next fuel self true s
        = Ok (Some x) (submode_set self x rate (submode_cleared self s))).
Proof.
  intros Hsub Hidx Hlen Hl.
  assert (Hstart : activate_next fuel self true s =
            (do! _activate_submode fuel self (Some x) in ret (Some x)) s).
  { unfold activate_next, bind at 1, get_obj. unfold bind at 1.
    rewrite assert_true
      by (rewrite Hl; now rewrite bool_decide_eq_false_2).
    rewrite Hsub, Hidx, decide_False by lia. rewrite Hl.
    reflexivity. }
  rewrite Hstart. split.
  - intros ->. unfold bind at 1, _activate_submode, bind at 1, get_obj.
    rewrite Hsub. now rewrite decide_True.
  - intros rate Hne Hself Hr Hina.
    unfold bind at 1, _activate_submode, bind at 1, get_obj.
    rewrite Hsub. rewrite decide_False by congruence.
    unfold bind at 1. rewrite assert_true
      by (rewrite Hl; apply bool_decide_eq_true; left).
    unfold bind at 1, _deactivate_submode, _deactivate_submode_with,
      bind at 1, get_obj. rewrite Hsub, Hina. unfold bind at 1, ret at 1.
    unfold clear_subnode, bind at 1, modify_obj.
    fold (submode_cleared self s).
    assert (Hr' : step_rate (deref (submode_cleared self s) x) = Some rate).
    { unfold submode_cleared. now rewrite !deref_upd_obj_ne by congruence. }
    unfold bind at 1. rewrite (set_active_submode_Some _ _ _ _ Hr').
    unfold bind at 1, get_obj.
    assert (Hina' : active (deref (submode_set self x rate
                                     (submode_cleared self s)) self) = false).
    { unfold submode_set, submode_cleared. now rewrite !deref_upd_obj_eq. }
    rewrite Hina'. reflexivity.
Qed.

(** [remove_submode()] on a composite with no active submode: the target
    is [None], which [submodes.remove] cannot find. The call never
    returns, whatever else it does on the way. *)
Lemma remove_submode_no_active_never_returns fuel self s :
  active_submode (deref s self) = None ->
  match remove_submode fuel self None s with
  | Ok _ _ => False
  | _ => True
  end.
Proof.
  intros Hsub. unfold remove_submode, bind at 1, get_obj. rewrite Hsub.
  unfold bind at 1.
  destruct (activate_next fuel self true s) as [next s1|e s1|];
    [|exact I|exact I].
  unfold bind, get_obj, raise. exact I.
Qed.

(** C6, where the code departs from it: on an inactive composite with no
    active submode the default target of [remove_submode()] is [None],
    which is not a member, yet the call is not a no-op. It first makes the
    first submode the active one and then raises ValueError at
    [self.submodes.remove(None)]; the submode list is as before. *)
Theorem remove_submode_default_target_missing fuel self s x rest rate :
  active_submode (deref s self) = None ->
  submodes (deref s self) = x :: rest ->
  step_rate (deref s x) = Some rate ->
  active (deref s self) = false ->
  exists s',
    remove_submode fuel self None s = Raise ValueError s'
    /\ active_submode (deref s' self) = Some x
    /\ submodes (deref s' self) = x :: rest
    /\ s' <> s.
Proof.
  intros Hsub Hl Hr Hina. unfold remove_submode, bind at 1, get_obj.
  rewrite Hsub. unfold bind at 1.
  rewrite (activate_next_first_deferred _ _ _ _ _ _ _ Hsub Hl Hr Hina).
  unfold bind, get_obj, raise. eexists. split; [reflexivity|].
  assert (Ha : active_submode (deref (submode_set self x rate s) self) = Some x).
  { unfold submode_set. now rewrite !deref_upd_obj_eq. }
  split; [exact Ha|]. split.
  - unfold submode_set. rewrite !deref_upd_obj_eq. exact Hl.
  - intros E. rewrite E in Ha. congruence.
Qed.

(** [activate_next] with the active submode before the last position
    selects the submode that follows it, for either value of [loop]. *)
Lemma activate_next_advances fuel self loop s lm i x rate :
  active_submode (deref s self) = Some lm ->
  list_index lm (submodes (deref s self)) = Some i ->
  submodes (deref s self) !! S i = Some x ->
  x <> lm -> x <> self ->
  step_rate (deref s x) = Some rate ->
  active (deref s self) = false ->
  activate_next fuel self loop s
  = Ok (Some x) (submode_set self x rate (submode_cleared self s)).
Proof.
  intros Hsub Hidx Hx Hne Hself Hr Hina.
  assert (Hlt : (S i < length (submodes (deref s self)))%nat)
    by (apply lookup_lt_is_Some; eauto).
  assert (Hin : x ∈ submodes (deref s self))
    by (apply list_elem_of_lookup; eauto).
  unfold activate_next, bind at 1, get_obj. unfold bind at 1.
  rewrite assert_true.
  2:{ apply negb_true_iff, bool_decide_eq_false. intros E.
      rewrite E in Hidx. discriminate. }
  rewrite Hsub, Hidx, decide_True by exact Hlt. rewrite Hx.
  unfold bind at 1, ret at 1.
  unfold bind at 1, _activate_submode, bind at 1, get_obj.
  rewrite Hsub. rewrite decide_False by congruence.
  unfold bind at 1. rewrite assert_true by now apply bool_decide_eq_true.
  unfold bind at 1, _deactivate_submode, _deactivate_submode_with,
    bind at 1, get_obj. rewrite Hsub, Hina. unfold bind at 1, ret at 1.
  unfold clear_subnode, bind at 1, modify_obj.
  fold (submode_cleared self s).
  assert (Hr' : step_rate (deref (submode_cleared self s) x) = Some rate).
  { unfold submode_cleared. now rewrite !deref_upd_obj_ne by congruence. }
  unfold bind at 1. rewrite (set_active_submode_Some _ _ _ _ Hr').
  unfold bind at 1, get_obj.
  assert (Hina' : active (deref (submode_set self x rate
                                   (submode_cleared self s)) self) = false).
  { unfold submode_set, submode_cleared. now rewrite !deref_upd_obj_eq. }
  rewrite Hina'. reflexivity.
Qed.

End WithDebug.

(** ** Scenarios: three plain modes, one composite, one manager *)

Definition mX : mode_ref := 1%nat.
Definition mY : mode_ref := 2%nat.
Definition mZ : mode_ref := 3%nat.
Definition multi : mode_ref := 10%nat.
Definition mgr : manager_ref := 0%nat.

(** A plain mode of a class that defines [step_rate = 60]. *)
Definition plain : mode_obj := BaseMode_init (Some (Some 60)).

(** Three fresh plain modes, a fresh composite over [subs], and a manager
    with an empty stack. *)
Definition world (subs : list mode_ref) : state :=
  {| objs := <[mX := plain]> (<[mY := plain]> (<[mZ := plain]>
               (<[multi := BaseMulti_init subs]> ∅)));
     stacks := ∅;
     log := [] |}.

(** What a test would look at after a call: the value or exception, the
    manager's stack, the composite, the three modes' flags and the log. *)
Definition observe {A} (r : result A)
  : option ((A + exn) * list mode_ref * mode_obj * list bool * list event) :=
  let view (x : A + exn) s :=
    (x, modes_of s mgr, deref s multi,
     [active (deref s mX); active (deref s mY); active (deref s mZ)],
     log s) in
  match r with
  | Ok a s => Some (view (inl a) s)
  | Raise e s => Some (view (inr e) s)
  | OutOfFuel => None
  end.

(** The state a computation ends in, returned or raised. *)
Definition final_state {A} (c : M A) (s : state) : state :=
  match c s with
  | Ok _ s' => s'
  | Raise _ s' => s'
  | OutOfFuel => s
  end.

(** Three [activate_next()] calls in a row. *)
Definition next3 (debug : bool) : M (list (option mode_ref)) :=
  let! a := activate_next debug 5 multi true in
  let! b := activate_next debug 5 multi true in
  let! c := activate_next debug 5 multi true in
  ret [a; b; c].

(** The composite over [X, Y, Z] with [Z] active: off any manager, and as
    the only mode on the manager's stack. *)
Definition at_Z_detached : state :=
  final_state (next3 true) (world [mX; mY; mZ]).
Definition at_Z_on_stack : state :=
  final_state (do! push_mode true 5 mgr multi in
               do! activate_next true 5 multi true in
               activate_next true 5 multi true) (world [mX; mY; mZ]).

Example mode_stack_lifo :
  observe ((do! push_mode true 5 mgr mX in
            do! push_mode true 5 mgr mY in
            pop_mode true 5 mgr) (world []))
  = Some (inl mY, [mX], BaseMulti_init [], [true; false; false],
          [OnActivate mX; OnDeactivate mX; OnActivate mY;
           OnDeactivate mY; OnActivate mX]).
Proof. vm_compute. reflexivity. Qed.

Example swap_semantics :
  observe ((do! push_mode true 5 mgr mX in swap_modes true 5 mgr mY) (world []))
  = Some (inl mX, [mY], BaseMulti_init [], [false; true; false],
          [OnActivate mX; OnDeactivate mX; OnActivate mY]).
Proof. vm_compute. reflexivity. Qed.

Example composite_wraparound :
  (exists s, next3 true (world [mX; mY; mZ])
             = Ok [Some mX; Some mY; Some mZ] s)
  /\ (exists s, activate_next true 5 multi true at_Z_detached = Ok (Some mX) s)
  /\ activate_next true 5 multi false at_Z_detached
     = Raise AssertionError at_Z_detached.
Proof.
  split; [|split]; [eexists; vm_compute; reflexivity ..|].
  vm_compute. reflexivity.
Qed.

(** On the manager's stack the failing call leaves the composite on the
    stack with [Z] still active; without assertions it deactivates [Z],
    forgets the active submode and stops at [None.step_rate], the composite
    still on the stack. *)
Example no_loop_at_end_on_stack :
  activate_next true 5 multi false at_Z_on_stack
  = Raise AssertionError at_Z_on_stack
  /\ modes_of at_Z_on_stack mgr = [multi]
  /\ observe (activate_next false 5 multi false at_Z_on_stack)
     = Some (inr AttributeError, [multi],
             {| class := BaseMulti; active := true; manager := Some mgr;
                step_rate := Some None; submodes := [mX; mY; mZ];
                active_submode := None |},
             [false; false; false],
             [OnActivate mX; OnActivate multi; OnDeactivate mX;
              OnActivate mY; OnDeactivate mY; OnActivate mZ;
              OnDeactivate mZ]).
Proof. split; [|split]; vm_compute; reflexivity. Qed.

(** A composite with the single submode [X], pushed on the manager:
    [remove_submode()] removes [X] and pops the composite. *)
Example remove_only_submode :
  observe ((do! push_mode true 5 mgr multi in
            remove_submode true 5 multi None) (world [mX]))
  = Some (inl tt, [],
          {| class := BaseMulti; active := false; manager := Some mgr;
             step_rate := Some None; submodes := [];
             active_submode := None |},
          [false; false; false],
          [OnActivate mX; OnActivate multi; OnDeactivate mX;
           OnDeactivate multi; OnLastModePop mgr multi]).
Proof. vm_compute. reflexivity. Qed.

(** The same call on the composite before anything selected a submode. *)
Example remove_submode_fresh_composite :
  observe (remove_submode true 5 multi None (world [mX]))
  = Some (inr ValueError, [],
          {| class := BaseMulti; active := false; manager := None;
             step_rate := Some (Some 60); submodes := [mX];
             active_submode := Some mX |},
          [false; false; false], []).
Proof. vm_compute. reflexivity. Qed.

(** A composite over [X, Y] on the stack with [X] active:
    [remove_submode(Y)] switches to [Y], removes it, finds that the mode it
    switched to is the one removed, and pops the composite although [X] is
    still a submode. *)
Example remove_submode_pops_nonempty_composite :
  observe ((do! push_mode true 5 mgr multi in
            remove_submode true 5 multi (Some mY)) (world [mX; mY]))
  = Some (inl tt, [],
          {| class := BaseMulti; active := false; manager := Some mgr;
             step_rate := Some None; submodes := [mX];
             active_submode := None |},
          [false; false; false],
          [OnActivate mX; OnActivate multi; OnDeactivate mX; OnActivate mY;
           OnDeactivate mY; OnDeactivate multi; OnLastModePop mgr multi]).
Proof. vm_compute. reflexivity. Qed.

(** The manager's stack holding [X] beneath [Y]. *)
Definition stack_XY : state :=
  final_state (do! push_mode true 5 mgr mX in push_mode true 5 mgr mY)
              (world []).

Lemma BaseMode_activate_idempotent_witness :
  BaseMode_activate mY mgr stack_XY = Ok tt stack_XY
  /\ exists s',
       BaseMode_activate mX mgr stack_XY = Ok tt s'
       /\ log s' = log stack_XY ++ [OnActivate mX]
       /\ deref s' mX
          = with_active true (with_manager (Some mgr) (deref stack_XY mX))
       /\ (forall r, r <> mX -> deref s' r = deref stack_XY r)
       /\ stacks s' = stacks stack_XY.
Proof.
  split.
  - apply (proj1 (BaseMode_activate_idempotent mY mgr stack_XY)).
    vm_compute. reflexivity.
  - apply (proj1 (proj2 (BaseMode_activate_idempotent mX mgr stack_XY))).
    vm_compute. reflexivity.
Defined.

(** A composite over [X] pushed on top of the plain mode [Z]. *)
Definition stack_Z_multi : state :=
  final_state (do! push_mode true 5 mgr mZ in push_mode true 5 mgr multi)
              (world [mX]).

Example pop_and_swap_composite :
  observe (pop_mode true 5 mgr stack_Z_multi)
  = Some (inl multi, [mZ],
          {| class := BaseMulti; active := false; manager := Some mgr;
             step_rate := Some (Some 60); submodes := [mX];
             active_submode := Some mX |},
          [false; false; true],
          [OnActivate mZ; OnDeactivate mZ; OnActivate mX; OnActivate multi;
           OnDeactivate mX; OnDeactivate multi; OnActivate mZ])
  /\ observe (swap_modes true 5 mgr mY stack_Z_multi)
     = Some (inl multi, [mZ; mY],
             {| class := BaseMulti; active := false; manager := Some mgr;
                step_rate := Some (Some 60); submodes := [mX];
                active_submode := Some mX |},
             [false; true; false],
             [OnActivate mZ; OnDeactivate mZ; OnActivate mX; OnActivate multi;
              OnDeactivate mX; OnDeactivate multi; OnActivate mY])
  /\ observe ((do! push_mode true 5 mgr mZ in swap_modes true 5 mgr multi)
                (world [mX]))
     = Some (inl mZ, [multi],
             {| class := BaseMulti; active := true; manager := Some mgr;
                step_rate := Some (Some 60); submodes := [mX];
                active_submode := Some mX |},
             [true; false; false],
             [OnActivate mZ; OnDeactivate mZ; OnActivate mX;
              OnActivate multi]).
Proof. split; [|split]; vm_compute; reflexivity. Qed.

Lemma pop_mode_spec_witness :
  pop_mode true 4 mgr (world []) = Raise IndexError (world [])
  /\ (exists s',
        pop_mode true 5 mgr stack_XY = Ok mY s'
        /\ modes_of s' mgr = [mX]
        /\ logged stack_XY s' [OnDeactivate mY; OnActivate mX])
  /\ (exists s1 s2 s3,
        push_mode true 5 mgr mX (world []) = Ok tt s1
        /\ push_mode true 5 mgr mY s1 = Ok tt s2
        /\ current_mode mgr s2 = Ok (Some mY) s2
        /\ active (deref s2 mX) = false
        /\ active (deref s2 mY) = true
        /\ pop_mode true 5 mgr s2 = Ok mY s3
        /\ logged s2 s3 [OnDeactivate mY; OnActivate mX]
        /\ current_mode mgr s3 = Ok (Some mX) s3
        /\ active (deref s3 mY) = false
        /\ active (deref s3 mX) = true
        /\ manager (deref s3 mX) = Some mgr)
  /\ (exists s' s1 evd tail,
        pop_mode true 5 mgr stack_Z_multi = Ok multi s'
        /\ modes_of s' mgr = [mZ]
        /\ deactivate 5 multi mgr (upd_modes mgr [mZ] stack_Z_multi)
           = Ok tt s1
        /\ logged stack_Z_multi s1 (evd ++ [OnDeactivate multi])
        /\ active (deref s1 multi) = false
        /\ activate true 5 mZ mgr s1 = Ok tt s'
        /\ Forall is_OnActivate tail
        /\ active (deref s' mZ) = true
        /\ logged stack_Z_multi s' (evd ++ OnDeactivate multi :: tail)).
Proof.
  split; [|split; [|split]].
  - apply (proj1 (pop_mode_spec true 4 mgr (world []))).
    vm_compute. reflexivity.
  - destruct (proj1 (proj2 (proj2 (proj2 (pop_mode_spec true 4 mgr
                                          stack_XY))))
                [mX] mY) as (s' & Hpop & Hst & Hlog & _).
    + vm_compute. reflexivity.
    + vm_compute. reflexivity.
    + intros cur [= <-]. vm_compute. reflexivity.
    + exists s'. split; [exact Hpop|]. split; [exact Hst|]. exact Hlog.
  - apply (proj2 (proj2 (proj2 (proj2 (pop_mode_spec true 4 mgr
                                         (world []))))) mX mY);
      try (vm_compute; reflexivity).
    discriminate.
  - assert (Hpop : exists s', pop_mode true 5 mgr stack_Z_multi = Ok multi s')
      by (eexists; vm_compute; reflexivity).
    destruct Hpop as [s' Hpop].
    destruct (proj1 (proj2 (pop_mode_spec true 5 mgr stack_Z_multi))
                [mZ] multi multi s')
      as (_ & Hst & _ & s1 & evd & tail & Hd & L1 & _ & Hoff & _ & L & Hnext).
    + vm_compute. reflexivity.
    + exact Hpop.
    + cbn [last] in Hnext. destruct Hnext as (Ha & Ftail & Hon).
      exists s', s1, evd, tail. split; [exact Hpop|]. split; [exact Hst|].
      split; [exact Hd|]. split; [exact L1|]. split; [exact Hoff|].
      split; [exact Ha|]. split; [exact Ftail|]. split; [exact Hon|exact L].
Defined.

Lemma swap_modes_spec_witness :
  swap_modes true 4 mgr mZ (world []) = Raise IndexError (world [])
  /\ (exists s',
        swap_modes true 5 mgr mZ stack_XY = Ok mY s'
        /\ modes_of s' mgr = [mX; mZ]
        /\ logged stack_XY s' [OnDeactivate mY; OnActivate mZ]
        /\ deref s' mX = deref stack_XY mX)
  /\ (exists s1 s2,
        push_mode true 5 mgr mX (world []) = Ok tt s1
        /\ swap_modes true 5 mgr mZ s1 = Ok mX s2
        /\ modes_of s2 mgr = [mZ]
        /\ active (deref s2 mX) = false
        /\ active (deref s2 mZ) = true
        /\ logged (world []) s2 [OnActivate mX; OnDeactivate mX; OnActivate mZ])
  /\ (exists s' s1 evd eva,
        swap_modes true 5 mgr mY stack_Z_multi = Ok multi s'
        /\ modes_of s' mgr = [mZ; mY]
        /\ deactivate 5 multi mgr (upd_modes mgr [mZ] stack_Z_multi)
           = Ok tt s1
        /\ logged stack_Z_multi s1 (evd ++ [OnDeactivate multi])
        /\ active (deref s1 multi) = false
        /\ activate true 5 mY mgr (upd_modes mgr [mZ; mY] s1) = Ok tt s'
        /\ Forall is_OnActivate eva
        /\ active (deref s' mY) = true
        /\ logged stack_Z_multi s' (evd ++ OnDeactivate multi :: eva)).
Proof.
  split; [|split; [|split]].
  - apply (proj1 (swap_modes_spec true 4 mgr mZ (world []))).
    vm_compute. reflexivity.
  - destruct (proj1 (proj2 (proj2 (proj2 (swap_modes_spec true 4 mgr mZ
                                          stack_XY))))
                [mX] mY) as (s' & Hswap & Hst & Hlog & _ & _ & _ & Hframe).
    + vm_compute. reflexivity.
    + vm_compute. reflexivity.
    + vm_compute. reflexivity.
    + exists s'. split; [exact Hswap|]. split; [exact Hst|].
      split; [exact Hlog|]. apply Hframe; discriminate.
  - apply (proj2 (proj2 (proj2 (proj2 (swap_modes_spec true 4 mgr mZ
                                         (world []))))) mX);
      try (vm_compute; reflexivity).
    discriminate.
  - assert (Hswap : exists s',
              swap_modes true 5 mgr mY stack_Z_multi = Ok multi s')
      by (eexists; vm_compute; reflexivity).
    destruct Hswap as [s' Hswap].
    destruct (proj1 (proj2 (swap_modes_spec true 5 mgr mY stack_Z_multi))
                [mZ] multi multi s')
      as (_ & Hst & _ & s1 & evd & eva & Hd & L1 & _ & Hoff & Ha & _ & Fa
          & Hon & L & _).
    + vm_compute. reflexivity.
    + exact Hswap.
    + exists s', s1, evd, eva. split; [exact Hswap|]. split; [exact Hst|].
      split; [exact Hd|]. split; [exact L1|]. split; [exact Hoff|].
      split; [exact Ha|]. split; [exact Fa|]. split; [exact Hon|exact L].
Defined.

Lemma activate_next_no_loop_never_returns_witness :
  activate_next true 5 multi false at_Z_on_stack
  = Raise AssertionError at_Z_on_stack.
Proof.
  pose proof (activate_next_no_loop_never_returns true 5 multi at_Z_on_stack
                mZ 2) as H.
  destruct (activate_next true 5 multi false at_Z_on_stack) as [r s'|e s'|].
  - exfalso. apply H; vm_compute; reflexivity.
  - destruct H as (_ & H); [vm_compute; reflexivity ..|].
    destruct (H eq_refl) as [-> ->]. reflexivity.
  - discriminate H; vm_compute; reflexivity.
Defined.

Lemma remove_submode_default_target_missing_witness :
  exists s',
    remove_submode true 5 multi None (world [mX]) = Raise ValueError s'
    /\ active_submode (deref s' multi) = Some mX
    /\ submodes (deref s' multi) = [mX]
    /\ s' <> world [mX].
Proof.
  apply (remove_submode_default_target_missing true 5 multi (world [mX])
           mX [] (Some 60)); vm_compute; reflexivity.
Defined.

(** ** The rest of [BaseMulti]: adding submodes, direct activation, stepping
    backwards *)

(** [l.insert(index, x)] for a Python integer index: a negative index
    counts from the end, and an index beyond either end is clamped. *)
Definition list_insert_py {A} (index : Z) (x : A) (l : list A) : list A :=
  let n := Z.of_nat (length l) in
  let j := if decide (index < 0) then Z.max 0 (index + n) else Z.min index n in
  take (Z.to_nat j) l ++ x :: drop (Z.to_nat j) l.

(** [l[index]] for a Python integer index; [None] stands for IndexError. *)
Definition list_get_py {A} (index : Z) (l : list A) : option A :=
  let n := Z.of_nat (length l) in
  if decide (0 <= index) then l !! Z.to_nat index
  else if decide (0 <= index + n) then l !! Z.to_nat (index + n)
  else None.

Definition subscript {A} (index : Z) (l : list A) : M A :=
  match list_get_py index l with
  | Some x => ret x
  | None => raise IndexError
  end.

Section MoreModes.

Variable debug : bool.

(** [add_submode(self, mode, before=None, index=None)]. With [before]
    given, the index is looked up as [self.submodes.index(mode)]. *)
Definition add_submode (self mode : mode_ref) (before : option mode_ref)
    (index : option Z) : M unit :=
  do! assert_ debug (match before, index with
                     | Some _, Some _ => false
                     | _, _ => true
                     end) in
  let! o := get_obj self in
  let! index' :=
    match before with
    | Some _ =>
        match list_index mode (submodes o) with
        | Some i => ret (Some (Z.of_nat i))
        | None => raise ValueError
        end
    | None => ret index
    end in
  match index' with
  | Some i => modify_obj self (with_submodes (list_insert_py i mode (submodes o)))
  | None => modify_obj self (with_submodes (submodes o ++ [mode]))
  end.

(** [activate_subnode(self, mode, before=None, index=None)]. *)
Definition activate_subnode (fuel : nat) (self mode : mode_ref)
    (before : option mode_ref) (index : option Z) : M unit :=
  let! o := get_obj self in
  do! (if decide (mode ∈ submodes o) then ret tt
       else add_submode self mode before index) in
  let! o' := get_obj self in
  if decide (active_submode o' = Some mode) then ret tt
  else _activate_submode debug fuel self (Some mode).

(** [activate_previous(self, loop=True)]. *)
Definition activate_previous (fuel : nat) (self : mode_ref) (loop : bool)
  : M (option mode_ref) :=
  let! o := get_obj self in
  do! assert_ debug (negb (bool_decide (submodes o = []))) in
  let! prev_mode :=
    match active_submode o with
    | None => let! sub := subscript (-1) (submodes o) in ret (Some sub)
    | Some last_mode =>
        match list_index last_mode (submodes o) with
        | None => raise ValueError
        | Some i =>
            let index := Z.of_nat i - 1 in
            if loop || bool_decide (0 <= index) then
              let! sub := subscript index (submodes o) in ret (Some sub)
            else ret None
        end
    end in
  do! _activate_submode debug fuel self prev_mode in
  ret prev_mode.


(** ** Further facts about the mode stack *)

Lemma last_remove_first_keeps_top (mode top : mode_ref)
    (modes modes' : list mode_ref) :
  last modes = Some top -> top <> mode \/ last modes <> Some mode ->
  list_remove_first mode modes = Some modes' ->
  last modes' = Some top.
Proof.
  intros Hl Hne Hr. apply list_remove_first_Some in Hr
    as (l1 & l2 & -> & _ & ->).
  assert (Htop : top <> mode).
  { destruct Hne as [H|H]; [exact H|]. intros ->. now apply H. }
  destruct l2 as [|y l2 _] using rev_ind.
  - rewrite last_snoc in Hl. congruence.
  - rewrite app_comm_cons, app_assoc, last_snoc in Hl.
    now rewrite app_assoc, last_snoc.
Qed.

(** X7: [remove_mode]. When the mode is the current one the call is
    [pop_mode] with the result dropped. Otherwise, when the mode is on the
    stack, its first occurrence is taken out and nothing else happens: no
    hook runs, no mode object changes, the top stays the top. When it is not
    on the stack at all the call returns with the state it was given. *)
Theorem remove_mode_spec (fuel : nat) (self : manager_ref) (mode : mode_ref)
    (s : state) :
  (last (modes_of s self) = Some mode ->
   remove_mode debug fuel self mode s
   = (do! pop_mode debug fuel self in ret tt) s)
  /\ (mode ∉ modes_of s self -> remove_mode debug fuel self mode s = Ok tt s)
  /\ (last (modes_of s self) <> Some mode -> mode ∈ modes_of s self ->
      exists before after s',
        modes_of s self = before ++ mode :: after
        /\ (mode ∉ before)
        /\ remove_mode debug fuel self mode s = Ok tt s'
        /\ modes_of s' self = before ++ after
        /\ last (modes_of s' self) = last (modes_of s self)
        /\ objs s' = objs s
        /\ log s' = log s
        /\ (forall m, m <> self -> modes_of s' m = modes_of s m)).
Proof.
  assert (Hstart : remove_mode debug fuel self mode s =
            (if decide (last (modes_of s self) = Some mode)
             then do! pop_mode debug fuel self in ret tt
             else let! modes := get_modes self in
                  match list_remove_first mode modes with
                  | Some modes' => set_modes self modes'
                  | None => ret tt
                  end) s).
  { unfold remove_mode, bind at 1, current_mode, bind at 1, get_modes at 1.
    unfold ret at 1. reflexivity. }
  rewrite Hstart. clear Hstart. unfold get_modes, set_modes, ret.
  split; [|split].
  - intros ->. now rewrite decide_True.
  - intros Hn.
    assert (Hl : last (modes_of s self) <> Some mode).
    { intros Hl. apply Hn. apply last_Some in Hl as [l' ->].
      apply elem_of_app. right. left. }
    rewrite decide_False by exact Hl. unfold bind.
    apply list_remove_first_None in Hn. now rewrite Hn.
  - intros Hl Hin. rewrite decide_False by exact Hl. unfold bind.
    destruct (list_remove_first mode (modes_of s self)) as [l'|] eqn:E.
    2:{ apply list_remove_first_None in E. contradiction. }
    pose proof E as E'. apply list_remove_first_Some in E'
      as (before & after & Hm & Hnb & ->).
    exists before, after. eexists. split; [exact Hm|]. split; [exact Hnb|].
    split; [reflexivity|]. split; [apply modes_of_upd_modes_eq|].
    split; [|split; [reflexivity|split; [reflexivity|]]].
    + rewrite modes_of_upd_modes_eq.
      destruct (last (modes_of s self)) as [top|] eqn:Et.
      * eapply last_remove_first_keeps_top; [exact Et| |exact E].
        right. rewrite Et. exact Hl.
      * apply last_None in Et. rewrite Et in Hm. now destruct before.
    + intros m Hne. now apply modes_of_upd_modes_ne.
Qed.

(** X8: [push_mode], for modes of every class. A call that returns has put
    the mode on top of the stack it found, left the other managers' stacks
    alone, and called only [on_deactivate] hooks followed by [on_activate]
    hooks (never [on_last_mode_pop]); on an empty stack nothing is
    deactivated. For plain modes the call does return: the old top, if any,
    gets [on_deactivate] and ends inactive, the pushed mode ends active, and
    no other mode changes. *)
Theorem push_mode_spec (fuel : nat) (self : manager_ref) (mode : mode_ref)
    (s : state) :
  (forall s',
     push_mode debug fuel self mode s = Ok tt s' ->
     modes_of s' self = modes_of s self ++ [mode]
     /\ (forall m, m <> self -> modes_of s' m = modes_of s m)
     /\ exists evd eva,
          logged s s' (evd ++ eva)
          /\ Forall is_OnDeactivate evd
          /\ Forall is_OnActivate eva
          /\ (modes_of s self = [] -> evd = []))
  /\ (is_BaseMode s mode ->
      (forall cur, last (modes_of s self) = Some cur -> is_BaseMode s cur) ->
      exists s',
        push_mode debug (S fuel) self mode s = Ok tt s'
        /\ current_mode self s' = Ok (Some mode) s'
        /\ active (deref s' mode) = true
        /\ (forall cur, last (modes_of s self) = Some cur -> cur <> mode ->
              deref s' cur = with_active false (deref s cur))
        /\ (forall r, r <> mode -> last (modes_of s self) <> Some r ->
              deref s' r = deref s r)).
Proof.
  split.
  - intros s'. unfold push_mode, bind at 1, current_mode, bind at 1.
    unfold get_modes at 1, ret at 1.
    assert (Hd : exists evd,
              Forall is_OnDeactivate evd
              /\ (modes_of s self = [] -> evd = [])
              /\ match (match last (modes_of s self) with
                        | Some cur => deactivate_mode fuel self cur
                        | None => ret tt
                        end) s with
                 | Ok _ s1 => stacks s1 = stacks s /\ log s1 = log s ++ evd
                 | _ => True
                 end).
    { destruct (last (modes_of s self)) as [cur|] eqn:El.
      - pose proof (deactivate_preserves fuel cur self s) as H.
        unfold deactivate_mode.
        destruct (deactivate fuel cur self s) as [[] s1|e s1|].
        + destruct H as [H1 (evd & H2 & H3)]. exists evd.
          split; [exact H3|]. split; [|auto].
          intros E. rewrite E in El. discriminate.
        + exists []. split; [constructor|]. split; [reflexivity|exact I].
        + exists []. split; [constructor|]. split; [reflexivity|exact I].
      - exists []. split; [constructor|]. split; [reflexivity|].
        unfold ret. split; [reflexivity|]. now rewrite app_nil_r. }
    destruct Hd as (evd & Fd & Hempty & Hd). unfold bind at 1.
    destruct ((match last (modes_of s self) with
               | Some cur => deactivate_mode fuel self cur
               | None => ret tt
               end) s) as [[] s1|e s1|]; [|discriminate|discriminate].
    destruct Hd as [Hst1 Hlog1].
    unfold bind at 1, get_modes. unfold bind, set_modes, activate_mode.
    assert (Hm1 : forall m, modes_of s1 m = modes_of s m)
      by (intros m; unfold modes_of; now rewrite Hst1).
    pose proof (activate_preserves debug fuel mode self
                  (upd_modes self (modes_of s1 self ++ [mode]) s1)) as Ha.
    destruct (activate debug fuel mode self
                (upd_modes self (modes_of s1 self ++ [mode]) s1))
      as [[] s2|e s2|]; [|discriminate|discriminate].
    intros [= <-]. destruct Ha as [Hst2 (eva & Hlog2 & Fa)].
    assert (Hm2 : forall m, modes_of s2 m
                  = modes_of (upd_modes self (modes_of s1 self ++ [mode]) s1) m)
      by (intros m; unfold modes_of; now rewrite Hst2).
    split; [|split].
    + rewrite Hm2, modes_of_upd_modes_eq. now rewrite Hm1.
    + intros m Hne. rewrite Hm2, modes_of_upd_modes_ne by exact Hne.
      apply Hm1.
    + exists evd, eva. split; [|auto]. unfold logged.
      rewrite Hlog2. simpl. rewrite Hlog1. now rewrite app_assoc.
  - intros Hmode Hcur. rewrite (push_mode_plain _ _ _ _ _ Hmode Hcur).
    eexists. split; [reflexivity|]. cbv zeta.
    set (s1 := match last (modes_of s self) with
               | Some cur => deactivated cur s
               | None => s
               end).
    split; [|split; [apply active_activated|split]].
    + unfold current_mode, bind, get_modes, ret.
      rewrite modes_of_activated, modes_of_upd_modes_eq. now rewrite last_snoc.
    + intros cur Hl Hne. rewrite deref_activated, decide_False by congruence.
      rewrite deref_upd_modes. unfold s1. rewrite Hl.
      now rewrite deref_deactivated, decide_True.
    + intros r Hr Hl. rewrite deref_activated, decide_False by congruence.
      rewrite deref_upd_modes. unfold s1.
      destruct (last (modes_of s self)) as [cur|]; [|reflexivity].
      rewrite deref_deactivated, decide_False; [reflexivity|congruence].
Qed.

Lemma modes_of_deactivated r s m :
  modes_of (deactivated r s) m = modes_of s m.
Proof. reflexivity. Qed.

Lemma is_BaseMode_upd_modes m l s r :
  is_BaseMode (upd_modes m l s) r <-> is_BaseMode s r.
Proof. reflexivity. Qed.

(** X9: pushing a plain mode and popping again is a round trip for the
    stack. [pop_mode] hands back the mode pushed, the stack is the one
    [push_mode] found, the mode that was on top is active again (and, if
    it was active and bound to this manager before, is exactly as before),
    the pushed mode ends inactive, and no other mode has changed. *)
Theorem push_pop_round_trip (fuel : nat) (self : manager_ref)
    (mode : mode_ref) (s : state) :
  is_BaseMode s mode ->
  (forall cur, last (modes_of s self) = Some cur -> is_BaseMode s cur) ->
  exists s1 s2,
    push_mode debug (S fuel) self mode s = Ok tt s1
    /\ pop_mode debug (S fuel) self s1 = Ok mode s2
    /\ modes_of s2 self = modes_of s self
    /\ (forall m, m <> self -> modes_of s2 m = modes_of s m)
    /\ (forall cur, last (modes_of s self) = Some cur ->
          active (deref s2 cur) = true
          /\ (cur <> mode -> active (deref s cur) = true ->
              manager (deref s cur) = Some self ->
              deref s2 cur = deref s cur))
    /\ (last (modes_of s self) <> Some mode ->
        active (deref s2 mode) = false)
    /\ (forall r, r <> mode -> last (modes_of s self) <> Some r ->
          deref s2 r = deref s r).
Proof.
  intros Hmode Hcur. rewrite (push_mode_plain _ _ _ _ _ Hmode Hcur). cbv zeta.
  set (s0 := match last (modes_of s self) with
             | Some cur => deactivated cur s
             | None => s
             end).
  set (s1 := activated mode self
               (upd_modes self (modes_of s self ++ [mode]) s0)).
  assert (Hplain0 : forall r, is_BaseMode s0 r <-> is_BaseMode s r).
  { intros r. unfold s0. destruct (last (modes_of s self));
      [apply is_BaseMode_deactivated|reflexivity]. }
  assert (Hplain1 : forall r, is_BaseMode s1 r <-> is_BaseMode s r).
  { intros r. unfold s1. rewrite is_BaseMode_activated, is_BaseMode_upd_modes.
    apply Hplain0. }
  assert (Hm1 : modes_of s1 self = modes_of s self ++ [mode]).
  { unfold s1. rewrite modes_of_activated. apply modes_of_upd_modes_eq. }
  assert (Hd0 : forall r, deref s0 r =
            if decide (last (modes_of s self) = Some r)
            then with_active false (deref s r) else deref s r).
  { intros r. unfold s0. destruct (last (modes_of s self)) as [cur|].
    - rewrite deref_deactivated. destruct (decide (cur = r)) as [->|Hne].
      + now rewrite decide_True.
      + rewrite decide_False by congruence. reflexivity.
    - now rewrite decide_False. }
  exists s1. eexists. split; [reflexivity|].
  rewrite (pop_mode_plain debug fuel self s1 _ _ Hm1).
  2:{ now apply Hplain1. }
  2:{ intros cur Hl. apply Hplain1. now apply Hcur. }
  split; [reflexivity|]. cbv zeta.
  set (s2 := deactivated mode (upd_modes self (modes_of s self) s1)).
  assert (Hm2 : forall m, modes_of s2 m =
            if decide (self = m) then modes_of s self else modes_of s m).
  { intros m. unfold s2. rewrite modes_of_deactivated.
    rewrite modes_of_upd_modes. destruct (decide (self = m)); [reflexivity|].
    unfold s1. rewrite modes_of_activated.
    rewrite modes_of_upd_modes_ne by congruence. unfold s0.
    now destruct (last (modes_of s self)). }
  assert (Hd2 : forall r, deref s2 r =
            if decide (mode = r) then with_active false (deref s1 mode)
            else deref s0 r).
  { intros r. unfold s2. rewrite deref_deactivated, !deref_upd_modes.
    destruct (decide (mode = r)) as [->|Hne]; [reflexivity|].
    unfold s1. rewrite deref_activated, decide_False by exact Hne.
    apply deref_upd_modes. }
  destruct (last (modes_of s self)) as [cur|] eqn:El.
  - split; [|split; [|split; [|split]]].
    + rewrite modes_of_activated, Hm2. now rewrite decide_True.
    + intros m Hne. rewrite modes_of_activated, Hm2.
      now rewrite decide_False by congruence.
    + intros c [= <-]. split; [apply active_activated|].
      intros Hne Hact Hmgr. rewrite deref_activated, decide_True by reflexivity.
      rewrite Hd2, decide_False by congruence.
      rewrite Hd0, decide_True by reflexivity. simpl.
      destruct (deref s cur). simpl in *. now subst.
    + intros Hne. rewrite deref_activated, decide_False by congruence.
      rewrite Hd2, decide_True by reflexivity. reflexivity.
    + intros r Hr Hl. rewrite deref_activated, decide_False by congruence.
      rewrite Hd2, decide_False by congruence.
      rewrite Hd0. now rewrite decide_False by exact Hl.
  - split; [|split; [|split; [|split]]].
    + change (modes_of s2 self = modes_of s self). rewrite Hm2.
      now rewrite decide_True.
    + intros m Hne. change (modes_of s2 m = modes_of s m). rewrite Hm2.
      now rewrite decide_False by congruence.
    + intros c Hc. discriminate.
    + intros _. rewrite deref_upd_log, Hd2, decide_True by reflexivity.
      reflexivity.
    + intros r Hr _. rewrite deref_upd_log, Hd2, decide_False by congruence.
      rewrite Hd0. now rewrite decide_False.
Qed.

(** ** The stack discipline over plain modes *)

(** A client of one manager: it pushes, pops, swaps and removes modes, and
    carries on after an exception. *)
Inductive stack_op : Set :=
| Push (mode : mode_ref)
| Pop
| Swap (mode : mode_ref)
| Remove (mode : mode_ref).

Definition exec_op (fuel : nat) (self : manager_ref) (o : stack_op) : M unit :=
  match o with
  | Push mode => push_mode debug fuel self mode
  | Pop => do! pop_mode debug fuel self in ret tt
  | Swap mode => do! swap_modes debug fuel self mode in ret tt
  | Remove mode => remove_mode debug fuel self mode
  end.

Definition exec_ops (fuel : nat) (self : manager_ref) (ops : list stack_op)
    (s : state) : state :=
  foldl (fun s o => final_state (exec_op fuel self o) s) s ops.

Definition all_plain (s : state) : Prop := forall r, is_BaseMode s r.

(** The current mode, when there is one, is active. *)
Definition top_active (self : manager_ref) (s : state) : Prop :=
  forall top, last (modes_of s self) = Some top -> active (deref s top) = true.

(** No mode is on the stack twice, and a mode on the stack is active
    exactly when it is the top. *)
Definition only_top_active (self : manager_ref) (s : state) : Prop :=
  NoDup (modes_of s self)
  /\ forall r, r ∈ modes_of s self ->
       (active (deref s r) = true <-> last (modes_of s self) = Some r).

(** What the client may do without putting a mode on the stack twice. *)
Definition fresh_op (self : manager_ref) (s : state) (o : stack_op) : Prop :=
  match o with
  | Push mode => mode ∉ modes_of s self
  | Swap mode =>
      forall rest top, modes_of s self = rest ++ [top] -> mode ∉ rest
  | _ => True
  end.

Fixpoint fresh_ops (fuel : nat) (self : manager_ref) (ops : list stack_op)
    (s : state) : Prop :=
  match ops with
  | [] => True
  | o :: ops' =>
      fresh_op self s o
      /\ fresh_ops fuel self ops' (final_state (exec_op fuel self o) s)
  end.

Lemma list_snoc_cases {A} (l : list A) :
  l = [] \/ exists rest top, l = rest ++ [top].
Proof.
  destruct l as [|x l _] using rev_ind; [now left|right; eauto].
Qed.

Lemma all_plain_activated r m s : all_plain s -> all_plain (activated r m s).
Proof. intros H x. apply is_BaseMode_activated, H. Qed.

Lemma all_plain_deactivated r s : all_plain s -> all_plain (deactivated r s).
Proof. intros H x. apply is_BaseMode_deactivated, H. Qed.

(** The state each operation leaves when every mode is plain. *)
Lemma exec_op_plain (fuel : nat) (self : manager_ref) (o : stack_op)
    (s : state) :
  all_plain s ->
  final_state (exec_op (S fuel) self o) s =
  match o with
  | Push mode =>
      activated mode self
        (upd_modes self (modes_of s self ++ [mode])
           (match last (modes_of s self) with
            | Some cur => deactivated cur s
            | None => s
            end))
  | Pop =>
      match list_pop (modes_of s self) with
      | None => s
      | Some (rest, top) =>
          let s1 := deactivated top (upd_modes self rest s) in
          match last rest with
          | Some cur => activated cur self s1
          | None => upd_log (OnLastModePop self top) s1
          end
      end
  | Swap mode =>
      match list_pop (modes_of s self) with
      | None => s
      | Some (rest, old) =>
          activated mode self
            (upd_modes self (rest ++ [mode])
               (deactivated old (upd_modes self rest s)))
      end
  | Remove mode =>
      if decide (last (modes_of s self) = Some mode) then
        match list_pop (modes_of s self) with
        | None => s
        | Some (rest, top) =>
            let s1 := deactivated top (upd_modes self rest s) in
            match last rest with
            | Some cur => activated cur self s1
            | None => upd_log (OnLastModePop self top) s1
            end
        end
      else
        match list_remove_first mode (modes_of s self) with
        | Some modes' => upd_modes self modes' s
        | None => s
        end
  end.
Proof.
  intros Hp.
  assert (Hpop : final_state (do! pop_mode debug (S fuel) self in ret tt) s =
            match list_pop (modes_of s self) with
            | None => s
            | Some (rest, top) =>
                let s1 := deactivated top (upd_modes self rest s) in
                match last rest with
                | Some cur => activated cur self s1
                | None => upd_log (OnLastModePop self top) s1
                end
            end).
  { unfold final_state, bind.
    destruct (list_snoc_cases (modes_of s self)) as [E|(rest & top & E)].
    - rewrite (pop_mode_empty _ _ _ _ E). now rewrite E.
    - rewrite (pop_mode_plain debug fuel self s rest top E (Hp _)
                 (fun cur _ => Hp cur)).
      rewrite E, list_pop_snoc. reflexivity. }
  destruct o as [mode| |mode|mode]; unfold exec_op.
  - unfold final_state.
    now rewrite (push_mode_plain debug fuel self s mode (Hp _)
                   (fun cur _ => Hp cur)).
  - exact Hpop.
  - unfold final_state, bind.
    destruct (list_snoc_cases (modes_of s self)) as [E|(rest & old & E)].
    + rewrite (swap_modes_empty _ _ _ _ _ E). now rewrite E.
    + rewrite (swap_modes_plain debug fuel self s rest old mode E
                 (Hp _) (Hp _)).
      rewrite E, list_pop_snoc. reflexivity.
  - destruct (decide (last (modes_of s self) = Some mode)) as [Hl|Hl].
    + etransitivity; [|exact Hpop].
      unfold final_state, remove_mode, bind at 1.
      unfold current_mode, bind at 1, get_modes at 1, ret at 1.
      now rewrite decide_True by exact Hl.
    + unfold final_state, remove_mode, bind at 1, current_mode, bind at 1.
      unfold get_modes at 1, ret at 1. rewrite decide_False by exact Hl.
      unfold bind, get_modes, set_modes, ret.
      now destruct (list_remove_first mode (modes_of s self)).
Qed.

Lemma all_plain_exec_op fuel self o s :
  all_plain s -> all_plain (final_state (exec_op (S fuel) self o) s).
Proof.
  intros Hp. rewrite exec_op_plain by exact Hp.
  assert (Hpop : all_plain
            match list_pop (modes_of s self) with
            | None => s
            | Some (rest, top) =>
                let s1 := deactivated top (upd_modes self rest s) in
                match last rest with
                | Some cur => activated cur self s1
                | None => upd_log (OnLastModePop self top) s1
                end
            end).
  { destruct (list_pop (modes_of s self)) as [[rest top]|]; [|exact Hp].
    cbv zeta. destruct (last rest).
    - apply all_plain_activated, all_plain_deactivated. exact Hp.
    - intros x. apply (all_plain_deactivated top (upd_modes self rest s) Hp x). }
  destruct o as [mode| |mode|mode].
  - apply all_plain_activated. destruct (last (modes_of s self)).
    + intros x. apply (all_plain_deactivated m s Hp x).
    + exact Hp.
  - exact Hpop.
  - destruct (list_pop (modes_of s self)) as [[rest old]|]; [|exact Hp].
    apply all_plain_activated.
    intros x. apply (all_plain_deactivated old (upd_modes self rest s) Hp x).
  - destruct (decide (last (modes_of s self) = Some mode)); [exact Hpop|].
    destruct (list_remove_first mode (modes_of s self)); exact Hp.
Qed.

Lemma top_active_exec_op fuel self o s :
  all_plain s -> top_active self s ->
  top_active self (final_state (exec_op (S fuel) self o) s).
Proof.
  intros Hp Ht. rewrite exec_op_plain by exact Hp.
  assert (Hpop : top_active self
            match list_pop (modes_of s self) with
            | None => s
            | Some (rest, top) =>
                let s1 := deactivated top (upd_modes self rest s) in
                match last rest with
                | Some cur => activated cur self s1
                | None => upd_log (OnLastModePop self top) s1
                end
            end).
  { destruct (list_pop (modes_of s self)) as [[rest top]|]; [|exact Ht].
    cbv zeta. destruct (last rest) as [cur|] eqn:El; intros t.
    - rewrite modes_of_activated, modes_of_deactivated, modes_of_upd_modes_eq.
      rewrite El. intros [= <-]. apply active_activated.
    - rewrite modes_of_upd_log, modes_of_deactivated, modes_of_upd_modes_eq.
      rewrite El. discriminate. }
  destruct o as [mode| |mode|mode].
  - intros t. rewrite modes_of_activated, modes_of_upd_modes_eq, last_snoc.
    intros [= <-]. apply active_activated.
  - exact Hpop.
  - destruct (list_pop (modes_of s self)) as [[rest old]|]; [|exact Ht].
    intros t. rewrite modes_of_activated, modes_of_upd_modes_eq, last_snoc.
    intros [= <-]. apply active_activated.
  - destruct (decide (last (modes_of s self) = Some mode)) as [Hl|Hl];
      [exact Hpop|].
    destruct (list_remove_first mode (modes_of s self)) as [l'|] eqn:E;
      [|exact Ht].
    intros t. rewrite modes_of_upd_modes_eq, deref_upd_modes. intros Hl'.
    apply Ht. destruct (last (modes_of s self)) as [top|] eqn:Et.
    + assert (Hne : top <> mode) by congruence.
      rewrite (last_remove_first_keeps_top _ _ _ _ Et (or_introl Hne) E)
        in Hl'.
      exact Hl'.
    + apply last_None in Et. rewrite Et in E. discriminate.
Qed.

(** X10: the current mode is always active. Over plain modes, whatever
    sequence of pushes, pops, swaps and removals a manager serves (failed
    calls included), if the top of its stack was active at the start then
    after every call the stack is empty or its top is active. *)
Theorem current_mode_stays_active (fuel : nat) (self : manager_ref)
    (ops : list stack_op) (s : state) :
  all_plain s -> top_active self s ->
  all_plain (exec_ops (S fuel) self ops s)
  /\ top_active self (exec_ops (S fuel) self ops s).
Proof.
  revert s. induction ops as [|o ops IH]; intros s Hp Ht; [now split|].
  apply IH; [now apply all_plain_exec_op|now apply top_active_exec_op].
Qed.

Lemma inactive_below_top self s r top :
  only_top_active self s -> last (modes_of s self) = Some top ->
  r ∈ modes_of s self -> r <> top -> active (deref s r) = false.
Proof.
  intros [_ Hiff] Hl Hin Hne. apply not_true_is_false. intros Hact.
  apply (Hiff r Hin) in Hact. congruence.
Qed.

Lemma only_top_active_exec_op fuel self o s :
  all_plain s -> only_top_active self s -> fresh_op self s o ->
  only_top_active self (final_state (exec_op (S fuel) self o) s).
Proof.
  intros Hp Hinv Hfresh. rewrite exec_op_plain by exact Hp.
  pose proof Hinv as [Hnd Hiff].
  assert (Hpop : only_top_active self
            match list_pop (modes_of s self) with
            | None => s
            | Some (rest, top) =>
                let s1 := deactivated top (upd_modes self rest s) in
                match last rest with
                | Some cur => activated cur self s1
                | None => upd_log (OnLastModePop self top) s1
                end
            end).
  { destruct (list_pop (modes_of s self)) as [[rest top]|] eqn:E;
      [|exact Hinv].
    apply list_pop_Some in E. cbv zeta.
    rewrite E in Hnd. apply NoDup_app in Hnd as (Hnd & Hnt & _).
    assert (Hlast : last (modes_of s self) = Some top)
      by (rewrite E; apply last_snoc).
    destruct (last rest) as [cur|] eqn:El.
    - split.
      + now rewrite modes_of_activated, modes_of_deactivated,
          modes_of_upd_modes_eq.
      + intros r. rewrite modes_of_activated, modes_of_deactivated,
          modes_of_upd_modes_eq, El. intros Hin.
        assert (Hrt : r <> top).
        { intros ->. apply (Hnt top Hin). left. }
        destruct (decide (cur = r)) as [->|Hne].
        * split; [reflexivity|intros _; apply active_activated].
        * rewrite deref_activated, decide_False by exact Hne.
          rewrite deref_deactivated, decide_False by congruence.
          rewrite deref_upd_modes.
          rewrite (inactive_below_top self s r top Hinv Hlast);
            [|rewrite E; apply elem_of_app; now left|exact Hrt].
          split; [discriminate|congruence].
    - apply last_None in El. subst rest. split.
      + rewrite modes_of_upd_log, modes_of_deactivated, modes_of_upd_modes_eq.
        constructor.
      + intros r. rewrite modes_of_upd_log, modes_of_deactivated,
          modes_of_upd_modes_eq. intros Hin.
        now apply not_elem_of_nil in Hin. }
  destruct o as [mode| |mode|mode].
  - simpl in Hfresh. split.
    + rewrite modes_of_activated, modes_of_upd_modes_eq.
      apply NoDup_app. split; [exact Hnd|]. split; [|apply NoDup_singleton].
      intros x Hx Hx'. apply list_elem_of_singleton in Hx'. now subst.
    + intros r. rewrite modes_of_activated, modes_of_upd_modes_eq, last_snoc.
      intros Hin. destruct (decide (mode = r)) as [->|Hne].
      * split; [reflexivity|intros _; apply active_activated].
      * apply elem_of_app in Hin as [Hin|Hin];
          [|apply list_elem_of_singleton in Hin; congruence].
        rewrite deref_activated, decide_False by exact Hne.
        rewrite deref_upd_modes.
        destruct (last (modes_of s self)) as [cur|] eqn:El.
        -- rewrite deref_deactivated.
           destruct (decide (cur = r)) as [->|Hne'].
           ++ simpl. split; [discriminate|congruence].
           ++ rewrite (inactive_below_top self s r cur Hinv El Hin);
                [|congruence].
              split; [discriminate|congruence].
        -- apply last_None in El. rewrite El in Hin.
           now apply not_elem_of_nil in Hin.
  - exact Hpop.
  - simpl in Hfresh.
    destruct (list_pop (modes_of s self)) as [[rest old]|] eqn:E;
      [|exact Hinv].
    apply list_pop_Some in E. specialize (Hfresh rest old E).
    pose proof Hnd as Hnd'.
    rewrite E in Hnd'. apply NoDup_app in Hnd' as (Hnd' & Hnt & _).
    assert (Hlast : last (modes_of s self) = Some old)
      by (rewrite E; apply last_snoc).
    split.
    + rewrite modes_of_activated, modes_of_upd_modes_eq.
      apply NoDup_app. split; [exact Hnd'|]. split; [|apply NoDup_singleton].
      intros x Hx Hx'. apply list_elem_of_singleton in Hx'. now subst.
    + intros r. rewrite modes_of_activated, modes_of_upd_modes_eq, last_snoc.
      intros Hin. destruct (decide (mode = r)) as [->|Hne].
      * split; [reflexivity|intros _; apply active_activated].
      * apply elem_of_app in Hin as [Hin|Hin];
          [|apply list_elem_of_singleton in Hin; congruence].
        assert (Hro : r <> old).
        { intros ->. apply (Hnt old Hin). left. }
        rewrite deref_activated, decide_False by exact Hne.
        rewrite deref_upd_modes, deref_deactivated, decide_False by congruence.
        rewrite deref_upd_modes.
        rewrite (inactive_below_top self s r old Hinv Hlast);
          [|rewrite E; apply elem_of_app; now left|exact Hro].
        split; [discriminate|congruence].
  - destruct (decide (last (modes_of s self) = Some mode)) as [Hl|Hl];
      [exact Hpop|].
    destruct (list_remove_first mode (modes_of s self)) as [l'|] eqn:E;
      [|exact Hinv].
    pose proof E as E'. apply list_remove_first_Some in E'
      as (before & after & Hm & Hnb & ->).
    assert (Hsub : forall r, r ∈ before ++ after -> r ∈ modes_of s self).
    { intros r Hr. rewrite Hm. apply elem_of_app in Hr as [Hr|Hr];
        apply elem_of_app; [now left|right; now right]. }
    assert (Hlast' : last (before ++ after) = last (modes_of s self)).
    { destruct (last (modes_of s self)) as [top|] eqn:Et.
      - assert (Hne : top <> mode) by congruence.
        exact (last_remove_first_keeps_top _ _ _ _ Et (or_introl Hne) E).
      - apply last_None in Et. rewrite Et in Hm. now destruct before. }
    split.
    + rewrite modes_of_upd_modes_eq. rewrite Hm in Hnd.
      apply NoDup_app in Hnd as (H1 & H2 & H3).
      apply NoDup_cons in H3 as [_ H3]. apply NoDup_app.
      split; [exact H1|]. split; [|exact H3].
      intros x Hx Hx'. apply (H2 x Hx). now right.
    + intros r. rewrite modes_of_upd_modes_eq, deref_upd_modes, Hlast'.
      intros Hr. apply Hiff. now apply Hsub.
Qed.

(** X11: only the top of the stack is active. Over plain modes, if no mode
    is on a manager's stack twice and a stacked mode is active exactly when
    it is the top, this stays so through every sequence of pushes, pops,
    swaps and removals (failed calls included) in which no call pushes or
    swaps in a mode that is still on the stack. *)
Theorem only_top_stays_active (fuel : nat) (self : manager_ref)
    (ops : list stack_op) (s : state) :
  all_plain s -> only_top_active self s -> fresh_ops (S fuel) self ops s ->
  only_top_active self (exec_ops (S fuel) self ops s).
Proof.
  revert s. induction ops as [|o ops IH]; intros s Hp Hinv Hf; [exact Hinv|].
  destruct Hf as [Hf1 Hf2]. apply IH.
  - now apply all_plain_exec_op.
  - now apply only_top_active_exec_op.
  - exact Hf2.
Qed.

(** ** Composite modes on a manager *)

Definition is_BaseMulti (s : state) (r : mode_ref) : Prop :=
  class (deref s r) = BaseMulti.

(** The submode [BaseMulti.activate] will use: the remembered one, else the
    first of the list. *)
Definition selected (s : state) (self : mode_ref) : option mode_ref :=
  match active_submode (deref s self) with
  | Some sub => Some sub
  | None => head (submodes (deref s self))
  end.

Lemma activate_BaseMulti fuel self m s :
  is_BaseMulti s self ->
  activate debug (S fuel) self m s
  = BaseMulti_activate_with debug (fun m' sub => activate debug fuel sub m')
      self m s.
Proof.
  intros H. cbn [activate]. unfold bind at 1, get_obj. now rewrite H.
Qed.

Lemma deactivate_BaseMulti fuel self m s :
  is_BaseMulti s self ->
  deactivate (S fuel) self m s
  = BaseMulti_deactivate_with (fun m' sub => deactivate fuel sub m') self m s.
Proof.
  intros H. cbn [deactivate]. unfold bind at 1, get_obj. now rewrite H.
Qed.

(** X12: how activating a composite fails. With no submodes (and none
    remembered) it raises AssertionError and changes nothing, or, with
    assertions off, IndexError after the manager has been recorded. When the
    submode it selects has no [step_rate] attribute it raises
    AttributeError: the manager and the active submode have been recorded,
    but no hook has run and no mode, the composite included, is active that
    was not before. *)
Theorem BaseMulti_activate_failures (fuel : nat) (self : mode_ref)
    (m : manager_ref) (s : state) :
  is_BaseMulti s self ->
  (submodes (deref s self) = [] -> active_submode (deref s self) = None ->
   activate debug (S fuel) self m s
   = if debug then Raise AssertionError s
     else Raise IndexError (upd_obj self (with_manager (Some m)) s))
  /\ (forall sub,
        submodes (deref s self) <> [] ->
        selected s self = Some sub ->
        step_rate (deref s sub) = None ->
        exists s',
          activate debug (S fuel) self m s = Raise AttributeError s'
          /\ log s' = log s
          /\ stacks s' = stacks s
          /\ deref s' self
             = with_active_submode (Some sub)
                 (with_manager (Some m) (deref s self))
          /\ (forall r, r <> self -> deref s' r = deref s r)).
Proof.
  intros Hc. rewrite (activate_BaseMulti _ _ _ _ Hc). split.
  - intros Hnil Hnone.
    unfold BaseMulti_activate_with, bind at 1, get_obj.
    rewrite Hnil, Hnone. unfold bind at 1, assert_.
    destruct debug; [reflexivity|]. reflexivity.
  - intros sub Hne Hsel Hrate.
    unfold BaseMulti_activate_with, bind at 1, get_obj. unfold bind at 1.
    rewrite assert_true
      by (apply negb_true_iff; now apply bool_decide_eq_false).
    unfold bind at 1, modify_obj. unfold bind at 1.
    assert (Hset : (match active_submode (deref s self) with
                    | Some sub0 => _set_active_submode self (Some sub0)
                    | None =>
                        let! sub0 := first_of (submodes (deref s self)) in
                        _set_active_submode self (Some sub0)
                    end) (upd_obj self (with_manager (Some m)) s)
                   = _set_active_submode self (Some sub)
                       (upd_obj self (with_manager (Some m)) s)).
    { unfold selected in Hsel.
      destruct (active_submode (deref s self)) as [y|].
      - now inversion Hsel.
      - destruct (submodes (deref s self)) as [|y l]; [discriminate|].
        simpl in Hsel. inversion Hsel; subst. reflexivity. }
    rewrite Hset. unfold _set_active_submode, bind, modify_obj, get_obj.
    rewrite !step_rate_after_set by reflexivity. rewrite Hrate.
    unfold raise. eexists. split; [reflexivity|].
    split; [reflexivity|]. split; [reflexivity|]. split.
    + now rewrite !deref_upd_obj_eq.
    + intros r Hr. now rewrite !deref_upd_obj_ne by congruence.
Qed.

Ltac deref_simpl :=
  unfold submode_set, submode_cleared;
  repeat first
    [ rewrite deref_activated | rewrite deref_deactivated
    | rewrite deref_upd_obj | rewrite deref_upd_modes | rewrite deref_upd_log
    | rewrite decide_True by congruence
    | rewrite decide_False by congruence ];
  cbn [class active manager step_rate submodes active_submode
       with_active with_manager with_step_rate with_submodes
       with_active_submode].

Lemma plain_is_not_multi s x c : is_BaseMode s x -> is_BaseMulti s c -> x <> c.
Proof. unfold is_BaseMode, is_BaseMulti. intros Hx Hc ->. congruence. Qed.

(** The state [BaseMulti.activate] leaves when the submode it selects is a
    plain mode with a step rate. *)
Lemma BaseMulti_activate_plain fuel c m s x rate :
  is_BaseMulti s c ->
  submodes (deref s c) <> [] ->
  selected s c = Some x ->
  is_BaseMode s x ->
  step_rate (deref s x) = Some rate ->
  activate debug (S (S fuel)) c m s
  = Ok tt (activated c m
             (activated x m
                (submode_set c x rate (upd_obj c (with_manager (Some m)) s)))).
Proof.
  intros Hc Hne Hsel Hx Hrate.
  pose proof (plain_is_not_multi _ _ _ Hx Hc) as Hxc.
  rewrite (activate_BaseMulti _ _ _ _ Hc).
  unfold BaseMulti_activate_with, bind at 1, get_obj. unfold bind at 1.
  rewrite assert_true
    by (apply negb_true_iff; now apply bool_decide_eq_false).
  unfold bind at 1, modify_obj. unfold bind at 1.
  assert (Hset : (match active_submode (deref s c) with
                  | Some sub0 => _set_active_submode c (Some sub0)
                  | None =>
                      let! sub0 := first_of (submodes (deref s c)) in
                      _set_active_submode c (Some sub0)
                  end) (upd_obj c (with_manager (Some m)) s)
                 = _set_active_submode c (Some x)
                     (upd_obj c (with_manager (Some m)) s)).
  { unfold selected in Hsel.
    destruct (active_submode (deref s c)) as [y|].
    - now inversion Hsel.
    - destruct (submodes (deref s c)) as [|y l]; [discriminate|].
      simpl in Hsel. inversion Hsel; subst. reflexivity. }
  rewrite Hset.
  rewrite (set_active_submode_Some c x rate)
    by (rewrite step_rate_after_set by reflexivity; exact Hrate).
  set (sa := submode_set c x rate (upd_obj c (with_manager (Some m)) s)).
  assert (Hca : deref sa c = with_step_rate (Some rate)
                  (with_active_submode (Some x)
                     (with_manager (Some m) (deref s c)))).
  { unfold sa, submode_set. now rewrite !deref_upd_obj_eq. }
  assert (Hxa : deref sa x = deref s x).
  { unfold sa, submode_set. now rewrite !deref_upd_obj_ne by congruence. }
  unfold bind at 1, get_obj. rewrite Hca. cbn [manager active_submode
    with_step_rate with_active_submode with_manager].
  unfold bind at 1. rewrite activate_plain
    by (unfold is_BaseMode; rewrite Hxa; exact Hx).
  apply BaseMode_activate_eq.
Qed.

(** The state [BaseMulti.deactivate] leaves when the active submode is a
    plain mode. *)
Lemma BaseMulti_deactivate_plain fuel c m s x m' :
  is_BaseMulti s c ->
  active_submode (deref s c) = Some x ->
  is_BaseMode s x ->
  active (deref s c) = true ->
  manager (deref s c) = Some m' ->
  deactivate (S (S fuel)) c m s = Ok tt (deactivated c (deactivated x s)).
Proof.
  intros Hc Hsub Hx Hact Hmgr. rewrite (deactivate_BaseMulti _ _ _ _ Hc).
  unfold BaseMulti_deactivate_with, bind at 1, _deactivate_submode_with.
  unfold bind at 1, get_obj. rewrite Hsub, Hact, Hmgr. unfold bind at 1.
  rewrite deactivate_plain by exact Hx. reflexivity.
Qed.

(** X13: a composite remembers its active submode. Activating an inactive
    composite whose selected submode [x] (the remembered one, else the
    first) is an inactive plain mode calls [on_activate] of [x] and then of
    the composite, and leaves both active with [x] the active submode;
    deactivating it calls [on_deactivate] of [x] and then of the composite
    and keeps [x] as the active submode; activating it again, for any
    manager, brings [x] back. *)
Theorem composite_resumes_submode (fuel : nat) (c x : mode_ref)
    (m m2 : manager_ref) (rate : option Z) (s : state) :
  is_BaseMulti s c ->
  submodes (deref s c) <> [] ->
  selected s c = Some x ->
  is_BaseMode s x ->
  step_rate (deref s x) = Some rate ->
  active (deref s c) = false ->
  active (deref s x) = false ->
  exists s1 s2 s3,
    activate debug (S (S fuel)) c m s = Ok tt s1
    /\ logged s s1 [OnActivate x; OnActivate c]
    /\ active_submode (deref s1 c) = Some x
    /\ active (deref s1 c) = true /\ active (deref s1 x) = true
    /\ manager (deref s1 c) = Some m /\ manager (deref s1 x) = Some m
    /\ deactivate (S (S fuel)) c m s1 = Ok tt s2
    /\ logged s1 s2 [OnDeactivate x; OnDeactivate c]
    /\ active_submode (deref s2 c) = Some x
    /\ active (deref s2 c) = false /\ active (deref s2 x) = false
    /\ activate debug (S (S fuel)) c m2 s2 = Ok tt s3
    /\ logged s2 s3 [OnActivate x; OnActivate c]
    /\ active_submode (deref s3 c) = Some x
    /\ active (deref s3 c) = true /\ active (deref s3 x) = true
    /\ manager (deref s3 c) = Some m2 /\ manager (deref s3 x) = Some m2
    /\ stacks s3 = stacks s.
Proof.
  intros Hc Hne Hsel Hx Hrate Hci Hxi.
  pose proof (plain_is_not_multi _ _ _ Hx Hc) as Hxc.
  assert (Hcx : c <> x) by congruence.
  rewrite (BaseMulti_activate_plain _ _ _ _ _ _ Hc Hne Hsel Hx Hrate).
  set (s1 := activated c m (activated x m
               (submode_set c x rate (upd_obj c (with_manager (Some m)) s)))).
  assert (H1c : deref s1 c = with_active true (with_manager (Some m)
                  (with_step_rate (Some rate) (with_active_submode (Some x)
                     (with_manager (Some m) (deref s c)))))).
  { unfold s1. deref_simpl. rewrite Hci. reflexivity. }
  assert (H1x : deref s1 x
                = with_active true (with_manager (Some m) (deref s x))).
  { unfold s1. deref_simpl. rewrite Hxi. reflexivity. }
  assert (H1log : log s1 = log s ++ [OnActivate x; OnActivate c]).
  { unfold s1. rewrite !log_activated. deref_simpl. rewrite Hci, Hxi.
    unfold submode_set, upd_obj. simpl. now rewrite <- app_assoc. }
  assert (Hdeact : deactivate (S (S fuel)) c m s1
                   = Ok tt (deactivated c (deactivated x s1))).
  { apply (BaseMulti_deactivate_plain fuel c m s1 x m).
    - unfold is_BaseMulti. rewrite H1c. exact Hc.
    - now rewrite H1c.
    - unfold is_BaseMode. rewrite H1x. exact Hx.
    - now rewrite H1c.
    - now rewrite H1c. }
  set (s2 := deactivated c (deactivated x s1)).
  assert (H2c : deref s2 c = with_active false (deref s1 c)).
  { unfold s2. now deref_simpl. }
  assert (H2x : deref s2 x = with_active false (deref s1 x)).
  { unfold s2. now deref_simpl. }
  assert (Hact2 : activate debug (S (S fuel)) c m2 s2
                  = Ok tt (activated c m2 (activated x m2
                      (submode_set c x rate
                         (upd_obj c (with_manager (Some m2)) s2))))).
  { apply BaseMulti_activate_plain.
    - unfold is_BaseMulti. rewrite H2c, H1c. exact Hc.
    - rewrite H2c, H1c. exact Hne.
    - unfold selected. now rewrite H2c, H1c.
    - unfold is_BaseMode. rewrite H2x, H1x. exact Hx.
    - rewrite H2x, H1x. exact Hrate. }
  set (s3 := activated c m2 (activated x m2
               (submode_set c x rate
                  (upd_obj c (with_manager (Some m2)) s2)))) in Hact2.
  assert (H3c : deref s3 c = with_active true (with_manager (Some m2)
                  (with_step_rate (Some rate) (with_active_submode (Some x)
                     (with_manager (Some m2) (deref s2 c)))))).
  { unfold s3. deref_simpl. rewrite H2c. reflexivity. }
  assert (H3x : deref s3 x
                = with_active true (with_manager (Some m2) (deref s2 x))).
  { unfold s3. deref_simpl. rewrite H2x. reflexivity. }
  exists s1, s2, s3. split; [reflexivity|]. split; [exact H1log|].
  rewrite H3c, H3x, H2c, H2x, H1c, H1x.
  do 5 (split; [reflexivity|]). split; [exact Hdeact|]. split.
  { unfold logged, s2. simpl. now rewrite <- app_assoc. }
  do 3 (split; [reflexivity|]). split; [exact Hact2|]. split.
  { unfold logged, s3. rewrite !log_activated. deref_simpl.
    rewrite H2c, H2x. unfold submode_set, upd_obj. simpl.
    now rewrite <- app_assoc. }
  do 5 (split; [reflexivity|]).
  unfold s3. rewrite !stacks_activated. unfold s2. simpl.
  unfold s1. now rewrite !stacks_activated.
Qed.

(** X14: what activation and deactivation can touch. For a mode of any class
    and any depth of nesting, [mode.activate(manager)] and
    [mode.deactivate(manager)], whether they return or raise, leave every
    manager's stack as it was; the first calls no hook but [on_activate],
    the second none but [on_deactivate]. *)
Theorem activation_leaves_stacks_alone (fuel : nat) (self : mode_ref)
    (m : manager_ref) (s : state) :
  match activate debug fuel self m s with
  | Ok _ s' | Raise _ s' =>
      stacks s' = stacks s
      /\ exists evs, log s' = log s ++ evs /\ Forall is_OnActivate evs
  | OutOfFuel => True
  end
  /\ match deactivate fuel self m s with
     | Ok _ s' | Raise _ s' =>
         stacks s' = stacks s
         /\ exists evs, log s' = log s ++ evs /\ Forall is_OnDeactivate evs
     | OutOfFuel => True
     end.
Proof.
  split.
  - exact (activate_preserves debug fuel self m s).
  - exact (deactivate_preserves fuel self m s).
Qed.

(** X15: deactivation is not guarded the way activation is. A plain mode's
    [deactivate] calls [on_deactivate] and clears the flag whether or not
    the mode was active, so deactivating twice calls the hook twice; it
    keeps the [manager] attribute, which only a later activation of the
    then inactive mode replaces. *)
Theorem BaseMode_deactivate_unguarded (self : mode_ref)
    (m m2 : manager_ref) (s : state) :
  exists s1 s2 s3,
    BaseMode_deactivate self m s = Ok tt s1
    /\ logged s s1 [OnDeactivate self]
    /\ deref s1 self = with_active false (deref s self)
    /\ (forall r, r <> self -> deref s1 r = deref s r)
    /\ stacks s1 = stacks s
    /\ BaseMode_deactivate self m s1 = Ok tt s2
    /\ logged s s2 [OnDeactivate self; OnDeactivate self]
    /\ deref s2 self = deref s1 self
    /\ BaseMode_activate self m2 s2 = Ok tt s3
    /\ logged s2 s3 [OnActivate self]
    /\ manager (deref s3 self) = Some m2
    /\ active (deref s3 self) = true.
Proof.
  exists (deactivated self s), (deactivated self (deactivated self s)).
  eexists. split; [reflexivity|]. split; [reflexivity|].
  split; [now rewrite deref_deactivated, decide_True|].
  split; [intros r Hr; now rewrite deref_deactivated, decide_False|].
  split; [reflexivity|]. split; [reflexivity|].
  split; [unfold logged; simpl; now rewrite <- app_assoc|].
  split.
  { rewrite !deref_deactivated, !decide_True by reflexivity.
    now destruct (deref s self). }
  rewrite BaseMode_activate_eq. split; [reflexivity|].
  assert (Hi : active (deref (deactivated self (deactivated self s)) self)
               = false)
    by now rewrite deref_deactivated, decide_True.
  split; [|split].
  - unfold logged. now rewrite log_activated, Hi.
  - rewrite deref_activated, decide_True by reflexivity. now rewrite Hi.
  - apply active_activated.
Qed.

(** ** Adding submodes *)

Lemma list_insert_py_split {A} (index : Z) (x : A) (l : list A) :
  exists j, (j <= length l)%nat
    /\ list_insert_py index x l = take j l ++ x :: drop j l
    /\ (0 <= index <= Z.of_nat (length l) -> j = Z.to_nat index)
    /\ (Z.of_nat (length l) <= index -> j = length l)
    /\ (index + Z.of_nat (length l) <= 0 -> j = 0%nat).
Proof.
  unfold list_insert_py.
  set (n := Z.of_nat (length l)).
  set (j := if decide (index < 0) then Z.max 0 (index + n) else Z.min index n).
  exists (Z.to_nat j). subst j n.
  destruct (decide (index < 0)); repeat split; try reflexivity; lia.
Qed.

(** X16: [add_submode]. A call that returns has inserted the mode once into
    the submode list, the old submodes keeping their order, and has changed
    nothing else: not the active submode, not a flag, not a stack, and no
    hook has run. With neither [before] nor [index] the mode goes to the
    end; an [index] beyond the end is clamped to it and one at or below
    minus the length to the front. With [before] given the position is
    looked up as that of the mode being added, so adding a mode that is not
    yet a submode raises ValueError and changes nothing, whatever [before]
    is. With both [before] and [index] the assertion fails. *)
Theorem add_submode_spec (self mode : mode_ref) (before : option mode_ref)
    (index : option Z) (s : state) :
  let subs := submodes (deref s self) in
  (forall s',
     add_submode self mode before index s = Ok tt s' ->
     exists j, (j <= length subs)%nat
       /\ s' = upd_obj self
                 (with_submodes (take j subs ++ mode :: drop j subs)) s
       /\ (before = None -> index = None -> j = length subs)
       /\ (before = None -> forall i, index = Some i ->
             (Z.of_nat (length subs) <= i -> j = length subs)
             /\ (i + Z.of_nat (length subs) <= 0 -> j = 0%nat)
             /\ (0 <= i <= Z.of_nat (length subs) -> j = Z.to_nat i))
       /\ (is_Some before -> list_index mode subs = Some j))
  /\ (is_Some before -> mode ∉ subs -> index = None \/ debug = false ->
      add_submode self mode before index s = Raise ValueError s)
  /\ (is_Some before -> is_Some index -> debug = true ->
      add_submode self mode before index s = Raise AssertionError s)
  /\ (before = None ->
      exists s', add_submode self mode before index s = Ok tt s').
Proof.
  intros subs.
  assert (Hassert : (before = None \/ index = None \/ debug = false) ->
            add_submode self mode before index s
            = (let! index' :=
                 match before with
                 | Some _ =>
                     match list_index mode subs with
                     | Some i => ret (Some (Z.of_nat i))
                     | None => raise ValueError
                     end
                 | None => ret index
                 end in
               match index' with
               | Some i =>
                   modify_obj self
                     (with_submodes (list_insert_py i mode subs))
               | None => modify_obj self (with_submodes (subs ++ [mode]))
               end) s).
  { intros H. unfold add_submode, bind at 1, assert_.
    destruct debug, before, index; try reflexivity;
      destruct H as [H|[H|H]]; discriminate. }
  split; [|split; [|split]].
  - intros s' Hok.
    assert (Hcase : before = None \/ index = None \/ debug = false).
    { destruct before, index; auto. right. right.
      unfold add_submode, bind at 1, assert_ in Hok.
      destruct debug; [discriminate|reflexivity]. }
    rewrite (Hassert Hcase) in Hok. unfold bind, ret, modify_obj in Hok.
    destruct before as [b|].
    + destruct (list_index mode subs) as [i|] eqn:Ei; [|discriminate].
      inversion Hok; subst s'. clear Hok.
      pose proof (list_index_lt _ _ _ Ei) as Hlt.
      destruct (list_insert_py_split (Z.of_nat i) mode subs)
        as (j & Hj & -> & Hin & _).
      assert (j = i) as -> by (rewrite Hin; lia).
      exists i. split; [lia|]. split; [reflexivity|].
      split; [discriminate|]. split; [discriminate|]. intros _. reflexivity.
    + destruct index as [i|].
      * inversion Hok; subst s'. clear Hok.
        destruct (list_insert_py_split i mode subs)
          as (j & Hj & -> & Hin & Hhi & Hlo).
        exists j. split; [exact Hj|]. split; [reflexivity|].
        split; [discriminate|]. split.
        -- intros _ i' [= <-]. auto.
        -- intros [? ?]. discriminate.
      * inversion Hok; subst s'. clear Hok. exists (length subs).
        split; [lia|]. split.
        -- now rewrite firstn_all, drop_all.
        -- split; [reflexivity|]. split; [discriminate|].
           intros [? ?]. discriminate.
  - intros [b ->] Hn Hcase. rewrite Hassert by tauto.
    apply list_index_None in Hn. unfold bind. now rewrite Hn.
  - intros [b ->] [i ->] Hd. unfold add_submode, bind at 1, assert_.
    now rewrite Hd.
  - intros ->. rewrite Hassert by tauto. unfold bind, ret, modify_obj.
    destruct index; eexists; reflexivity.
Qed.

(** ** Stepping through the submodes of an inactive composite *)

(** The state in which [x] has become the active submode of the inactive
    composite [self]: nothing if it already was, else the old choice is
    cleared and [x] recorded with its step rate. *)
Definition select_submode (self x : mode_ref) (s : state) : state :=
  if decide (active_submode (deref s self) = Some x) then s
  else submode_set self x (default None (step_rate (deref s x)))
         (match active_submode (deref s self) with
          | Some _ => submode_cleared self s
          | None => s
          end).

(** An inactive composite none of whose submodes is the composite itself
    or lacks a step rate. *)
Definition deferred_ok (s : state) (self : mode_ref) : Prop :=
  active (deref s self) = false
  /\ forall r, r ∈ submodes (deref s self) ->
       r <> self /\ is_Some (step_rate (deref s r)).

(** The submode after the active one, wrapping around; the first when none
    is active. *)
Definition next_submode (o : mode_obj) : option mode_ref :=
  match active_submode o with
  | None => head (submodes o)
  | Some last_mode =>
      match list_index last_mode (submodes o) with
      | None => None
      | Some i =>
          if decide (S i < length (submodes o))%nat then submodes o !! S i
          else head (submodes o)
      end
  end.

(** The submode before the active one, wrapping around; the last when none
    is active. *)
Definition prev_submode (o : mode_obj) : option mode_ref :=
  match active_submode o with
  | None => last (submodes o)
  | Some last_mode =>
      match list_index last_mode (submodes o) with
      | None => None
      | Some O => last (submodes o)
      | Some (S j) => submodes o !! j
      end
  end.

Lemma select_submode_obj self x s :
  x <> self ->
  deref (select_submode self x s) self
  = (if decide (active_submode (deref s self) = Some x) then deref s self
     else with_step_rate (Some (default None (step_rate (deref s x))))
            (with_active_submode (Some x) (deref s self)))
  /\ (forall r, r <> self -> deref (select_submode self x s) r = deref s r)
  /\ log (select_submode self x s) = log s
  /\ stacks (select_submode self x s) = stacks s.
Proof.
  intros Hx. unfold select_submode.
  destruct (decide (active_submode (deref s self) = Some x)) as [E|E].
  - repeat split; reflexivity.
  - destruct (active_submode (deref s self)) as [a|];
      unfold submode_set, submode_cleared.
    + split; [|split; [|split; reflexivity]].
      * rewrite !deref_upd_obj_eq. now destruct (deref s self).
      * intros r Hr. now rewrite !deref_upd_obj_ne by congruence.
    + split; [|split; [|split; reflexivity]].
      * rewrite !deref_upd_obj_eq. now destruct (deref s self).
      * intros r Hr. now rewrite !deref_upd_obj_ne by congruence.
Qed.

Lemma select_submode_fields self x s :
  x <> self ->
  active_submode (deref (select_submode self x s) self) = Some x
  /\ submodes (deref (select_submode self x s) self) = submodes (deref s self)
  /\ active (deref (select_submode self x s) self) = active (deref s self)
  /\ manager (deref (select_submode self x s) self) = manager (deref s self)
  /\ class (deref (select_submode self x s) self) = class (deref s self).
Proof.
  intros Hx. destruct (select_submode_obj self x s Hx) as (-> & _).
  destruct (decide (active_submode (deref s self) = Some x)) as [E|E].
  - rewrite E. repeat split; reflexivity.
  - repeat split; reflexivity.
Qed.

Lemma deferred_ok_select self x s :
  x <> self -> deferred_ok s self -> deferred_ok (select_submode self x s) self.
Proof.
  intros Hx [Hi Hall].
  destruct (select_submode_fields self x s Hx) as (_ & Hs & Ha & _).
  destruct (select_submode_obj self x s Hx) as (_ & Hother & _).
  split; [now rewrite Ha|]. rewrite Hs. intros r Hr.
  destruct (Hall r Hr) as [Hne Hrate]. split; [exact Hne|].
  now rewrite Hother.
Qed.

(** [_activate_submode(x)] on an inactive composite: the selection is
    recorded and no mode's [activate] or [deactivate] runs. *)
Lemma activate_submode_deferred fuel self x s :
  deferred_ok s self -> x ∈ submodes (deref s self) ->
  _activate_submode debug fuel self (Some x) s
  = Ok tt (select_submode self x s).
Proof.
  intros [Hina Hall] Hin. destruct (Hall x Hin) as [Hxs [rate Hrate]].
  unfold _activate_submode, bind at 1, get_obj, select_submode.
  destruct (decide (active_submode (deref s self) = Some x)) as [E|E];
    [reflexivity|].
  unfold bind at 1. rewrite assert_true by now apply bool_decide_eq_true.
  unfold bind at 1, _deactivate_submode, _deactivate_submode_with.
  unfold bind at 1, get_obj. rewrite Hrate. cbn [default].
  destruct (active_submode (deref s self)) as [a|].
  - rewrite Hina. unfold bind at 1, ret at 1.
    unfold clear_subnode, bind at 1, modify_obj.
    fold (submode_cleared self s).
    assert (Hr' : step_rate (deref (submode_cleared self s) x) = Some rate).
    { unfold submode_cleared. now rewrite !deref_upd_obj_ne by congruence. }
    unfold bind at 1. rewrite (set_active_submode_Some _ _ _ _ Hr').
    unfold bind at 1, get_obj.
    assert (Hina' : active (deref (submode_set self x rate
                                     (submode_cleared self s)) self) = false).
    { unfold submode_set, submode_cleared. now rewrite !deref_upd_obj_eq. }
    now rewrite Hina'.
  - unfold ret at 1. unfold bind at 1.
    rewrite (set_active_submode_Some _ _ _ _ Hrate).
    unfold bind at 1, get_obj.
    assert (Hina' : active (deref (submode_set self x rate s) self) = false).
    { unfold submode_set. now rewrite !deref_upd_obj_eq. }
    now rewrite Hina'.
Qed.

(** [_activate_submode(None)] while a submode is active never returns and
    never touches a stack. *)
Lemma activate_submode_None_never_returns fuel self s lm :
  active_submode (deref s self) = Some lm ->
  match _activate_submode debug fuel self None s with
  | Ok _ _ => False
  | Raise e s' =>
      stacks s' = stacks s /\ (debug = true -> e = AssertionError /\ s' = s)
  | OutOfFuel => debug = false
  end.
Proof.
  intros Hsub. unfold _activate_submode, bind at 1, get_obj.
  rewrite decide_False by (rewrite Hsub; discriminate).
  unfold bind at 1, assert_. destruct debug.
  - unfold raise. split; [reflexivity|]. intros _. split; reflexivity.
  - unfold ret at 1. unfold bind at 1.
    pose proof (preserves_deactivate_submode is_OnDeactivate fuel self true
                  (fun e H => H) s) as Hd.
    destruct (_deactivate_submode fuel self true s) as [[] s1|e s1|].
    + unfold bind, _set_active_submode, modify_obj, raise.
      destruct Hd as [Hd _]. split; [exact Hd|]. discriminate.
    + destruct Hd as [Hd _]. split; [exact Hd|]. discriminate.
    + reflexivity.
Qed.

Lemma list_get_py_last {A} (l : list A) : list_get_py (-1) l = last l.
Proof.
  unfold list_get_py. rewrite decide_False by lia.
  destruct l as [|x l _] using rev_ind.
  - reflexivity.
  - rewrite length_app. simpl. rewrite decide_True by lia.
    rewrite last_snoc.
    replace (Z.to_nat (-1 + Z.of_nat (length l + 1))) with (length l) by lia.
    now rewrite lookup_app_r, Nat.sub_diag by lia.
Qed.

Lemma list_get_py_nat {A} (l : list A) (i : nat) :
  list_get_py (Z.of_nat i) l = l !! i.
Proof.
  unfold list_get_py. rewrite decide_True by lia. now rewrite Nat2Z.id.
Qed.

Lemma submodes_nonempty_of_index (o : mode_obj) lm i :
  list_index lm (submodes o) = Some i ->
  negb (bool_decide (submodes o = [])) = true.
Proof.
  intros H. apply negb_true_iff, bool_decide_eq_false. intros E.
  rewrite E in H. discriminate.
Qed.

(** [activate_next(loop=True)] hands the next submode to
    [_activate_submode] and returns it. *)
Lemma activate_next_to fuel self s x :
  next_submode (deref s self) = Some x ->
  x ∈ submodes (deref s self)
  /\ activate_next debug fuel self true s
     = (do! _activate_submode debug fuel self (Some x) in ret (Some x)) s.
Proof.
  intros Hn. unfold next_submode in Hn.
  unfold activate_next, bind at 1, get_obj. unfold bind at 1.
  destruct (active_submode (deref s self)) as [lm|] eqn:Ea.
  - destruct (list_index lm (submodes (deref s self))) as [i|] eqn:Ei;
      [|discriminate].
    rewrite assert_true by exact (submodes_nonempty_of_index _ _ _ Ei).
    assert (Hin : x ∈ submodes (deref s self)).
    { destruct (decide (S i < length (submodes (deref s self)))%nat).
      - apply list_elem_of_lookup. eauto.
      - apply head_Some_elem_of. exact Hn. }
    assert (Hnext : (if decide (S i < length (submodes (deref s self)))%nat
                     then ret (submodes (deref s self) !! S i)
                     else let! sub0 := first_of (submodes (deref s self)) in
                          ret (Some sub0)) s = Ok (Some x) s).
    { destruct (decide (S i < length (submodes (deref s self)))%nat).
      - now rewrite Hn.
      - destruct (submodes (deref s self)); [discriminate|].
        simpl in Hn. now inversion Hn. }
    split; [exact Hin|]. unfold bind at 1. now rewrite Hnext.
  - destruct (submodes (deref s self)) as [|y l] eqn:El; [discriminate|].
    simpl in Hn. inversion Hn; subst y.
    rewrite assert_true by reflexivity. split; [left|].
    unfold bind at 1, first_of, bind at 1, ret at 1. unfold ret at 1.
    reflexivity.
Qed.

(** [activate_next(loop=True)] on an inactive composite. *)
Lemma activate_next_deferred fuel self s x :
  deferred_ok s self ->
  next_submode (deref s self) = Some x ->
  activate_next debug fuel self true s = Ok (Some x) (select_submode self x s).
Proof.
  intros Hok Hn. destruct (activate_next_to fuel self s x Hn) as [Hin ->].
  unfold bind. now rewrite (activate_submode_deferred _ _ _ _ Hok Hin).
Qed.

(** [activate_previous] on an inactive composite, when it does not have to
    wrap around or may. *)
Lemma activate_previous_deferred fuel self loop s x :
  deferred_ok s self ->
  prev_submode (deref s self) = Some x ->
  (loop = true
   \/ forall lm, active_submode (deref s self) = Some lm ->
        list_index lm (submodes (deref s self)) <> Some O) ->
  activate_previous fuel self loop s = Ok (Some x) (select_submode self x s).
Proof.
  intros Hok Hp Hloop. unfold prev_submode in Hp.
  unfold activate_previous, bind at 1, get_obj. unfold bind at 1.
  assert (Hsub : forall l : list mode_ref, last l = Some x ->
            (let! sub := subscript (-1) l in ret (Some sub)) s
            = Ok (Some x) s).
  { intros l Hl. unfold subscript, bind. now rewrite list_get_py_last, Hl. }
  destruct (active_submode (deref s self)) as [lm|] eqn:Ea.
  - destruct (list_index lm (submodes (deref s self))) as [i|] eqn:Ei;
      [|discriminate].
    rewrite assert_true by exact (submodes_nonempty_of_index _ _ _ Ei).
    assert (Hin : x ∈ submodes (deref s self)).
    { destruct i as [|j].
      - apply last_Some_elem_of. exact Hp.
      - apply list_elem_of_lookup. eauto. }
    assert (Hprev : (let index := Z.of_nat i - 1 in
                     if loop || bool_decide (0 <= index)
                     then let! sub := subscript index (submodes (deref s self))
                          in ret (Some sub)
                     else ret None) s = Ok (Some x) s).
    { cbv zeta. destruct i as [|j].
      - destruct Hloop as [->|Hloop];
          [|exfalso; exact (Hloop lm eq_refl Ei)].
        now apply Hsub.
      - rewrite (bool_decide_eq_true_2 (0 <= Z.of_nat (S j) - 1)) by lia.
        rewrite orb_true_r.
        replace (Z.of_nat (S j) - 1) with (Z.of_nat j) by lia.
        unfold subscript, bind. now rewrite list_get_py_nat, Hp. }
    unfold bind at 1. cbv zeta in Hprev. rewrite Hprev. unfold bind.
    now rewrite (activate_submode_deferred _ _ _ _ Hok Hin).
  - assert (Hne : negb (bool_decide (submodes (deref s self) = [])) = true).
    { apply negb_true_iff, bool_decide_eq_false. intros E.
      rewrite E in Hp. discriminate. }
    rewrite assert_true by exact Hne.
    unfold bind at 1. rewrite (Hsub _ Hp). unfold bind.
    rewrite (activate_submode_deferred fuel self x s Hok)
      by (now apply last_Some_elem_of).
    reflexivity.
Qed.

(** [_activate_submode(None)] on an inactive composite with an active
    submode: the assertion fails; without assertions the selection is
    cleared and reading [None.step_rate] fails. *)
Lemma activate_submode_None_inactive fuel self s lm :
  active_submode (deref s self) = Some lm ->
  active (deref s self) = false ->
  _activate_submode debug fuel self None s
  = if debug then Raise AssertionError s
    else Raise AttributeError
           (upd_obj self (with_active_submode None) (submode_cleared self s)).
Proof.
  intros Hsub Hina. unfold _activate_submode, bind at 1, get_obj.
  rewrite decide_False by (rewrite Hsub; discriminate).
  unfold bind at 1, assert_. destruct debug; [reflexivity|].
  unfold ret at 1. unfold bind at 1, _deactivate_submode,
    _deactivate_submode_with, bind at 1, get_obj.
  rewrite Hsub, Hina. unfold bind at 1, ret at 1.
  unfold clear_subnode, bind at 1, modify_obj.
  fold (submode_cleared self s). reflexivity.
Qed.

Lemma last_lookup_pred {A} (l : list A) : last l = l !! pred (length l).
Proof.
  destruct l as [|x l _] using rev_ind; [reflexivity|].
  rewrite last_snoc, length_app. simpl.
  replace (pred (length l + 1)) with (length l) by lia.
  now rewrite lookup_app_r, Nat.sub_diag by lia.
Qed.

Lemma head_lookup_0 {A} (l : list A) : head l = l !! O.
Proof. now destruct l. Qed.

(** The position after [i], cyclically. *)
Lemma next_submode_at (o : mode_obj) a i :
  active_submode o = Some a ->
  list_index a (submodes o) = Some i ->
  next_submode o = submodes o !! (S i mod length (submodes o))%nat.
Proof.
  intros Ha Hi. unfold next_submode. rewrite Ha, Hi.
  pose proof (list_index_lt _ _ _ Hi) as Hlt.
  destruct (decide (S i < length (submodes o))%nat) as [Hs|Hs].
  - now rewrite Nat.mod_small by lia.
  - replace (S i) with (length (submodes o)) by lia.
    rewrite Nat.Div0.mod_same. apply head_lookup_0.
Qed.

(** The position before [i], cyclically. *)
Lemma prev_submode_at (o : mode_obj) a i :
  active_submode o = Some a ->
  list_index a (submodes o) = Some i ->
  prev_submode o
  = submodes o !! ((i + length (submodes o) - 1) mod length (submodes o))%nat.
Proof.
  intros Ha Hi. unfold prev_submode. rewrite Ha, Hi.
  pose proof (list_index_lt _ _ _ Hi) as Hlt.
  destruct i as [|j].
  - rewrite Nat.mod_small by lia. rewrite last_lookup_pred. f_equal. lia.
  - replace (S j + length (submodes o) - 1)%nat
      with (j + 1 * length (submodes o))%nat by lia.
    rewrite Nat.Div0.mod_add. now rewrite Nat.mod_small by lia.
Qed.

Lemma list_index_NoDup {A} `{EqDecision A} (l : list A) i x :
  NoDup l -> l !! i = Some x -> list_index x l = Some i.
Proof.
  intros Hnd Hl.
  destruct (list_index x l) as [j|] eqn:Ej.
  - f_equal. apply list_index_lookup in Ej.
    exact (NoDup_lookup l j i x Hnd Ej Hl).
  - apply list_index_None in Ej. exfalso. apply Ej.
    apply list_elem_of_lookup. eauto.
Qed.

(** What selecting [x] on an inactive composite leaves: [x] is the active
    submode; the list of submodes, the hook log and every manager's stack
    are as before. *)
Definition switched_quietly (self x : mode_ref) (s s' : state) : Prop :=
  active_submode (deref s' self) = Some x
  /\ submodes (deref s' self) = submodes (deref s self)
  /\ log s' = log s /\ stacks s' = stacks s.

Lemma select_switched_quietly self x s :
  x <> self -> switched_quietly self x s (select_submode self x s).
Proof.
  intros Hx.
  destruct (select_submode_fields self x s Hx) as (Ha & Hs & _).
  destruct (select_submode_obj self x s Hx) as (_ & _ & Hl & Hst).
  repeat split; assumption.
Qed.

Lemma switched_quietly_trans self x y s s1 s2 :
  switched_quietly self x s s1 -> switched_quietly self y s1 s2 ->
  switched_quietly self y s s2.
Proof.
  intros (_ & Hs1 & Hl1 & Hst1) (Ha & Hs2 & Hl2 & Hst2).
  repeat split; [exact Ha|congruence..].
Qed.

(** X17: [activate_previous] on an inactive composite. With no active
    submode it selects the last submode, for either value of [loop]. With
    the active submode at position [i] it selects the submode at position
    [i - 1], cyclically, when [loop] is true or [i] is not [0]; no hook
    runs and no stack changes. With [loop=False] and the active submode in
    first position it does not return [None]: it raises, AssertionError
    with assertions on and AttributeError without. *)
Theorem activate_previous_spec (fuel : nat) (self : mode_ref) (s : state) :
  deferred_ok s self ->
  (forall loop x,
      active_submode (deref s self) = None ->
      last (submodes (deref s self)) = Some x ->
      exists s', activate_previous fuel self loop s = Ok (Some x) s'
                 /\ switched_quietly self x s s')
  /\ (forall loop a i x,
        active_submode (deref s self) = Some a ->
        list_index a (submodes (deref s self)) = Some i ->
        submodes (deref s self)
          !! ((i + length (submodes (deref s self)) - 1)
                mod length (submodes (deref s self)))%nat = Some x ->
        loop = true \/ (0 < i)%nat ->
        exists s', activate_previous fuel self loop s = Ok (Some x) s'
                   /\ switched_quietly self x s s')
  /\ (forall a,
        active_submode (deref s self) = Some a ->
        list_index a (submodes (deref s self)) = Some O ->
        exists s',
          activate_previous fuel self false s
          = Raise (if debug then AssertionError else AttributeError) s'
          /\ log s' = log s /\ stacks s' = stacks s
          /\ (debug = true -> s' = s)).
Proof.
  intros Hok. split; [|split].
  - intros loop x Ha Hl.
    assert (Hp : prev_submode (deref s self) = Some x)
      by (unfold prev_submode; now rewrite Ha).
    assert (Hin : x ∈ submodes (deref s self))
      by (now apply last_Some_elem_of).
    exists (select_submode self x s). split.
    + apply activate_previous_deferred; [exact Hok|exact Hp|].
      right. intros lm Hlm. congruence.
    + apply select_switched_quietly. now destruct Hok as [_ Hall];
        destruct (Hall x Hin).
  - intros loop a i x Ha Hi Hx Hloop.
    assert (Hp : prev_submode (deref s self) = Some x)
      by (now rewrite (prev_submode_at _ _ _ Ha Hi)).
    assert (Hin : x ∈ submodes (deref s self))
      by (apply list_elem_of_lookup; eauto).
    exists (select_submode self x s). split.
    + apply activate_previous_deferred; [exact Hok|exact Hp|].
      destruct Hloop as [->|Hpos]; [now left|right].
      intros lm Hlm. assert (lm = a) by congruence. subst lm.
      rewrite Hi. intros [= ->]. lia.
    + apply select_switched_quietly. now destruct Hok as [_ Hall];
        destruct (Hall x Hin).
  - intros a Ha Hi. destruct Hok as [Hina _].
    unfold activate_previous, bind at 1, get_obj. unfold bind at 1.
    rewrite assert_true by exact (submodes_nonempty_of_index _ _ _ Hi).
    rewrite Ha, Hi. cbv zeta.
    rewrite (bool_decide_eq_false_2 (0 <= Z.of_nat 0 - 1)) by lia.
    cbn [orb]. unfold bind at 1, ret at 1. unfold bind at 1.
    rewrite (activate_submode_None_inactive _ _ _ _ Ha Hina).
    destruct debug.
    + exists s. repeat split; reflexivity.
    + eexists. split; [reflexivity|].
      split; [reflexivity|]. split; [reflexivity|]. discriminate.
Qed.

Lemma index_of_member (l : list mode_ref) a :
  NoDup l -> a ∈ l ->
  exists i, list_index a l = Some i /\ l !! i = Some a /\ (i < length l)%nat.
Proof.
  intros Hnd Hin. apply list_elem_of_lookup in Hin as [i Hi].
  exists i. split; [now apply list_index_NoDup|]. split; [exact Hi|].
  apply lookup_lt_is_Some. eauto.
Qed.

(** X18: on an inactive composite whose submodes are pairwise distinct,
    [activate_next()] followed by [activate_previous()] comes back to the
    submode it started from, and so does [activate_previous()] followed by
    [activate_next()]; the list of submodes, the hook log and the stacks
    are untouched. *)
Theorem stepping_round_trip (fuel : nat) (self a : mode_ref) (s : state) :
  deferred_ok s self ->
  NoDup (submodes (deref s self)) ->
  active_submode (deref s self) = Some a ->
  a ∈ submodes (deref s self) ->
  (exists x s1 s2,
      activate_next debug fuel self true s = Ok (Some x) s1
      /\ activate_previous fuel self true s1 = Ok (Some a) s2
      /\ switched_quietly self a s s2)
  /\ (exists x s1 s2,
        activate_previous fuel self true s = Ok (Some x) s1
        /\ activate_next debug fuel self true s1 = Ok (Some a) s2
        /\ switched_quietly self a s s2).
Proof.
  intros Hok Hnd Ha Hin.
  destruct (index_of_member _ _ Hnd Hin) as (i & Hi & Hai & Hlt).
  set (l := submodes (deref s self)) in *.
  assert (Hself : forall r, r ∈ l -> r <> self)
    by (intros r Hr; now destruct Hok as [_ Hall]; destruct (Hall r Hr)).
  split.
  - set (p := (S i mod length l)%nat).
    assert (Hp : (p < length l)%nat) by (apply Nat.mod_upper_bound; lia).
    destruct (lookup_lt_is_Some_2 l p Hp) as [x Hx].
    assert (Hxin : x ∈ l) by (apply list_elem_of_lookup; eauto).
    pose proof (Hself x Hxin) as Hxs. pose proof (Hself a Hin) as Has.
    exists x, (select_submode self x s),
      (select_submode self a (select_submode self x s)).
    assert (Hok1 := deferred_ok_select self x s Hxs Hok).
    destruct (select_submode_fields self x s Hxs) as (Ha1 & Hs1 & _).
    split; [|split].
    + apply activate_next_deferred; [exact Hok|].
      now rewrite (next_submode_at _ _ _ Ha Hi).
    + apply activate_previous_deferred; [exact Hok1| |now left].
      assert (Hxi : list_index x (submodes (deref (select_submode self x s)
                                               self)) = Some p)
        by (rewrite Hs1; now apply list_index_NoDup).
      rewrite (prev_submode_at _ _ _ Ha1 Hxi), Hs1. fold l.
      rewrite <- Hai. f_equal. unfold p.
      destruct (decide (S i < length l)%nat).
      * rewrite (Nat.mod_small (S i)) by lia.
        replace (S i + length l - 1)%nat with (i + 1 * length l)%nat by lia.
        rewrite Nat.Div0.mod_add. apply Nat.mod_small. lia.
      * replace (S i) with (length l) by lia.
        rewrite Nat.Div0.mod_same. rewrite Nat.mod_small by lia. lia.
    + eapply switched_quietly_trans; apply select_switched_quietly;
        assumption.
  - set (p := ((i + length l - 1) mod length l)%nat).
    assert (Hp : (p < length l)%nat) by (apply Nat.mod_upper_bound; lia).
    destruct (lookup_lt_is_Some_2 l p Hp) as [x Hx].
    assert (Hxin : x ∈ l) by (apply list_elem_of_lookup; eauto).
    pose proof (Hself x Hxin) as Hxs. pose proof (Hself a Hin) as Has.
    exists x, (select_submode self x s),
      (select_submode self a (select_submode self x s)).
    assert (Hok1 := deferred_ok_select self x s Hxs Hok).
    destruct (select_submode_fields self x s Hxs) as (Ha1 & Hs1 & _).
    split; [|split].
    + apply activate_previous_deferred; [exact Hok| |now left].
      now rewrite (prev_submode_at _ _ _ Ha Hi).
    + apply activate_next_deferred; [exact Hok1|].
      assert (Hxi : list_index x (submodes (deref (select_submode self x s)
                                               self)) = Some p)
        by (rewrite Hs1; now apply list_index_NoDup).
      rewrite (next_submode_at _ _ _ Ha1 Hxi), Hs1. fold l.
      rewrite <- Hai. f_equal. unfold p.
      destruct i as [|j].
      * rewrite (Nat.mod_small (0 + length l - 1)) by lia.
        replace (S (0 + length l - 1)) with (length l) by lia.
        apply Nat.Div0.mod_same.
      * replace (S j + length l - 1)%nat with (j + 1 * length l)%nat by lia.
        rewrite Nat.Div0.mod_add. rewrite (Nat.mod_small j) by lia.
        apply Nat.mod_small. lia.
    + eapply switched_quietly_trans; apply select_switched_quietly;
        assumption.
Qed.

(** X19: [activate_subnode(mode, before, index)]. When [mode] is already
    the active submode nothing happens, whatever the state of the
    composite. When [mode] is not a submode and [before] is given, the call
    fails and changes nothing: [add_submode] looks up the position of
    [mode] itself (with assertions on and [index] given too, the assertion
    fails first). On an inactive composite, a mode that is not yet a
    submode is appended and selected, and a mode that is a submode is
    selected, the list staying as it is; no hook runs and no stack
    changes. *)
Theorem activate_subnode_spec (fuel : nat) (self mode : mode_ref) (s : state) :
  (forall before index,
      mode ∈ submodes (deref s self) ->
      active_submode (deref s self) = Some mode ->
      activate_subnode fuel self mode before index s = Ok tt s)
  /\ (forall b index,
        mode ∉ submodes (deref s self) ->
        activate_subnode fuel self mode (Some b) index s
        = Raise (match index with
                 | Some _ => if debug then AssertionError else ValueError
                 | None => ValueError
                 end) s)
  /\ (deferred_ok s self ->
      mode ∉ submodes (deref s self) ->
      mode <> self -> is_Some (step_rate (deref s mode)) ->
      exists s',
        activate_subnode fuel self mode None None s = Ok tt s'
        /\ active_submode (deref s' self) = Some mode
        /\ submodes (deref s' self) = submodes (deref s self) ++ [mode]
        /\ log s' = log s /\ stacks s' = stacks s)
  /\ (forall before index,
        deferred_ok s self ->
        mode ∈ submodes (deref s self) ->
        exists s',
          activate_subnode fuel self mode before index s = Ok tt s'
          /\ switched_quietly self mode s s').
Proof.
  split; [|split; [|split]].
  - intros before index Hin Ha.
    unfold activate_subnode, bind at 1, get_obj.
    rewrite decide_True by exact Hin.
    unfold bind at 1, ret at 1. unfold bind at 1.
    now rewrite decide_True by exact Ha.
  - intros b index Hnin.
    unfold activate_subnode, bind at 1, get_obj.
    rewrite decide_False by exact Hnin.
    unfold bind at 1, add_submode, bind at 1, assert_.
    apply list_index_None in Hnin.
    destruct index as [i|], debug; try reflexivity;
      unfold ret at 1; unfold bind at 1, get_obj; unfold bind at 1;
      now rewrite Hnin.
  - intros Hok Hnin Hself Hrate.
    set (s1 := upd_obj self
                 (with_submodes (submodes (deref s self) ++ [mode])) s).
    assert (Hadd : add_submode self mode None None s = Ok tt s1).
    { unfold add_submode, bind at 1. rewrite assert_true by reflexivity.
      reflexivity. }
    assert (Hobj : deref s1 self
                   = with_submodes (submodes (deref s self) ++ [mode])
                       (deref s self))
      by (unfold s1; now rewrite deref_upd_obj_eq).
    assert (Hother : forall r, r <> self -> deref s1 r = deref s r)
      by (intros r Hr; unfold s1; now rewrite deref_upd_obj_ne by congruence).
    assert (Hok1 : deferred_ok s1 self).
    { destruct Hok as [Hina Hall]. split.
      - rewrite Hobj. now destruct (deref s self).
      - rewrite Hobj. intros r Hr.
        assert (Hr' : r ∈ submodes (deref s self) ++ [mode])
          by (now destruct (deref s self)).
        apply elem_of_app in Hr' as [Hr'|Hr'].
        + destruct (Hall r Hr') as [Hne Hst]. split; [exact Hne|].
          now rewrite Hother.
        + apply list_elem_of_singleton in Hr'. subst r.
          split; [exact Hself|]. now rewrite Hother. }
    assert (Hin1 : mode ∈ submodes (deref s1 self)).
    { rewrite Hobj.
      assert (E : submodes (with_submodes (submodes (deref s self) ++ [mode])
                              (deref s self))
                  = submodes (deref s self) ++ [mode])
        by (now destruct (deref s self)).
      rewrite E. apply elem_of_app. right. now apply list_elem_of_singleton. }
    exists (select_submode self mode s1).
    destruct (select_submode_fields self mode s1 Hself) as (Ha & Hs & _).
    destruct (select_submode_obj self mode s1 Hself) as (_ & _ & Hl & Hst).
    split; [|split; [exact Ha|split; [|split]]].
    + unfold activate_subnode, bind at 1, get_obj.
      rewrite decide_False by exact Hnin.
      unfold bind at 1. rewrite Hadd. unfold bind at 1.
      destruct (decide (active_submode (deref s1 self) = Some mode)) as [E|E].
      * unfold select_submode. now rewrite decide_True by exact E.
      * apply activate_submode_deferred; assumption.
    + rewrite Hs, Hobj. now destruct (deref s self).
    + rewrite Hl. reflexivity.
    + rewrite Hst. reflexivity.
  - intros before index Hok Hin.
    assert (Hself : mode <> self)
      by (now destruct Hok as [_ Hall]; destruct (Hall mode Hin)).
    exists (select_submode self mode s). split.
    + unfold activate_subnode, bind at 1, get_obj.
      rewrite decide_True by exact Hin.
      unfold bind at 1, ret at 1. unfold bind at 1.
      destruct (decide (active_submode (deref s self) = Some mode)) as [E|E].
      * unfold select_submode. now rewrite decide_True by exact E.
      * apply activate_submode_deferred; assumption.
    + now apply select_switched_quietly.
Qed.

(** ** Removing a named submode *)

Lemma remove_mode_absent fuel mg mode s :
  mode ∉ modes_of s mg -> remove_mode debug fuel mg mode s = Ok tt s.
Proof.
  intros Hn. unfold remove_mode, bind at 1, current_mode, bind at 1,
    get_modes at 1. unfold ret at 1.
  rewrite decide_False.
  - unfold bind, get_modes. apply list_remove_first_None in Hn.
    now rewrite Hn.
  - intros Hl. apply Hn. apply last_Some in Hl as [l' ->].
    apply elem_of_app. right. left.
Qed.

(** X20: [remove_submode(mode)] with the mode named. When it is not a
    submode nothing happens. On an inactive composite that is not on its
    manager's stack, with [x] the submode after the active one (cyclically;
    the first one when none is active): the first occurrence of [mode]
    leaves the list, and the active submode becomes [x], even when [mode]
    was not the active one, unless [x] is [mode] itself, in which case no
    submode is left active although others may remain. No hook runs and no
    stack changes. *)
Theorem remove_submode_named (fuel : nat) (self m : mode_ref) (s : state) :
  (m ∉ submodes (deref s self) ->
   remove_submode debug fuel self (Some m) s = Ok tt s)
  /\ (deferred_ok s self ->
      (forall mg, manager (deref s self) = Some mg -> self ∉ modes_of s mg) ->
      m ∈ submodes (deref s self) ->
      forall x,
        (active_submode (deref s self) = None
         /\ head (submodes (deref s self)) = Some x)
        \/ (exists a i,
              active_submode (deref s self) = Some a
              /\ list_index a (submodes (deref s self)) = Some i
              /\ submodes (deref s self)
                   !! (S i mod length (submodes (deref s self)))%nat
                 = Some x) ->
        exists s',
          remove_submode debug fuel self (Some m) s = Ok tt s'
          /\ list_remove_first m (submodes (deref s self))
             = Some (submodes (deref s' self))
          /\ active_submode (deref s' self)
             = (if decide (x = m) then None else Some x)
          /\ log s' = log s /\ stacks s' = stacks s).
Proof.
  split.
  - intros Hn. unfold remove_submode, bind at 1, get_obj.
    now rewrite decide_False by exact Hn.
  - intros Hok Hmgr Hin x Hx.
    assert (Hnext : next_submode (deref s self) = Some x).
    { destruct Hx as [[Ha Hh]|(a & i & Ha & Hi & Hl)].
      - unfold next_submode. now rewrite Ha.
      - now rewrite (next_submode_at _ _ _ Ha Hi). }
    assert (Hxin : x ∈ submodes (deref s self)).
    { destruct Hx as [[_ Hh]|(a & i & _ & _ & Hl)].
      - now apply head_Some_elem_of.
      - apply list_elem_of_lookup. eauto. }
    assert (Hxs : x <> self)
      by (now destruct Hok as [_ Hall]; destruct (Hall x Hxin)).
    set (s1 := select_submode self x s).
    destruct (select_submode_fields self x s Hxs)
      as (Ha1 & Hs1 & Hact1 & Hm1 & _).
    destruct (select_submode_obj self x s Hxs) as (_ & _ & Hl1 & Hst1).
    fold s1 in Ha1, Hs1, Hact1, Hm1, Hl1, Hst1.
    destruct (list_remove_first m (submodes (deref s self))) as [l|] eqn:El;
      [|apply list_remove_first_None in El; contradiction].
    set (s2 := upd_obj self (with_submodes l) s1).
    assert (Hobj2 : deref s2 self = with_submodes l (deref s1 self))
      by (unfold s2; now rewrite deref_upd_obj_eq).
    assert (Hstart : remove_submode debug fuel self (Some m) s
              = (if decide (Some x = Some m) then
                   let! o2 := get_obj self in
                   do! (match manager o2 with
                        | Some mg => remove_mode debug fuel mg self
                        | None => ret tt
                        end) in
                   _deactivate_submode fuel self true
                 else ret tt) s2).
    { unfold remove_submode, bind at 1, get_obj at 1.
      rewrite decide_True by exact Hin.
      unfold bind at 1.
      rewrite (activate_next_deferred fuel self s x Hok Hnext). fold s1.
      unfold bind at 1, get_obj at 1. rewrite Hs1, El.
      unfold bind at 1, modify_obj. reflexivity. }
    rewrite Hstart. clear Hstart.
    destruct (decide (x = m)) as [->|Hne].
    + rewrite decide_True by reflexivity.
      unfold bind at 1, get_obj at 1.
      assert (Hmgr2 : manager (deref s2 self) = manager (deref s self))
        by (rewrite Hobj2, <- Hm1; now destruct (deref s1 self)).
      assert (Hrm : (match manager (deref s2 self) with
                     | Some mg => remove_mode debug fuel mg self
                     | None => ret tt
                     end) s2 = Ok tt s2).
      { rewrite Hmgr2. destruct (manager (deref s self)) as [mg|] eqn:Emg;
          [|reflexivity].
        apply remove_mode_absent.
        assert (E : modes_of s2 mg = modes_of s mg)
          by (unfold modes_of, s2; simpl; now rewrite Hst1).
        rewrite E. now apply Hmgr. }
      unfold bind at 1. rewrite Hrm.
      assert (Ha2 : active_submode (deref s2 self) = Some m)
        by (rewrite Hobj2, <- Ha1; now destruct (deref s1 self)).
      assert (Hact2 : active (deref s2 self) = false).
      { destruct Hok as [Hina _].
        rewrite Hobj2, <- Hina, <- Hact1. now destruct (deref s1 self). }
      unfold _deactivate_submode, _deactivate_submode_with, bind at 1,
        get_obj at 1.
      rewrite Ha2, Hact2. unfold bind at 1, ret at 1.
      unfold clear_subnode, bind, modify_obj.
      eexists. split; [reflexivity|].
      rewrite !deref_upd_obj_eq, Hobj2.
      split; [now destruct (deref s1 self)|].
      split; [reflexivity|]. split; [exact Hl1|exact Hst1].
    + rewrite decide_False by congruence.
      exists s2. split; [reflexivity|]. rewrite Hobj2.
      split; [now destruct (deref s1 self)|].
      split; [rewrite <- Ha1; now destruct (deref s1 self)|].
      split; [exact Hl1|exact Hst1].
Qed.

(** ** Switching submodes on an active composite *)

(** [_activate_submode(x)] on an active composite whose active submode [a]
    and new submode [x] are plain modes: [a] is deactivated through the
    manager, the selection moves, and [x] is activated through the
    manager. *)
Lemma activate_submode_live fuel c mg a x rate s :
  active (deref s c) = true ->
  manager (deref s c) = Some mg ->
  active_submode (deref s c) = Some a ->
  x ∈ submodes (deref s c) ->
  is_BaseMode s a -> is_BaseMode s x ->
  a <> c -> x <> c -> x <> a ->
  step_rate (deref s x) = Some rate ->
  _activate_submode debug (S fuel) c (Some x) s
  = Ok tt (activated x mg
             (submode_set c x rate (submode_cleared c (deactivated a s)))).
Proof.
  intros Hact Hmgr Ha Hin Hpa Hpx Hac Hxc Hxa Hrate.
  unfold _activate_submode, bind at 1, get_obj at 1.
  rewrite decide_False by congruence.
  unfold bind at 1. rewrite assert_true by now apply bool_decide_eq_true.
  unfold bind at 1, _deactivate_submode, _deactivate_submode_with.
  unfold bind at 1, get_obj at 1. rewrite Ha, Hact, Hmgr.
  unfold bind at 1, deactivate_mode. rewrite deactivate_plain by exact Hpa.
  unfold clear_subnode, bind at 1, modify_obj.
  fold (submode_cleared c (deactivated a s)).
  set (s1 := submode_cleared c (deactivated a s)).
  assert (Hr1 : step_rate (deref s1 x) = Some rate)
    by (unfold s1; deref_simpl; exact Hrate).
  unfold bind at 1. rewrite (set_active_submode_Some _ _ _ _ Hr1).
  set (s2 := submode_set c x rate s1).
  assert (Hact2 : active (deref s2 c) = true)
    by (unfold s2, s1; deref_simpl; exact Hact).
  assert (Hmgr2 : manager (deref s2 c) = Some mg)
    by (unfold s2, s1; deref_simpl; exact Hmgr).
  assert (Hpx2 : is_BaseMode s2 x)
    by (unfold is_BaseMode, s2, s1; deref_simpl; exact Hpx).
  unfold bind at 1, get_obj at 1. rewrite Hact2, Hmgr2.
  unfold activate_mode. now rewrite activate_plain by exact Hpx2.
Qed.

(** X21: switching submodes on an active composite. With the composite
    active on manager [mg], its active submode [a] and another submode [x]
    both plain modes, and [x] inactive: [activate_subnode(x)] calls
    [on_deactivate] of [a], then [on_activate] of [x]; afterwards [x] is the
    active submode and active, [a] is inactive, the composite is still
    active and has taken the step rate of [x], and no stack has changed.
    [activate_next()] does exactly the same when [x] is the submode after
    [a]. *)
Theorem switch_on_active_composite (fuel : nat) (c a x : mode_ref)
    (mg : manager_ref) (rate : option Z) (s : state) :
  active (deref s c) = true ->
  manager (deref s c) = Some mg ->
  active_submode (deref s c) = Some a ->
  x ∈ submodes (deref s c) ->
  is_BaseMode s a -> is_BaseMode s x ->
  a <> c -> x <> c -> x <> a ->
  step_rate (deref s x) = Some rate ->
  active (deref s x) = false ->
  exists s',
    (forall before index,
        activate_subnode (S fuel) c x before index s = Ok tt s')
    /\ (forall i,
          list_index a (submodes (deref s c)) = Some i ->
          submodes (deref s c) !! (S i mod length (submodes (deref s c)))%nat
          = Some x ->
          activate_next debug (S fuel) c true s = Ok (Some x) s')
    /\ active_submode (deref s' c) = Some x
    /\ step_rate (deref s' c) = Some rate
    /\ active (deref s' c) = true
    /\ active (deref s' x) = true
    /\ active (deref s' a) = false
    /\ submodes (deref s' c) = submodes (deref s c)
    /\ log s' = log s ++ [OnDeactivate a; OnActivate x]
    /\ stacks s' = stacks s.
Proof.
  intros Hact Hmgr Ha Hin Hpa Hpx Hac Hxc Hxa Hrate Hxoff.
  pose proof (activate_submode_live fuel c mg a x rate s
                Hact Hmgr Ha Hin Hpa Hpx Hac Hxc Hxa Hrate) as Hsw.
  set (s2 := submode_set c x rate (submode_cleared c (deactivated a s))) in *.
  assert (Hoff2 : active (deref s2 x) = false)
    by (unfold s2; deref_simpl; exact Hxoff).
  exists (activated x mg s2).
  split; [|split; [|split; [|split; [|split; [|split; [|split;
    [|split; [|split]]]]]]]].
  - intros before index. unfold activate_subnode, bind at 1, get_obj at 1.
    rewrite decide_True by exact Hin.
    unfold bind at 1, ret at 1. unfold bind at 1, get_obj at 1.
    rewrite decide_False by congruence. exact Hsw.
  - intros i Hi Hx.
    assert (Hn : next_submode (deref s c) = Some x)
      by (now rewrite (next_submode_at _ _ _ Ha Hi)).
    destruct (activate_next_to (S fuel) c s x Hn) as [_ ->].
    unfold bind. now rewrite Hsw.
  - unfold s2. deref_simpl. reflexivity.
  - unfold s2. deref_simpl. reflexivity.
  - unfold s2. deref_simpl. exact Hact.
  - apply active_activated.
  - unfold s2. deref_simpl. reflexivity.
  - unfold s2. deref_simpl. reflexivity.
  - rewrite log_activated, Hoff2. unfold s2, submode_set, submode_cleared,
      deactivated. simpl. now rewrite <- app_assoc.
  - rewrite stacks_activated. reflexivity.
Qed.

End MoreModes.

(** ** Scenarios for the stack discipline and for composites *)

(** Three fresh plain modes and nothing else. *)
Definition plain_world : state :=
  {| objs := <[mX := plain]> (<[mY := plain]> (<[mZ := plain]> ∅));
     stacks := ∅;
     log := [] |}.

(** A mode of a class that defines no [step_rate], as [BaseMode] itself. *)
Definition mBare : mode_ref := 7%nat.

(** The composite over [X, Y, Z], off any manager, with [X] selected. *)
Definition at_X_detached : state :=
  final_state (activate_next true 5 multi true) (world [mX; mY; mZ]).

(** The composite over [X, Y, Z] pushed on the manager: [X] is active. *)
Definition at_X_on_stack : state :=
  final_state (push_mode true 5 mgr multi) (world [mX; mY; mZ]).

(** A client's session on one manager. *)
Definition session : list stack_op :=
  [Push mX; Push mY; Pop; Pop; Pop; Push mY; Swap mZ; Push mX; Remove mZ].

Definition fresh_session : list stack_op :=
  [Push mX; Push mY; Pop; Remove mZ; Push mZ; Remove mX; Pop; Pop; Push mY].

#[global] Instance cls_eq_dec : EqDecision cls.
Proof. solve_decision. Defined.

Lemma all_plain_check (s : state) :
  map_Forall (fun _ o => class o = BaseMode) (objs s) -> all_plain s.
Proof.
  intros H r. unfold is_BaseMode, deref. rewrite lookup_total_alt.
  destruct (objs s !! r) as [o|] eqn:E; simpl; [|reflexivity].
  exact (H r o E).
Qed.

Lemma deferred_ok_check (s : state) (self : mode_ref) :
  active (deref s self) = false ->
  Forall (fun r => r <> self /\ is_Some (step_rate (deref s r)))
         (submodes (deref s self)) ->
  deferred_ok s self.
Proof.
  intros Hina Hall. split; [exact Hina|].
  intros r Hr. rewrite Forall_forall in Hall. now apply Hall.
Qed.

Ltac by_computation :=
  first [ vm_compute; reflexivity
        | refine (bool_decide_unpack _ _); vm_compute; exact I ].

Ltac deferred_by_computation :=
  apply deferred_ok_check; [vm_compute; reflexivity|];
  refine (bool_decide_unpack _ _); vm_compute; exact I.

Lemma all_plain_plain_world : all_plain plain_world.
Proof.
  apply all_plain_check. refine (bool_decide_unpack _ _). vm_compute. exact I.
Qed.

Lemma remove_mode_spec_witness :
  remove_mode true 5 mgr mY stack_XY
  = (do! pop_mode true 5 mgr in ret tt) stack_XY
  /\ remove_mode true 5 mgr mZ stack_XY = Ok tt stack_XY
  /\ exists before after s',
       modes_of stack_XY mgr = before ++ mX :: after
       /\ (mX ∉ before)
       /\ remove_mode true 5 mgr mX stack_XY = Ok tt s'
       /\ modes_of s' mgr = before ++ after
       /\ last (modes_of s' mgr) = last (modes_of stack_XY mgr)
       /\ objs s' = objs stack_XY
       /\ log s' = log stack_XY
       /\ (forall m, m <> mgr -> modes_of s' m = modes_of stack_XY m).
Proof.
  split; [|split].
  - apply (proj1 (remove_mode_spec true 5 mgr mY stack_XY)). by_computation.
  - apply (proj1 (proj2 (remove_mode_spec true 5 mgr mZ stack_XY))).
    by_computation.
  - apply (proj2 (proj2 (remove_mode_spec true 5 mgr mX stack_XY)));
      by_computation.
Defined.

Lemma push_mode_spec_witness :
  exists s',
    push_mode true 5 mgr mZ stack_XY = Ok tt s'
    /\ current_mode mgr s' = Ok (Some mZ) s'
    /\ active (deref s' mZ) = true
    /\ deref s' mY = with_active false (deref stack_XY mY)
    /\ deref s' mX = deref stack_XY mX.
Proof.
  destruct (proj2 (push_mode_spec true 4 mgr mZ stack_XY))
    as (s' & Hpush & Hcur & Hact & Htop & Hframe).
  - by_computation.
  - intros cur H. vm_compute in H. injection H as <-. by_computation.
  - exists s'. split; [exact Hpush|]. split; [exact Hcur|].
    split; [exact Hact|]. split.
    + apply Htop; [by_computation|discriminate].
    + apply Hframe; [discriminate|]. vm_compute. discriminate.
Defined.

Lemma push_pop_round_trip_witness :
  exists s1 s2,
    push_mode true 5 mgr mZ stack_XY = Ok tt s1
    /\ pop_mode true 5 mgr s1 = Ok mZ s2
    /\ modes_of s2 mgr = modes_of stack_XY mgr
    /\ deref s2 mY = deref stack_XY mY
    /\ active (deref s2 mZ) = false
    /\ deref s2 mX = deref stack_XY mX.
Proof.
  destruct (push_pop_round_trip true 4 mgr mZ stack_XY)
    as (s1 & s2 & Hpush & Hpop & Hst & _ & Htop & Hoff & Hframe).
  - by_computation.
  - intros cur H. vm_compute in H. injection H as <-. by_computation.
  - exists s1, s2. split; [exact Hpush|]. split; [exact Hpop|].
    split; [exact Hst|]. split; [|split].
    + apply (Htop mY); [by_computation|discriminate|by_computation..].
    + apply Hoff. vm_compute. discriminate.
    + apply Hframe; [discriminate|]. vm_compute. discriminate.
Defined.

Lemma current_mode_stays_active_witness :
  modes_of (exec_ops true 5 mgr session plain_world) mgr = [mX]
  /\ active (deref (exec_ops true 5 mgr session plain_world) mX) = true.
Proof.
  split; [by_computation|].
  destruct (current_mode_stays_active true 4 mgr session plain_world)
    as [_ Htop].
  - exact all_plain_plain_world.
  - intros top H. vm_compute in H. discriminate.
  - apply Htop. by_computation.
Defined.

Lemma only_top_stays_active_witness :
  only_top_active mgr (exec_ops true 5 mgr fresh_session plain_world).
Proof.
  apply (only_top_stays_active true 4 mgr fresh_session plain_world).
  - exact all_plain_plain_world.
  - split; [by_computation|].
    intros r Hr. vm_compute in Hr. now apply elem_of_nil in Hr.
  - cbn [fresh_session fresh_ops fresh_op].
    repeat split; by_computation.
Defined.

Lemma BaseMulti_activate_failures_witness :
  activate true 5 multi mgr (world []) = Raise AssertionError (world [])
  /\ exists s',
       activate true 5 multi mgr (world [mBare; mX]) = Raise AttributeError s'
       /\ log s' = log (world [mBare; mX])
       /\ stacks s' = stacks (world [mBare; mX])
       /\ deref s' multi
          = with_active_submode (Some mBare)
              (with_manager (Some mgr) (deref (world [mBare; mX]) multi))
       /\ (forall r, r <> multi -> deref s' r = deref (world [mBare; mX]) r).
Proof.
  split.
  - apply (proj1 (BaseMulti_activate_failures true 4 multi mgr (world [])
                    eq_refl)); by_computation.
  - apply (proj2 (BaseMulti_activate_failures true 4 multi mgr
                    (world [mBare; mX]) eq_refl) mBare).
    + vm_compute. discriminate.
    + by_computation.
    + by_computation.
Defined.

Lemma composite_resumes_submode_witness :
  exists s1 s2 s3,
    activate true 5 multi mgr (world [mX; mY]) = Ok tt s1
    /\ logged (world [mX; mY]) s1 [OnActivate mX; OnActivate multi]
    /\ deactivate 5 multi mgr s1 = Ok tt s2
    /\ logged s1 s2 [OnDeactivate mX; OnDeactivate multi]
    /\ active_submode (deref s2 multi) = Some mX
    /\ activate true 5 multi 1%nat s2 = Ok tt s3
    /\ logged s2 s3 [OnActivate mX; OnActivate multi]
    /\ manager (deref s3 mX) = Some 1%nat.
Proof.
  destruct (composite_resumes_submode true 3 multi mX mgr 1%nat (Some 60)
              (world [mX; mY]))
    as (s1 & s2 & s3 & H1 & L1 & _ & _ & _ & _ & _ & H2 & L2 & A2 & _ & _
        & H3 & L3 & _ & _ & _ & _ & M3 & _);
    [by_computation| |by_computation..|].
  - vm_compute. discriminate.
  - exists s1, s2, s3. repeat split; assumption.
Defined.

Lemma add_submode_spec_witness :
  add_submode true multi mZ (Some mX) None (world [mX; mY])
  = Raise ValueError (world [mX; mY])
  /\ add_submode true multi mZ (Some mX) (Some 0) (world [mX; mY])
     = Raise AssertionError (world [mX; mY])
  /\ exists s', add_submode true multi mZ None (Some 1) (world [mX; mY])
                = Ok tt s'.
Proof.
  destruct (add_submode_spec true multi mZ (Some mX) None (world [mX; mY]))
    as (_ & Hval & _).
  destruct (add_submode_spec true multi mZ (Some mX) (Some 0)
              (world [mX; mY])) as (_ & _ & Hass & _).
  destruct (add_submode_spec true multi mZ None (Some 1) (world [mX; mY]))
    as (_ & _ & _ & Hok).
  split; [|split].
  - apply Hval; [eexists; reflexivity|by_computation|now left].
  - apply Hass; [eexists; reflexivity..|reflexivity].
  - apply Hok. reflexivity.
Defined.

Lemma activate_previous_spec_witness :
  (exists s', activate_previous true 5 multi false (world [mX; mY; mZ])
              = Ok (Some mZ) s'
              /\ switched_quietly multi mZ (world [mX; mY; mZ]) s')
  /\ (exists s', activate_previous true 5 multi false at_Z_detached
                 = Ok (Some mY) s'
                 /\ switched_quietly multi mY at_Z_detached s')
  /\ (exists s', activate_previous true 5 multi true at_X_detached
                 = Ok (Some mZ) s'
                 /\ switched_quietly multi mZ at_X_detached s')
  /\ (exists s', activate_previous true 5 multi false at_X_detached
                 = Raise AssertionError s'
                 /\ log s' = log at_X_detached
                 /\ stacks s' = stacks at_X_detached
                 /\ (true = true -> s' = at_X_detached)).
Proof.
  split; [|split; [|split]].
  - apply (proj1 (activate_previous_spec true 5 multi (world [mX; mY; mZ])
                    ltac:(deferred_by_computation)));
      by_computation.
  - apply (proj1 (proj2 (activate_previous_spec true 5 multi at_Z_detached
                           ltac:(deferred_by_computation)))
             false mZ 2%nat mY); [by_computation..|right; lia].
  - apply (proj1 (proj2 (activate_previous_spec true 5 multi at_X_detached
                           ltac:(deferred_by_computation)))
             true mX 0%nat mZ); [by_computation..|now left].
  - apply (proj2 (proj2 (activate_previous_spec true 5 multi at_X_detached
                           ltac:(deferred_by_computation)))
             mX); by_computation.
Defined.

Lemma stepping_round_trip_witness :
  (exists x s1 s2,
      activate_next true 5 multi true at_Z_detached = Ok (Some x) s1
      /\ activate_previous true 5 multi true s1 = Ok (Some mZ) s2
      /\ switched_quietly multi mZ at_Z_detached s2)
  /\ (exists x s1 s2,
        activate_previous true 5 multi true at_Z_detached = Ok (Some x) s1
        /\ activate_next true 5 multi true s1 = Ok (Some mZ) s2
        /\ switched_quietly multi mZ at_Z_detached s2).
Proof.
  apply (stepping_round_trip true 5 multi mZ at_Z_detached).
  - deferred_by_computation.
  - by_computation.
  - by_computation.
  - by_computation.
Defined.

Lemma activate_subnode_spec_witness :
  activate_subnode true 5 multi mZ None None at_Z_detached
  = Ok tt at_Z_detached
  /\ activate_subnode true 5 multi mZ (Some mX) None (world [mX; mY])
     = Raise ValueError (world [mX; mY])
  /\ (exists s',
        activate_subnode true 5 multi mZ None None (world [mX; mY]) = Ok tt s'
        /\ active_submode (deref s' multi) = Some mZ
        /\ submodes (deref s' multi)
           = submodes (deref (world [mX; mY]) multi) ++ [mZ]
        /\ log s' = log (world [mX; mY])
        /\ stacks s' = stacks (world [mX; mY]))
  /\ (exists s',
        activate_subnode true 5 multi mY None None at_Z_detached = Ok tt s'
        /\ switched_quietly multi mY at_Z_detached s').
Proof.
  split; [|split; [|split]].
  - apply (proj1 (activate_subnode_spec true 5 multi mZ at_Z_detached));
      by_computation.
  - apply (proj1 (proj2 (activate_subnode_spec true 5 multi mZ
                           (world [mX; mY]))) mX None).
    by_computation.
  - apply (proj1 (proj2 (proj2 (activate_subnode_spec true 5 multi mZ
                                  (world [mX; mY])))));
      [deferred_by_computation|by_computation|discriminate|].
    eexists. by_computation.
  - apply (proj2 (proj2 (proj2 (activate_subnode_spec true 5 multi mY
                                  at_Z_detached))));
      [deferred_by_computation|by_computation].
Defined.

Lemma remove_submode_named_witness :
  remove_submode true 5 multi (Some mBare) at_Z_detached = Ok tt at_Z_detached
  /\ (exists s',
        remove_submode true 5 multi (Some mX) at_Z_detached = Ok tt s'
        /\ submodes (deref s' multi) = [mY; mZ]
        /\ active_submode (deref s' multi) = None)
  /\ (exists s',
        remove_submode true 5 multi (Some mY) at_Z_detached = Ok tt s'
        /\ submodes (deref s' multi) = [mX; mZ]
        /\ active_submode (deref s' multi) = Some mX).
Proof.
  split; [|split].
  - apply (proj1 (remove_submode_named true 5 multi mBare at_Z_detached)).
    by_computation.
  - destruct (proj2 (remove_submode_named true 5 multi mX at_Z_detached)
                ltac:(deferred_by_computation)) with (x := mX)
      as (s' & Hrm & Hl & Ha & _).
    + intros mg H. vm_compute in H. discriminate.
    + by_computation.
    + right. exists mZ, 2%nat. repeat split; by_computation.
    + exists s'. split; [exact Hrm|]. split; [|exact Ha].
      assert (E : list_remove_first mX (submodes (deref at_Z_detached multi))
                  = Some [mY; mZ]) by by_computation.
      rewrite E in Hl. now injection Hl as <-.
  - destruct (proj2 (remove_submode_named true 5 multi mY at_Z_detached)
                ltac:(deferred_by_computation)) with (x := mX)
      as (s' & Hrm & Hl & Ha & _).
    + intros mg H. vm_compute in H. discriminate.
    + by_computation.
    + right. exists mZ, 2%nat. repeat split; by_computation.
    + exists s'. split; [exact Hrm|]. split; [|exact Ha].
      assert (E : list_remove_first mY (submodes (deref at_Z_detached multi))
                  = Some [mX; mZ]) by by_computation.
      rewrite E in Hl. now injection Hl as <-.
Defined.

Lemma switch_on_active_composite_witness :
  exists s',
    activate_subnode true 5 multi mY None None at_X_on_stack = Ok tt s'
    /\ activate_next true 5 multi true at_X_on_stack = Ok (Some mY) s'
    /\ active_submode (deref s' multi) = Some mY
    /\ active (deref s' mY) = true
    /\ active (deref s' mX) = false
    /\ log s' = log at_X_on_stack ++ [OnDeactivate mX; OnActivate mY]
    /\ stacks s' = stacks at_X_on_stack.
Proof.
  destruct (switch_on_active_composite true 4 multi mX mY mgr (Some 60)
              at_X_on_stack)
    as (s' & Hsub & Hnext & Ha & _ & _ & Hy & Hx & _ & Hlog & Hst);
    [by_computation.. | | | | | |].
  all: try by_computation.
  all: try discriminate.
  exists s'. split; [apply Hsub|]. split; [apply (Hnext 0%nat); by_computation|].
  repeat split; assumption.
Defined.

End Mode.
